(** * GlobalGrants: the Express routes and the storage facade

    A shallow embedding of the server side of the grant platform:
    [shared/schema.ts] (tables, enumerations, insert schemas), the storage
    facade [DatabaseStorage] of [server/storage.ts], and the route handlers
    and seed routines of [registerRoutes] in [server/routes.ts].

    Conventions of the model.
    - Text is [string]: the bytes of the UTF-8 form of the program's text,
      one [ascii] per byte.  White space ([trim]), the width of
      [varchar(n)] and the [_] of LIKE go by characters.  Case folding is
      that of the letters A to Z; what the database folds beyond them
      depends on its locale.
    - A table is the list of its rows in insertion order; a query without
      ORDER BY returns the rows in that order, ORDER BY is a stable sort.
    - An insert checks what the schema declares: primary keys, the unique
      country code, foreign keys, and the widths of [varchar(3)],
      [decimal(12,2)] and [integer] columns; the inserts of what a request
      sends (applications, contact messages) also refuse a text with
      U+0000 in it.  A violated constraint is the exception the handlers
      catch.
    - [timestamp] columns hold milliseconds since the epoch, [decimal(12,2)]
      columns hold hundredths of the unit, both as [Z].
    - JavaScript numbers that hold row counts are [Z]; where the code
      divides and multiplies them the IEEE double arithmetic is spelled out
      in module [F64].
    - [Math.random()], [gen_random_uuid()] and [now()] are read from the
      world: two streams with a cursor each, and a clock, which is read
      and does not advance while a world is run.
    - The world also records the calls made on the storage operations of
      the submission, look-up, listing and seeding code, so that "no lookup
      was made" can be said.
    - Handlers are modelled below the [isAuthenticated] middleware: an
      authenticated handler receives the subject of the session. *)

From Stdlib Require Import List String Ascii Bool ZArith QArith Lia Arith.
From Stdlib Require Import Sorted Permutation.
Import ListNotations.

Local Open Scope string_scope.
Local Open Scope Z_scope.

(* ===================================================================== *)
(** ** JavaScript values *)
(* ===================================================================== *)

Module Js.

(** A JSON request body, or one of its fields.  [Undefined] is what reading
    a missing property gives. *)
#[warnings="-register-all"]
Inductive value : Type :=
  | Undefined
  | Null
  | Boolean (b : bool)
  | Number (q : Q)
  | Str (s : string)
  | Object (fields : list (string * value)).

(** [ToBoolean]: what [!x] and [if (x)] look at. *)
Definition truthy (v : value) : bool :=
  match v with
  | Undefined | Null => false
  | Boolean b => b
  | Number q => negb (Qeq_bool q 0)
  | Str s => negb (s =? "")%string
  | Object _ => true
  end.

(** [typeof v === 'string'] *)
Definition is_string (v : value) : bool :=
  match v with Str _ => true | _ => false end.

Fixpoint assoc (k : string) (l : list (string * value)) : value :=
  match l with
  | [] => Undefined
  | (k', v) :: l' => if (k' =? k)%string then v else assoc k l'
  end.

(** Property read [o.k].  [None] is the TypeError of reading a property of
    [undefined] or [null]; a primitive has none of the properties read here. *)
Definition get (o : value) (k : string) : option value :=
  match o with
  | Undefined | Null => None
  | Object fields => Some (assoc k fields)
  | _ => Some Undefined
  end.

(** White space of [String.prototype.trim]: the code points WhiteSpace and
    LineTerminator of ECMAScript, in the UTF-8 form the text has here.
    One byte: U+0009 to U+000D and U+0020. *)
Definition is_white_space (c : ascii) : bool :=
  let n := nat_of_ascii c in
  ((9 <=? n)%nat && (n <=? 13)%nat) || (n =? 32)%nat.

(** Two bytes: U+00A0 (C2 A0). *)
Definition is_white_space2 (c1 c2 : ascii) : bool :=
  (nat_of_ascii c1 =? 194)%nat && (nat_of_ascii c2 =? 160)%nat.

(** Three bytes: U+1680 (E1 9A 80), U+2000 to U+200A (E2 80 80 to E2 80 8A),
    U+2028, U+2029 and U+202F (E2 80 A8, A9, AF), U+205F (E2 81 9F),
    U+3000 (E3 80 80) and U+FEFF (EF BB BF). *)
Definition is_white_space3 (c1 c2 c3 : ascii) : bool :=
  let n1 := nat_of_ascii c1 in
  let n2 := nat_of_ascii c2 in
  let n3 := nat_of_ascii c3 in
  ((n1 =? 225) && (n2 =? 154) && (n3 =? 128))%nat
  || ((n1 =? 226) && (n2 =? 128)
      && (((128 <=? n3) && (n3 <=? 138)) || (n3 =? 168) || (n3 =? 169) || (n3 =? 175)))%nat
  || ((n1 =? 226) && (n2 =? 129) && (n3 =? 159))%nat
  || ((n1 =? 227) && (n2 =? 128) && (n3 =? 128))%nat
  || ((n1 =? 239) && (n2 =? 187) && (n3 =? 191))%nat.

Fixpoint trim_start (s : string) : string :=
  match s with
  | EmptyString => EmptyString
  | String c1 s1 =>
      if is_white_space c1 then trim_start s1
      else
        match s1 with
        | EmptyString => s
        | String c2 s2 =>
            if is_white_space2 c1 c2 then trim_start s2
            else
              match s2 with
              | EmptyString => s
              | String c3 s3 => if is_white_space3 c1 c2 c3 then trim_start s3 else s
              end
        end
  end.

Fixpoint string_rev (s : string) : string :=
  match s with
  | EmptyString => EmptyString
  | String c s' => string_rev s' ++ String c EmptyString
  end.

(** [trim_start] on the text read backwards: the bytes of a white space
    character come last byte first. *)
Fixpoint trim_start_rev (s : string) : string :=
  match s with
  | EmptyString => EmptyString
  | String c1 s1 =>
      if is_white_space c1 then trim_start_rev s1
      else
        match s1 with
        | EmptyString => s
        | String c2 s2 =>
            if is_white_space2 c2 c1 then trim_start_rev s2
            else
              match s2 with
              | EmptyString => s
              | String c3 s3 =>
                  if is_white_space3 c3 c2 c1 then trim_start_rev s3 else s
              end
        end
  end.

Definition trim_end (s : string) : string :=
  string_rev (trim_start_rev (string_rev s)).

Definition trim (s : string) : string := trim_end (trim_start s).

(** Truthiness of a string: non-empty. *)
Definition truthy_string (s : string) : bool := negb (s =? "")%string.

End Js.

(* ===================================================================== *)
(** ** PostgreSQL text operators *)
(* ===================================================================== *)

Module Pg.

(** Text in the database is UTF-8.  A byte [10xxxxxx] continues the
    character that the bytes before it began. *)
Definition is_continuation (c : ascii) : bool :=
  let n := nat_of_ascii c in
  ((128 <=? n) && (n <=? 191))%nat.

Fixpoint skip_continuation (s : list ascii) : list ascii :=
  match s with
  | [] => []
  | c :: s' => if is_continuation c then skip_continuation s' else s
  end.

(** What is left of [s] after its first character: one byte for an ASCII
    character, otherwise the byte and the continuation bytes behind it. *)
Definition after_char (d : ascii) (s' : list ascii) : list ascii :=
  if (nat_of_ascii d <? 128)%nat then s' else skip_continuation s'.

(** The number of characters of a text. *)
Definition char_length (s : string) : nat :=
  List.length (filter (fun c => negb (is_continuation c)) (list_ascii_of_string s)).

(** A text value cannot hold U+0000: a statement with such a parameter
    fails. *)
Definition storable (s : string) : bool :=
  negb (existsb (fun c => (nat_of_ascii c =? 0)%nat) (list_ascii_of_string s)).

Definition storable_or_null (s : option string) : bool :=
  match s with
  | Some s' => storable s'
  | None => true
  end.

(** [lower()] as ILIKE applies it.  What it does to letters outside ASCII
    depends on the locale of the database, which the repository does not
    fix; the model folds the letters A to Z, which the locales share.
    Statements that depend on a text not matching are stated for ASCII
    text. *)
Definition lower_char (c : ascii) : ascii :=
  let n := nat_of_ascii c in
  if ((65 <=? n)%nat && (n <=? 90)%nat)%bool then ascii_of_nat (n + 32) else c.

Definition lower (s : list ascii) : list ascii := map lower_char s.

(** [CONCAT] skips NULL arguments. *)
Fixpoint CONCAT (args : list (option string)) : string :=
  match args with
  | [] => ""
  | None :: rest => CONCAT rest
  | Some s :: rest => s ++ CONCAT rest
  end.

(** [s LIKE p]: in the pattern [%] stands for any run of characters, [_] for
    any one character (all of its bytes), and a backslash makes the next
    character literal.  A pattern that ends in a lone backslash matches
    nothing here (PostgreSQL raises an error; no pattern built below ends
    that way). *)
Fixpoint like (p s : list ascii) {struct p} : bool :=
  match p with
  | [] => match s with [] => true | _ => false end
  | c :: p' =>
      if Ascii.eqb c "%" then
        (fix any_run (t : list ascii) : bool :=
           like p' t || match t with [] => false | _ :: t' => any_run t' end) s
      else if Ascii.eqb c "_" then
        match s with [] => false | d :: s' => like p' (after_char d s') end
      else if Ascii.eqb c "\" then
        match p' with
        | [] => false
        | e :: p'' =>
            match s with
            | [] => false
            | d :: s' => Ascii.eqb e d && like p'' s'
            end
        end
      else
        match s with
        | [] => false
        | d :: s' => Ascii.eqb c d && like p' s'
        end
  end.

(** [s ILIKE p]: both sides are folded to lower case, then matched. *)
Definition ILIKE (s p : string) : bool :=
  like (lower (list_ascii_of_string p)) (lower (list_ascii_of_string s)).

End Pg.

(* ===================================================================== *)
(** ** IEEE 754 doubles, as far as the statistics use them *)
(* ===================================================================== *)

Module F64.

(** A finite non-negative double: the value is [mant * 2 ^ expo].  Exponents
    are not bounded: the quotients and products formed by the code stay
    far inside the range of normal doubles. *)
Record t : Type := mk { mant : Z; expo : Z }.

(** The rational a double stands for. *)
Definition to_Q (x : t) : Q :=
  if 0 <=? expo x then inject_Z (mant x * 2 ^ expo x)
  else Qmake (mant x) (Z.to_pos (2 ^ (- expo x))).

(** [n / d] rounded to the nearest integer, ties to the even one. *)
Definition rne_div (n d : Z) : Z :=
  let q := n / d in
  let r := n mod d in
  if 2 * r <? d then q
  else if d <? 2 * r then q + 1
  else if Z.even q then q else q + 1.

(** The double nearest to [n * 2 ^ e]: at most 53 significant bits. *)
Definition round53 (n e : Z) : t :=
  let k := Z.log2 n - 52 in
  if k <=? 0 then mk n e else mk (rne_div n (2 ^ k)) (e + k).

(** [Number(n)] for a non-negative integer. *)
Definition of_Z (n : Z) : t := round53 n 0.

(** [floor (log2 (n / d))] for positive [n] and [d]. *)
Definition ilog2_ratio (n d : Z) : Z :=
  let l := Z.log2 n - Z.log2 d in
  if 0 <=? l
  then (if d * 2 ^ l <=? n then l else l - 1)
  else (if d <=? n * 2 ^ (- l) then l else l - 1).

(** [x / y], correctly rounded.  The code divides by a count it has tested
    to be positive; for [y = 0] (JavaScript: Infinity or NaN) this is 0. *)
Definition div (x y : t) : t :=
  let n := mant x in
  let d := mant y in
  if (n <=? 0) || (d <=? 0) then mk 0 0
  else
    let e := ilog2_ratio n d - 52 in
    let q := if 0 <=? e then rne_div n (d * 2 ^ e) else rne_div (n * 2 ^ (- e)) d in
    mk q (e + expo x - expo y).

(** [x * y], correctly rounded. *)
Definition mul (x y : t) : t :=
  round53 (mant x * mant y) (expo x + expo y).

(** [Math.round]: the nearest integer, ties upwards; the result is exact. *)
Definition Math_round (x : t) : Z :=
  if 0 <=? expo x then mant x * 2 ^ expo x
  else (2 * mant x + 2 ^ (- expo x)) / (2 * 2 ^ (- expo x)).

End F64.

(* ===================================================================== *)
(** ** shared/schema.ts: enumerations, tables, insert types *)
(* ===================================================================== *)

(** What an insert says about a column that has a default: the key is left
    out ([Omitted], the default applies) or given, possibly as NULL. *)
Inductive Col (A : Type) : Type :=
  | Omitted
  | Given (v : option A).
Arguments Omitted {A}.
Arguments Given {A} v.

Definition or_default {A : Type} (d : A) (c : Col A) : option A :=
  match c with
  | Omitted => Some d
  | Given v => v
  end.

Inductive GrantCategory : Type :=
  | education | business | healthcare | housing | emergency
  | seniors | research | innovation | homebuyer | financial_relief.

Inductive GrantStatus : Type := active | closed | draft.

Inductive ApplicationStatus : Type :=
  | pending | under_review | qualified | not_qualified
  | selected | awarded | rejected.

Definition grantCategoryEnum : list (string * GrantCategory) :=
  [ ("education", education); ("business", business);
    ("healthcare", healthcare); ("housing", housing);
    ("emergency", emergency); ("seniors", seniors);
    ("research", research); ("innovation", innovation);
    ("homebuyer", homebuyer); ("financial_relief", financial_relief) ].

Definition applicationStatusEnum : list (string * ApplicationStatus) :=
  [ ("pending", pending); ("under_review", under_review);
    ("qualified", qualified); ("not_qualified", not_qualified);
    ("selected", selected); ("awarded", awarded); ("rejected", rejected) ].

Fixpoint enum_of_label {A : Type} (e : list (string * A)) (l : string) : option A :=
  match e with
  | [] => None
  | (l', a) :: e' => if (l' =? l)%string then Some a else enum_of_label e' l
  end.

Definition category_label (c : GrantCategory) : string :=
  match c with
  | education => "education" | business => "business"
  | healthcare => "healthcare" | housing => "housing"
  | emergency => "emergency" | seniors => "seniors"
  | research => "research" | innovation => "innovation"
  | homebuyer => "homebuyer" | financial_relief => "financial_relief"
  end.

Definition category_eqb (a b : GrantCategory) : bool :=
  (category_label a =? category_label b)%string.

Definition is_selected (s : option ApplicationStatus) : bool :=
  match s with Some selected => true | _ => false end.

Module User.
Record t : Type := mk {
  id : string;
  email : option string;
  firstName : option string;
  lastName : option string;
  profileImageUrl : option string;
  country : option string;
  phone : option string;
  createdAt : option Z;
  updatedAt : option Z }.
End User.

Module Country.
Record t : Type := mk {
  id : string;
  name : string;
  code : string;
  currency : string;
  flag : option string;
  active : option bool }.
End Country.

Module InsertCountry.
Record t : Type := mk {
  id : string;
  name : string;
  code : string;
  currency : string;
  flag : option string;
  active : Col bool }.
End InsertCountry.

Module Grant.
Record t : Type := mk {
  id : string;
  title : string;
  description : string;
  category : GrantCategory;
  countryId : string;
  minAmount : option Z;
  maxAmount : option Z;
  amount : option Z;
  currency : string;
  amountType : option string;
  totalSpots : Z;
  availableSpots : Z;
  deadline : option Z;
  status : option GrantStatus;
  eligibilityCriteria : option string;
  applicationInstructions : option string;
  createdAt : option Z;
  updatedAt : option Z }.
End Grant.

Module InsertGrant.
Record t : Type := mk {
  title : string;
  description : string;
  category : GrantCategory;
  countryId : string;
  minAmount : option Z;
  maxAmount : option Z;
  amount : option Z;
  currency : string;
  amountType : Col string;
  totalSpots : Z;
  availableSpots : Z;
  deadline : option Z;
  status : Col GrantStatus;
  eligibilityCriteria : option string;
  applicationInstructions : option string }.
End InsertGrant.

Module Application.
Record t : Type := mk {
  id : string;
  grantId : string;
  userId : string;
  fullName : string;
  email : string;
  phone : string;
  address : string;
  reasonForApplying : string;
  referralName : option string;
  hasReferral : option bool;
  autoQualified : option bool;
  status : option ApplicationStatus;
  submittedAt : option Z;
  reviewedAt : option Z;
  selectedAt : option Z;
  notes : option string }.
End Application.

Module InsertApplication.
Record t : Type := mk {
  grantId : string;
  userId : string;
  fullName : string;
  email : string;
  phone : string;
  address : string;
  reasonForApplying : string;
  referralName : option string;
  hasReferral : Col bool;
  autoQualified : Col bool;
  status : Col ApplicationStatus;
  notes : option string }.
End InsertApplication.

Module ContactMessage.
Record t : Type := mk {
  id : string;
  firstName : string;
  lastName : string;
  email : string;
  subject : string;
  message : string;
  status : option string;
  createdAt : option Z;
  respondedAt : option Z }.
End ContactMessage.

Module GrantAward.
Record t : Type := mk {
  id : string;
  grantId : string;
  applicationId : string;
  userId : string;
  amount : Z;
  currency : string;
  awardedAt : option Z;
  disbursedAt : option Z;
  notes : option string }.
End GrantAward.

(** [GrantWithCountry]: a grant and the country row joined to it. *)
Record GrantWithCountry : Type := mkGrantWithCountry {
  gwc_grant : Grant.t;
  gwc_countries : option Country.t }.

(** [ApplicationWithDetails]: the application, its grant and its user as the
    left joins found them. *)
Record ApplicationWithDetails : Type := mkApplicationWithDetails {
  awd_application : Application.t;
  awd_grant : option Grant.t;
  awd_countries : option Country.t;
  awd_user : option User.t }.

(* ===================================================================== *)
(** ** The world: database, oracles, and the effect monad *)
(* ===================================================================== *)

Record Db : Type := mkDb {
  users : list User.t;
  countries : list Country.t;
  grants : list Grant.t;
  applications : list Application.t;
  contactMessages : list ContactMessage.t;
  grantAwards : list GrantAward.t }.

(** The calls made on the storage facade, most recent first. *)
Inductive Call : Type :=
  | Call_getAllCountries
  | Call_createCountry (c : InsertCountry.t)
  | Call_getAllGrants
  | Call_getGrantsByCountry (countryId : string)
  | Call_getGrantsByCategory (category : string)
  | Call_createGrant (g : InsertGrant.t)
  | Call_getApplicationById (id : string)
  | Call_createApplication (a : InsertApplication.t)
  | Call_checkUserHasAppliedToGrant (userId grantId : string)
  | Call_checkReferralExists (referralName : string)
  | Call_getGrantStats.

Record World : Type := mkWorld {
  db : Db;
  calls : list Call;
  uuids : nat -> string;
  uuid_pos : nat;
  randoms : nat -> Q;
  random_pos : nat;
  clock : Z }.

Inductive Exn : Type :=
  | ZodError (issues : list string)
  | DbError (constraint : string)
  | TypeError.

Inductive Outcome (A : Type) : Type :=
  | Ok (a : A)
  | Throw (e : Exn).
Arguments Ok {A} a.
Arguments Throw {A} e.

Definition M (A : Type) : Type := World -> Outcome A * World.

Definition ret {A : Type} (a : A) : M A := fun w => (Ok a, w).

Definition bind {A B : Type} (m : M A) (k : A -> M B) : M B :=
  fun w =>
    match m w with
    | (Ok a, w') => k a w'
    | (Throw e, w') => (Throw e, w')
    end.

Definition throw {A : Type} (e : Exn) : M A := fun w => (Throw e, w).

(** [try { m } catch (e) { h e }]: what [m] did to the world stays done. *)
Definition try_catch {A : Type} (m : M A) (h : Exn -> M A) : M A :=
  fun w =>
    match m w with
    | (Ok a, w') => (Ok a, w')
    | (Throw e, w') => h e w'
    end.

Declare Scope monad_scope.
Delimit Scope monad_scope with monad.
Notation "x <- m ;; k" := (bind m (fun x => k))
  (at level 61, m at next level, right associativity) : monad_scope.
Notation "m ;; k" := (bind m (fun _ => k))
  (at level 61, right associativity) : monad_scope.
Local Open Scope monad_scope.

Definition select_db : M Db := fun w => (Ok (db w), w).

Definition update_db (f : Db -> Db) : M unit :=
  fun w => (Ok tt, mkWorld (f (db w)) (calls w) (uuids w) (uuid_pos w)
                           (randoms w) (random_pos w) (clock w)).

Definition called (c : Call) : M unit :=
  fun w => (Ok tt, mkWorld (db w) (c :: calls w) (uuids w) (uuid_pos w)
                           (randoms w) (random_pos w) (clock w)).

(** [gen_random_uuid()] *)
Definition gen_random_uuid : M string :=
  fun w => (Ok (uuids w (uuid_pos w)),
            mkWorld (db w) (calls w) (uuids w) (S (uuid_pos w))
                    (randoms w) (random_pos w) (clock w)).

(** [Math.random()] *)
Definition Math_random : M Q :=
  fun w => (Ok (randoms w (random_pos w)),
            mkWorld (db w) (calls w) (uuids w) (uuid_pos w)
                    (randoms w) (S (random_pos w)) (clock w)).

(** [now()] *)
Definition now : M Z := fun w => (Ok (clock w), w).

(** [for (const x of l) { await f(x) }] *)
Fixpoint for_of {A : Type} (l : list A) (f : A -> M unit) : M unit :=
  match l with
  | [] => ret tt
  | x :: l' => f x ;; for_of l' f
  end.

(** A violated constraint aborts the statement. *)
Definition check (ok : bool) (constraint : string) : M unit :=
  if ok then ret tt else throw (DbError constraint).

(* ===================================================================== *)
(** ** Query building blocks *)
(* ===================================================================== *)

(** [a LEFT JOIN b ON on]: every left row once per matching right row, and
    once with NULLs when nothing matches. *)
Definition left_join {A B : Type} (on : A -> B -> bool)
    (l : list A) (r : list B) : list (A * option B) :=
  flat_map (fun a =>
              match filter (on a) r with
              | [] => [(a, None)]
              | ms => map (fun b => (a, Some b)) ms
              end) l.

Fixpoint insert_by {A : Type} (le : A -> A -> bool) (x : A) (l : list A) : list A :=
  match l with
  | [] => [x]
  | y :: l' => if le x y then x :: l else y :: insert_by le x l'
  end.

(** [ORDER BY]: a stable sort. *)
Definition order_by {A : Type} (le : A -> A -> bool) (l : list A) : list A :=
  fold_right (insert_by le) [] l.

(** [DESC] on a nullable timestamp: NULLs first, then the latest. *)
Definition desc (a b : option Z) : bool :=
  match a, b with
  | None, _ => true
  | Some _, None => false
  | Some x, Some y => y <=? x
  end.

(** [count()]: the number of rows, as a JavaScript number. *)
Definition count {A : Type} (rows : list A) : Z := Z.of_nat (List.length rows).

(** [SUM(amount)], NULL over no rows. *)
Definition SUM (xs : list Z) : option Z :=
  match xs with
  | [] => None
  | _ => Some (fold_right Z.add 0 xs)
  end.

Definition COALESCE (x : option Z) (d : Z) : Z :=
  match x with Some v => v | None => d end.

(** [varchar(n)]: at most [n] characters. *)
Definition varchar_fits (n : nat) (s : string) : bool :=
  (Pg.char_length s <=? n)%nat.

(** [decimal(12,2)], in hundredths: below ten to the twelfth in size. *)
Definition decimal_fits (x : option Z) : bool :=
  match x with
  | None => true
  | Some v => Z.abs v <? 10 ^ 12
  end.

(** [integer]: 32 bits, signed. *)
Definition integer_fits (x : Z) : bool :=
  (- 2 ^ 31 <=? x) && (x <? 2 ^ 31).

Definition has_id {A : Type} (key : A -> string) (k : string) (rows : list A) : bool :=
  existsb (fun r => (key r =? k)%string) rows.

(* ===================================================================== *)
(** ** server/storage.ts: DatabaseStorage *)
(* ===================================================================== *)

Definition set_countries (cs : list Country.t) (d : Db) : Db :=
  mkDb (users d) cs (grants d) (applications d) (contactMessages d) (grantAwards d).

Definition set_grants (gs : list Grant.t) (d : Db) : Db :=
  mkDb (users d) (countries d) gs (applications d) (contactMessages d) (grantAwards d).

Definition set_applications (az : list Application.t) (d : Db) : Db :=
  mkDb (users d) (countries d) (grants d) az (contactMessages d) (grantAwards d).

Definition getAllCountries : M (list Country.t) :=
  called Call_getAllCountries ;;
  d <- select_db ;;
  ret (order_by (fun a b => String.leb (Country.name a) (Country.name b)) (countries d)).

(** The row an insert into [countries] makes: [active] defaults to true. *)
Definition new_country (country : InsertCountry.t) : Country.t :=
  Country.mk (InsertCountry.id country) (InsertCountry.name country)
             (InsertCountry.code country) (InsertCountry.currency country)
             (InsertCountry.flag country)
             (or_default true (InsertCountry.active country)).

Definition createCountry (country : InsertCountry.t) : M Country.t :=
  called (Call_createCountry country) ;;
  d <- select_db ;;
  let newCountry := new_country country in
  check (varchar_fits 3 (Country.code newCountry)) "countries.code varchar(3)" ;;
  check (varchar_fits 3 (Country.currency newCountry)) "countries.currency varchar(3)" ;;
  check (negb (has_id Country.id (Country.id newCountry) (countries d))) "countries_pkey" ;;
  check (negb (has_id Country.code (Country.code newCountry) (countries d)))
        "countries_code_unique" ;;
  update_db (set_countries (countries d ++ [newCountry])) ;;
  ret newCountry.

Definition with_country (row : Grant.t * option Country.t) : GrantWithCountry :=
  mkGrantWithCountry (fst row) (snd row).

Definition grants_join_countries (d : Db) : list (Grant.t * option Country.t) :=
  left_join (fun g c => (Grant.countryId g =? Country.id c)%string) (grants d) (countries d).

Definition by_createdAt_desc (a b : Grant.t * option Country.t) : bool :=
  desc (Grant.createdAt (fst a)) (Grant.createdAt (fst b)).

Definition getAllGrants : M (list GrantWithCountry) :=
  called Call_getAllGrants ;;
  d <- select_db ;;
  let results := order_by by_createdAt_desc (grants_join_countries d) in
  ret (map with_country results).

Definition getGrantsByCountry (countryId : string) : M (list GrantWithCountry) :=
  called (Call_getGrantsByCountry countryId) ;;
  d <- select_db ;;
  let results :=
    order_by by_createdAt_desc
      (filter (fun r => (Grant.countryId (fst r) =? countryId)%string)
              (grants_join_countries d)) in
  ret (map with_country results).

(** The parameter is compared with an enum column: a text that is no label
    of [grant_category] is rejected by the database. *)
Definition getGrantsByCategory (category : string) : M (list GrantWithCountry) :=
  called (Call_getGrantsByCategory category) ;;
  d <- select_db ;;
  match enum_of_label grantCategoryEnum category with
  | None => throw (DbError "invalid input value for enum grant_category")
  | Some c =>
      let results :=
        order_by by_createdAt_desc
          (filter (fun r => category_eqb (Grant.category (fst r)) c)
                  (grants_join_countries d)) in
      ret (map with_country results)
  end.

(** The row an insert into [grants] makes: the id is generated,
    [amountType] defaults to 'flexible', [status] to 'active', and both
    timestamps to the time of the insert. *)
Definition new_grant (grant : InsertGrant.t) (id : string) (t : Z) : Grant.t :=
  Grant.mk id (InsertGrant.title grant) (InsertGrant.description grant)
           (InsertGrant.category grant) (InsertGrant.countryId grant)
           (InsertGrant.minAmount grant) (InsertGrant.maxAmount grant)
           (InsertGrant.amount grant) (InsertGrant.currency grant)
           (or_default "flexible" (InsertGrant.amountType grant))
           (InsertGrant.totalSpots grant) (InsertGrant.availableSpots grant)
           (InsertGrant.deadline grant)
           (or_default active (InsertGrant.status grant))
           (InsertGrant.eligibilityCriteria grant)
           (InsertGrant.applicationInstructions grant)
           (Some t) (Some t).

Definition createGrant (grant : InsertGrant.t) : M Grant.t :=
  called (Call_createGrant grant) ;;
  id <- gen_random_uuid ;;
  t <- now ;;
  d <- select_db ;;
  let newGrant := new_grant grant id t in
  check (varchar_fits 3 (Grant.currency newGrant)) "grants.currency varchar(3)" ;;
  check (decimal_fits (Grant.minAmount newGrant)
         && decimal_fits (Grant.maxAmount newGrant)
         && decimal_fits (Grant.amount newGrant)) "grants decimal(12,2)" ;;
  check (integer_fits (Grant.totalSpots newGrant)
         && integer_fits (Grant.availableSpots newGrant)) "grants integer" ;;
  check (negb (has_id Grant.id id (grants d))) "grants_pkey" ;;
  check (has_id Country.id (Grant.countryId newGrant) (countries d))
        "grants_country_id_countries_id_fk" ;;
  update_db (set_grants (grants d ++ [newGrant])) ;;
  ret newGrant.

Definition find_by {A : Type} (key : A -> string) (k : string) (rows : list A) : option A :=
  find (fun r => (key r =? k)%string) rows.

(** The first row of applications joined to grants, countries and users. *)
Definition getApplicationById (id : string) : M (option ApplicationWithDetails) :=
  called (Call_getApplicationById id) ;;
  d <- select_db ;;
  match find_by Application.id id (applications d) with
  | None => ret None
  | Some a =>
      let g := find_by Grant.id (Application.grantId a) (grants d) in
      let c := match g with
               | None => None
               | Some g' => find_by Country.id (Grant.countryId g') (countries d)
               end in
      let u := find_by User.id (Application.userId a) (users d) in
      ret (Some (mkApplicationWithDetails a g c u))
  end.

(** The row an insert into [applications] makes: the id is generated,
    the flags default to false, [status] to 'pending', and [submittedAt] to
    the time of the insert. *)
Definition new_application (application : InsertApplication.t) (id : string) (t : Z)
  : Application.t :=
  Application.mk id (InsertApplication.grantId application)
    (InsertApplication.userId application)
    (InsertApplication.fullName application)
    (InsertApplication.email application)
    (InsertApplication.phone application)
    (InsertApplication.address application)
    (InsertApplication.reasonForApplying application)
    (InsertApplication.referralName application)
    (or_default false (InsertApplication.hasReferral application))
    (or_default false (InsertApplication.autoQualified application))
    (or_default pending (InsertApplication.status application))
    (Some t) None None
    (InsertApplication.notes application).

(** The texts of an insert into [applications] can be stored. *)
Definition storable_application (application : InsertApplication.t) : bool :=
  Pg.storable (InsertApplication.grantId application)
  && Pg.storable (InsertApplication.userId application)
  && Pg.storable (InsertApplication.fullName application)
  && Pg.storable (InsertApplication.email application)
  && Pg.storable (InsertApplication.phone application)
  && Pg.storable (InsertApplication.address application)
  && Pg.storable (InsertApplication.reasonForApplying application)
  && Pg.storable_or_null (InsertApplication.referralName application)
  && Pg.storable_or_null (InsertApplication.notes application).

Definition createApplication (application : InsertApplication.t) : M Application.t :=
  called (Call_createApplication application) ;;
  check (storable_application application) "invalid byte sequence for encoding UTF8" ;;
  id <- gen_random_uuid ;;
  t <- now ;;
  d <- select_db ;;
  let newApplication := new_application application id t in
  check (negb (has_id Application.id id (applications d))) "applications_pkey" ;;
  check (has_id Grant.id (Application.grantId newApplication) (grants d))
        "applications_grant_id_grants_id_fk" ;;
  check (has_id User.id (Application.userId newApplication) (users d))
        "applications_user_id_users_id_fk" ;;
  update_db (set_applications (applications d ++ [newApplication])) ;;
  ret newApplication.

(** The applications [WHERE user_id = userId AND grant_id = grantId]. *)
Definition applications_of (userId grantId : string) (d : Db) : list Application.t :=
  filter (fun a => (Application.userId a =? userId)%string
                   && (Application.grantId a =? grantId)%string)
         (applications d).

Definition checkUserHasAppliedToGrant (userId grantId : string) : M bool :=
  called (Call_checkUserHasAppliedToGrant userId grantId) ;;
  d <- select_db ;;
  let result := count (applications_of userId grantId d) in
  ret (0 <? result).

(** The rows of [grant_awards LEFT JOIN users]: an award and its recipient. *)
Definition awards_join_users (d : Db) : list (GrantAward.t * option User.t) :=
  left_join (fun a u => (GrantAward.userId a =? User.id u)%string)
            (grantAwards d) (users d).

(** [CONCAT(first_name, ' ', last_name)] of a joined row. *)
Definition recipient_name (u : option User.t) : string :=
  match u with
  | None => Pg.CONCAT [None; Some " "; None]
  | Some u' => Pg.CONCAT [User.firstName u'; Some " "; User.lastName u']
  end.

(** The joined rows [WHERE CONCAT(...) ILIKE '%' + referralName + '%']. *)
Definition recipients_like (referralName : string) (d : Db)
  : list (GrantAward.t * option User.t) :=
  filter (fun r => Pg.ILIKE (recipient_name (snd r)) ("%" ++ referralName ++ "%"))
         (awards_join_users d).

Definition checkReferralExists (referralName : string) : M bool :=
  called (Call_checkReferralExists referralName) ;;
  d <- select_db ;;
  let result := count (recipients_like referralName d) in
  ret (0 <? result).

(** [WHERE active = true]: NULL does not count. *)
Definition is_active (c : Country.t) : bool :=
  match Country.active c with
  | Some true => true
  | _ => false
  end.

Record GrantStats : Type := mkGrantStats {
  totalGrantsDistributed : Z;
  totalRecipients : Z;
  totalCountries : Z;
  successRate : Z }.

Definition getGrantStats : M GrantStats :=
  called Call_getGrantStats ;;
  d <- select_db ;;
  let grantsDistributed := COALESCE (SUM (map GrantAward.amount (grantAwards d))) 0 in
  let recipients := count (grantAwards d) in
  let countriesCount := count (filter is_active (countries d)) in
  let totalApplications := count (applications d) in
  let selectedApplications :=
    count (filter (fun a => is_selected (Application.status a)) (applications d)) in
  let successRate :=
    if 0 <? totalApplications
    then F64.mul (F64.div (F64.of_Z selectedApplications) (F64.of_Z totalApplications))
                 (F64.of_Z 100)
    else F64.of_Z 0 in
  ret (mkGrantStats grantsDistributed recipients countriesCount
                    (F64.Math_round successRate)).

(* ===================================================================== *)
(** ** Request validation: [insertApplicationSchema] *)
(* ===================================================================== *)

Definition z_string (v : Js.value) : option string :=
  match v with Js.Str s => Some s | _ => None end.

(** A nullable column: the key may be missing, null, or a string. *)
Definition z_string_nullish (v : Js.value) : option (option string) :=
  match v with
  | Js.Undefined | Js.Null => Some None
  | Js.Str s => Some (Some s)
  | _ => None
  end.

Definition z_boolean_nullish (v : Js.value) : option (Col bool) :=
  match v with
  | Js.Undefined => Some Omitted
  | Js.Null => Some (Given None)
  | Js.Boolean b => Some (Given (Some b))
  | _ => None
  end.

Definition z_enum_nullish {A : Type} (e : list (string * A)) (v : Js.value)
  : option (Col A) :=
  match v with
  | Js.Undefined => Some Omitted
  | Js.Null => Some (Given None)
  | Js.Str s =>
      match enum_of_label e s with
      | Some a => Some (Given (Some a))
      | None => None
      end
  | _ => None
  end.

Definition issue {A : Type} (path : string) (parsed : option A) : list string :=
  match parsed with Some _ => [] | None => [path] end.

Definition parsed_or {A : Type} (d : A) (parsed : option A) : A :=
  match parsed with Some a => a | None => d end.

(** [insertApplicationSchema.parse(body)]: the columns of [applications]
    without [id], [submittedAt], [reviewedAt] and [selectedAt]; unknown keys
    are dropped.  The error lists the paths that failed. *)
Definition insertApplicationSchema_parse (body : Js.value)
  : Exn + InsertApplication.t :=
  match body with
  | Js.Object fields =>
      let f := fun k => Js.assoc k fields in
      let grantId := z_string (f "grantId") in
      let userId := z_string (f "userId") in
      let fullName := z_string (f "fullName") in
      let email := z_string (f "email") in
      let phone := z_string (f "phone") in
      let address := z_string (f "address") in
      let reasonForApplying := z_string (f "reasonForApplying") in
      let referralName := z_string_nullish (f "referralName") in
      let hasReferral := z_boolean_nullish (f "hasReferral") in
      let autoQualified := z_boolean_nullish (f "autoQualified") in
      let status := z_enum_nullish applicationStatusEnum (f "status") in
      let notes := z_string_nullish (f "notes") in
      match (issue "grantId" grantId ++ issue "userId" userId
             ++ issue "fullName" fullName ++ issue "email" email
             ++ issue "phone" phone ++ issue "address" address
             ++ issue "reasonForApplying" reasonForApplying
             ++ issue "referralName" referralName
             ++ issue "hasReferral" hasReferral
             ++ issue "autoQualified" autoQualified
             ++ issue "status" status ++ issue "notes" notes)%list with
      | [] =>
          inr (InsertApplication.mk
                 (parsed_or "" grantId) (parsed_or "" userId)
                 (parsed_or "" fullName) (parsed_or "" email)
                 (parsed_or "" phone) (parsed_or "" address)
                 (parsed_or "" reasonForApplying)
                 (parsed_or None referralName)
                 (parsed_or Omitted hasReferral)
                 (parsed_or Omitted autoQualified)
                 (parsed_or Omitted status)
                 (parsed_or None notes))
      | issues => inl (ZodError issues)
      end
  | _ => inl (ZodError [""])
  end.

Definition parse {A : Type} (r : Exn + A) : M A :=
  match r with
  | inl e => throw e
  | inr a => ret a
  end.

(* ===================================================================== *)
(** ** server/routes.ts: the handlers *)
(* ===================================================================== *)

Inductive Body : Type :=
  | Json_message (message : string)
  | Json_validation (message : string) (errors : list string)
  | Json_grants (grants : list GrantWithCountry)
  | Json_stats (stats : GrantStats)
  | Json_referral (exists_ autoQualified : bool)
  | Json_created (application : Application.t) (qualified : bool) (message : string)
  | Json_application (application : ApplicationWithDetails).

Record Response : Type := mkResponse {
  res_status : Z;
  res_body : Body }.

(** [res.json(b)] *)
Definition json (b : Body) : M Response := ret (mkResponse 200 b).

(** [res.status(n).json(b)] *)
Definition status_json (n : Z) (b : Body) : M Response := ret (mkResponse n b).

(** A query parameter, when present, is a string; it is truthy when it is
    not empty. *)
Definition truthy_param (p : option string) : bool :=
  match p with
  | None => false
  | Some s => Js.truthy_string s
  end.

Definition param_text (p : option string) : string :=
  match p with Some s => s | None => "" end.

(** [app.get('/api/grants')] *)
Definition GET_api_grants (country category : option string) : M Response :=
  try_catch
    (grants <- (if truthy_param country then getGrantsByCountry (param_text country)
                else if truthy_param category
                     then getGrantsByCategory (param_text category)
                     else getAllGrants) ;;
     json (Json_grants grants))
    (fun _ => status_json 500 (Json_message "Failed to fetch grants")).

(** [app.get('/api/stats')] *)
Definition GET_api_stats : M Response :=
  try_catch
    (stats <- getGrantStats ;;
     json (Json_stats stats))
    (fun _ => status_json 500 (Json_message "Failed to fetch statistics")).

(** [const { referralName } = req.body] *)
Definition destructure (body : Js.value) (k : string) : M Js.value :=
  match Js.get body k with
  | None => throw TypeError
  | Some v => ret v
  end.

(** [app.post('/api/check-referral')] *)
Definition POST_api_check_referral (body : Js.value) : M Response :=
  try_catch
    (referralName <- destructure body "referralName" ;;
     if negb (Js.truthy referralName) || negb (Js.is_string referralName)
     then status_json 400 (Json_message "Referral name is required")
     else
       exists_ <- checkReferralExists (parsed_or "" (z_string referralName)) ;;
       json (Json_referral exists_ exists_))
    (fun _ => status_json 500 (Json_message "Failed to check referral status")).

(** The literal [0.3]: the double nearest to three tenths. *)
Definition js_0_3 : Q := 5404319552844595 # 18014398509481984.

(** [a > b] on numbers. *)
Definition Qgtb (a b : Q) : bool := negb (Qle_bool a b).

(** [applicationData.referralName && applicationData.referralName.trim()] *)
Definition referral_given (referralName : option string) : bool :=
  match referralName with
  | None => false
  | Some s => Js.truthy_string s && Js.truthy_string (Js.trim s)
  end.

Definition qualification_message (autoQualified hasReferral : bool) : string :=
  if autoQualified
  then (if hasReferral
        then "Application submitted! You are automatically qualified due to your referral."
        else "Application submitted! You have been qualified for selection.")
  else "Application submitted. Unfortunately, you do not meet the current qualification criteria.".

(** [app.post('/api/applications')], behind [isAuthenticated]: [userId] is
    the subject of the session's claims. *)
Definition POST_api_applications (userId : string) (body : Js.value) : M Response :=
  try_catch
    (applicationData <- parse (insertApplicationSchema_parse body) ;;
     hasApplied <- checkUserHasAppliedToGrant userId
                     (InsertApplication.grantId applicationData) ;;
     if hasApplied
     then status_json 400 (Json_message "You have already applied to this grant")
     else
       hasReferral <-
         (if referral_given (InsertApplication.referralName applicationData)
          then checkReferralExists
                 (parsed_or "" (InsertApplication.referralName applicationData))
          else ret false) ;;
       autoQualified <-
         (if negb hasReferral
          then value <- Math_random ;; ret (Qgtb value js_0_3)
          else ret hasReferral) ;;
       application <-
         createApplication
           (InsertApplication.mk
              (InsertApplication.grantId applicationData)
              userId
              (InsertApplication.fullName applicationData)
              (InsertApplication.email applicationData)
              (InsertApplication.phone applicationData)
              (InsertApplication.address applicationData)
              (InsertApplication.reasonForApplying applicationData)
              (InsertApplication.referralName applicationData)
              (Given (Some hasReferral))
              (Given (Some autoQualified))
              (Given (Some (if autoQualified then qualified else not_qualified)))
              (InsertApplication.notes applicationData)) ;;
       status_json 201
         (Json_created application autoQualified
            (qualification_message autoQualified hasReferral)))
    (fun error =>
       match error with
       | ZodError errors => status_json 400 (Json_validation "Validation error" errors)
       | _ => status_json 500 (Json_message "Failed to submit application")
       end).

(** [app.get('/api/applications/:id')], behind [isAuthenticated]. *)
Definition GET_api_applications_id (userId id : string) : M Response :=
  try_catch
    (application <- getApplicationById id ;;
     match application with
     | None => status_json 404 (Json_message "Application not found")
     | Some a =>
         if negb (Application.userId (awd_application a) =? userId)%string
         then status_json 403 (Json_message "Access denied")
         else json (Json_application a)
     end)
    (fun _ => status_json 500 (Json_message "Failed to fetch application")).

(* ===================================================================== *)
(** ** server/routes.ts: seeding at start-up *)
(* ===================================================================== *)

Definition defaultCountries : list InsertCountry.t :=
  [ InsertCountry.mk "usa" "United States" "USA" "USD" (Some "ðŸ‡ºðŸ‡¸") (Given (Some true));
    InsertCountry.mk "uk" "United Kingdom" "GBR" "GBP" (Some "ðŸ‡¬ðŸ‡§") (Given (Some true));
    InsertCountry.mk "canada" "Canada" "CAN" "CAD" (Some "ðŸ‡¨ðŸ‡¦") (Given (Some true));
    InsertCountry.mk "australia" "Australia" "AUS" "AUD" (Some "ðŸ‡¦ðŸ‡º") (Given (Some true));
    InsertCountry.mk "newzealand" "New Zealand" "NZL" "NZD" (Some "ðŸ‡³ðŸ‡¿") (Given (Some true));
    InsertCountry.mk "germany" "Germany" "DEU" "EUR" (Some "ðŸ‡©ðŸ‡ª") (Given (Some true));
    InsertCountry.mk "france" "France" "FRA" "EUR" (Some "ðŸ‡«ðŸ‡·") (Given (Some true));
    InsertCountry.mk "japan" "Japan" "JPN" "JPY" (Some "ðŸ‡¯ðŸ‡µ") (Given (Some true));
    InsertCountry.mk "southkorea" "South Korea" "KOR" "KRW" (Some "ðŸ‡°ðŸ‡·") (Given (Some true));
    InsertCountry.mk "singapore" "Singapore" "SGP" "SGD" (Some "ðŸ‡¸ðŸ‡¬") (Given (Some true));
    InsertCountry.mk "uae" "United Arab Emirates" "ARE" "AED" (Some "ðŸ‡¦ðŸ‡ª") (Given (Some true));
    InsertCountry.mk "netherlands" "Netherlands" "NLD" "EUR" (Some "ðŸ‡³ðŸ‡±") (Given (Some true));
    InsertCountry.mk "sweden" "Sweden" "SWE" "SEK" (Some "ðŸ‡¸ðŸ‡ª") (Given (Some true));
    InsertCountry.mk "norway" "Norway" "NOR" "NOK" (Some "ðŸ‡³ðŸ‡´") (Given (Some true)) ].

Definition sampleGrants : list InsertGrant.t :=
  [ InsertGrant.mk
      "Senior Citizens Support Grant"
      "Comprehensive support for seniors covering healthcare, housing modifications, and daily living assistance."
      seniors "usa"
      (Some 1500000) (Some 3500000) None "USD"
      (Given (Some "range")) 750 750 (Some 1751241600000)
      (Given (Some active))
      (Some "Age 65 or older with demonstrated need for assistance")
      (Some "Submit age verification, medical records, and needs assessment");
    InsertGrant.mk
      "Emergency Financial Relief Grant"
      "Immediate financial assistance for individuals and families facing unexpected hardships."
      emergency "uk"
      (Some 500000) (Some 3500000) None "GBP"
      (Given (Some "range")) 9999 9999 None
      (Given (Some active))
      (Some "Demonstrated financial hardship due to unexpected circumstances")
      (Some "Submit hardship documentation and proof of expenses");
    InsertGrant.mk
      "First Home Buyer Assistance Grant"
      "Supporting first-time home buyers with down payment assistance and closing cost relief."
      homebuyer "australia"
      (Some 2000000) (Some 6000000) None "AUD"
      (Given (Some "range")) 1000 1000 (Some 1743379200000)
      (Given (Some active))
      (Some "First-time home buyers with household income under $150,000")
      (Some "Submit income verification, pre-approval letter, and property details");
    InsertGrant.mk
      "Healthcare Innovation Research Grant"
      "Funding breakthrough medical research and healthcare technology development initiatives."
      research "canada"
      (Some 5000000) (Some 20000000) None "CAD"
      (Given (Some "range")) 150 150 (Some 1740700800000)
      (Given (Some active))
      (Some "Healthcare professionals or researchers with institutional affiliation")
      (Some "Submit research proposal, ethics approval, and team credentials");
    InsertGrant.mk
      "Small Business Innovation Grant"
      "Empowering entrepreneurs and small business owners to scale their operations and create jobs."
      business "germany"
      (Some 1000000) (Some 5000000) None "EUR"
      (Given (Some "range")) 200 200 (Some 1736899200000)
      (Given (Some active))
      (Some "Small business with less than 50 employees")
      (Some "Submit business plan, financial statements, and growth projections");
    InsertGrant.mk
      "Higher Education Excellence Grant"
      "Supporting outstanding students pursuing advanced degrees in STEM fields across universities."
      education "france"
      (Some 2500000) (Some 10000000) None "EUR"
      (Given (Some "range")) 500 500 (Some 1767139200000)
      (Given (Some active))
      (Some "Must be enrolled in a STEM program at an accredited university")
      (Some "Submit transcripts, research proposal, and recommendation letters");
    InsertGrant.mk
      "Community Housing Development Grant"
      "Supporting community-based housing projects and affordable rental developments."
      housing "netherlands"
      (Some 10000000) (Some 50000000) None "EUR"
      (Given (Some "range")) 50 50 (Some 1748649600000)
      (Given (Some active))
      (Some "Non-profit organizations and community development entities")
      (Some "Submit project proposal, community impact assessment, and budget");
    InsertGrant.mk
      "Technology Innovation Startup Grant"
      "Funding for innovative technology startups and digital transformation initiatives."
      innovation "singapore"
      (Some 2000000) (Some 15000000) None "SGD"
      (Given (Some "range")) 100 100 (Some 1745971200000)
      (Given (Some active))
      (Some "Technology startups less than 3 years old")
      (Some "Submit business plan, technology demo, and market analysis") ].

Definition initializeCountries : M unit :=
  try_catch
    (countries <- getAllCountries ;;
     if (List.length countries =? 0)%nat
     then for_of defaultCountries (fun country => createCountry country ;; ret tt)
     else ret tt)
    (fun _ => ret tt).

Definition initializeGrants : M unit :=
  try_catch
    (grants <- getAllGrants ;;
     if (List.length grants =? 0)%nat
     then for_of sampleGrants (fun grant => createGrant grant ;; ret tt)
     else ret tt)
    (fun _ => ret tt).

(** The seeding steps of [registerRoutes], in their order. *)
Definition bootstrap : M unit :=
  initializeCountries ;; initializeGrants.

(* ===================================================================== *)
(** ** A small world to run the handlers in *)
(* ===================================================================== *)

Definition empty_db : Db := mkDb [] [] [] [] [] [].

(** Identifiers 0, 1, 2, ... written in unary, so that all differ. *)
Fixpoint tally (n : nat) : string :=
  match n with
  | O => "id"
  | S n' => String "i" (tally n')
  end.

(** A world before start-up: nothing stored, every draw is one half. *)
Definition fresh_world : World :=
  mkWorld empty_db [] tally 0 (fun _ => 1 # 2) 0 1700000000000.

(** The world after start-up. *)
Definition seeded_world : World := snd (bootstrap fresh_world).

Definition jane : User.t :=
  User.mk "jane-sub" (Some "jane@example.org") (Some "Jane") (Some "Smith")
          None None None None None.

Definition omar : User.t :=
  User.mk "omar-sub" None (Some "Omar") (Some "Haddad") None None None None None.

Definition janes_application : Application.t :=
  Application.mk "app-1" "id" "jane-sub" "Jane Smith" "jane@example.org"
                 "555-0100" "1 Main Street" "Retirement support" None
                 (Some false) (Some true) (Some selected)
                 (Some 1700000000500) None None None.

Definition janes_award : GrantAward.t :=
  GrantAward.mk "award-1" "id" "app-1" "jane-sub" 2500000 "USD"
                (Some 1700000001000) None None.

(** Later: two users are known, Jane has applied to the first grant, was
    selected and holds an award. *)
Definition running_world : World :=
  mkWorld (mkDb [jane; omar] (countries (db seeded_world)) (grants (db seeded_world))
                [janes_application] [] [janes_award])
          [] tally 8 (fun _ => 1 # 2) 0 1700000002000.

(** What Omar posts to apply to the first grant, naming a referral. *)
Definition omars_body (referralName : Js.value) : Js.value :=
  Js.Object [ ("grantId", Js.Str "id"); ("userId", Js.Str "omar-sub");
              ("fullName", Js.Str "Omar Haddad"); ("email", Js.Str "omar@example.org");
              ("phone", Js.Str "555-0101"); ("address", Js.Str "2 Side Street");
              ("reasonForApplying", Js.Str "Home repairs");
              ("referralName", referralName) ].

(** A database whose country seeding stopped after three inserts, before
    any grant was stored. *)
Definition partly_seeded_world : World :=
  mkWorld (mkDb [] (map new_country (firstn 3 defaultCountries)) [] [] [] [])
          [] tally 0 (fun _ => 1 # 2) 0 1700000000000.

(* ===================================================================== *)
(** ** Vocabulary of the statements *)
(* ===================================================================== *)

(** *** Worlds *)

(** The world after a facade call that only reads: the call is on record,
    nothing else has changed. *)
Definition after_call (c : Call) (w : World) : World := snd (called c w).

(** *** Submissions *)

(** The row a submission stores: the validated fields, the session's user,
    the decision, a generated id and the time of the insert. *)
Definition submitted_row (userId : string) (data : InsertApplication.t)
    (hasReferral autoQualified : bool) (w : World) : Application.t :=
  Application.mk (uuids w (uuid_pos w))
    (InsertApplication.grantId data) userId
    (InsertApplication.fullName data) (InsertApplication.email data)
    (InsertApplication.phone data) (InsertApplication.address data)
    (InsertApplication.reasonForApplying data)
    (InsertApplication.referralName data)
    (Some hasReferral) (Some autoQualified)
    (Some (if autoQualified then qualified else not_qualified))
    (Some (clock w)) None None
    (InsertApplication.notes data).

(** Whether the handler consults the referral lookup and it finds a row. *)
Definition referral_found (data : InsertApplication.t) (w : World) : bool :=
  referral_given (InsertApplication.referralName data)
  && (0 <? count (recipients_like (parsed_or "" (InsertApplication.referralName data))
                                  (db w))).

(** The texts a submission stores have no U+0000 in them. *)
Definition storable_submission (userId : string) (data : InsertApplication.t) : bool :=
  Pg.storable (InsertApplication.grantId data)
  && Pg.storable userId
  && Pg.storable (InsertApplication.fullName data)
  && Pg.storable (InsertApplication.email data)
  && Pg.storable (InsertApplication.phone data)
  && Pg.storable (InsertApplication.address data)
  && Pg.storable (InsertApplication.reasonForApplying data)
  && Pg.storable_or_null (InsertApplication.referralName data)
  && Pg.storable_or_null (InsertApplication.notes data).

(** The constraints the insert of a submission must pass: the texts can be
    stored, the generated id is new, the grant exists, the user exists. *)
Definition insertable (userId : string) (data : InsertApplication.t) (w : World) : bool :=
  storable_submission userId data
  && negb (has_id Application.id (uuids w (uuid_pos w)) (applications (db w)))
  && has_id Grant.id (InsertApplication.grantId data) (grants (db w))
  && has_id User.id userId (users (db w)).

(** *** Text *)

(** [needle] occurs in [hay]. *)
Definition contains (hay needle : list ascii) : Prop :=
  exists pre post, hay = (pre ++ needle ++ post)%list.

(** [needle] occurs in [hay] when case is ignored. *)
Definition contains_ci (hay needle : string) : Prop :=
  contains (Pg.lower (list_ascii_of_string hay)) (Pg.lower (list_ascii_of_string needle)).

(** A character that LIKE reads as itself. *)
Definition ordinary (c : ascii) : Prop :=
  c <> "%"%char /\ c <> "_"%char /\ c <> "\"%char.


(** A text without backslash, the escape character of LIKE. *)
Definition unescaped (s : string) : Prop :=
  Forall (fun c => c <> "\"%char) (list_ascii_of_string s).




(** A capital letter of ASCII. *)
Definition is_capital (c : ascii) : bool :=
  ((65 <=? nat_of_ascii c) && (nat_of_ascii c <=? 90))%nat.

(** The same character, or the capital and the small form of one letter
    of ASCII. *)
Definition same_letter (c d : ascii) : bool :=
  Ascii.eqb c d
  || (is_capital c && (nat_of_ascii d =? nat_of_ascii c + 32)%nat)
  || (is_capital d && (nat_of_ascii c =? nat_of_ascii d + 32)%nat).

(** [needle] is a prefix of [hay], the case of ASCII letters aside. *)
Fixpoint starts_with_ci (needle hay : list ascii) : bool :=
  match needle, hay with
  | [], _ => true
  | _ :: _, [] => false
  | c :: needle', d :: hay' => same_letter c d && starts_with_ci needle' hay'
  end.

Fixpoint includes_ci (hay needle : list ascii) : bool :=
  starts_with_ci needle hay
  || match hay with
     | [] => false
     | _ :: hay' => includes_ci hay' needle
     end.

(** [needle] occurs in [hay], the case of ASCII letters aside. *)
Definition occurs_ci (hay needle : string) : bool :=
  includes_ci (list_ascii_of_string hay) (list_ascii_of_string needle).

(** First name, a space, last name; a NULL part reads as empty. *)
Definition full_name (u : User.t) : string :=
  match User.firstName u with Some f => f | None => "" end
  ++ " "
  ++ match User.lastName u with Some l => l | None => "" end.

(** The names the referral lookup searches: the full name of the user of
    each award; an award whose user is not stored is searched as a single
    space. *)
Definition searched_name (d : Db) (s : string) : Prop :=
  exists award,
    In award (grantAwards d)
    /\ ((exists u, In u (users d) /\ User.id u = GrantAward.userId award
                   /\ s = full_name u)
        \/ ((forall u, In u (users d) -> User.id u <> GrantAward.userId award)
            /\ s = " ")).

(** *** Seeding *)

(** The constraints an insert into [grants] must pass. *)
Definition grant_checks (g : InsertGrant.t) (id : string) (d : Db) : bool :=
  varchar_fits 3 (InsertGrant.currency g)
  && (decimal_fits (InsertGrant.minAmount g)
      && decimal_fits (InsertGrant.maxAmount g)
      && decimal_fits (InsertGrant.amount g))
  && (integer_fits (InsertGrant.totalSpots g)
      && integer_fits (InsertGrant.availableSpots g))
  && negb (has_id Grant.id id (grants d))
  && has_id Country.id (InsertGrant.countryId g) (countries d).

(** The world after [createGrant]: the row is appended when the constraints
    hold; an id is used up either way. *)
Definition after_createGrant (g : InsertGrant.t) (w : World) : World :=
  let id := uuids w (uuid_pos w) in
  mkWorld (if grant_checks g id (db w)
           then set_grants (grants (db w) ++ [new_grant g id (clock w)])%list (db w)
           else db w)
          (Call_createGrant g :: calls w) (uuids w) (S (uuid_pos w))
          (randoms w) (random_pos w) (clock w).

(** The world after the loop over the sample grants: it stops at the first
    insert that fails. *)
Fixpoint after_seeding (l : list InsertGrant.t) (w : World) : World :=
  match l with
  | [] => w
  | g :: l' =>
      if grant_checks g (uuids w (uuid_pos w)) (db w)
      then after_seeding l' (after_createGrant g w)
      else after_createGrant g w
  end.

(** Seeding grants touches the grant table only, and only by appending. *)
Definition grants_grew (w w' : World) : Prop :=
  users (db w') = users (db w)
  /\ countries (db w') = countries (db w)
  /\ applications (db w') = applications (db w)
  /\ contactMessages (db w') = contactMessages (db w)
  /\ grantAwards (db w') = grantAwards (db w)
  /\ uuids w' = uuids w
  /\ clock w' = clock w
  /\ exists rows, grants (db w') = (grants (db w) ++ rows)%list.

(** The rows a run of inserts makes, with consecutive generated ids. *)
Fixpoint grant_rows (l : list InsertGrant.t) (ids : nat -> string) (pos : nat) (t : Z)
  : list Grant.t :=
  match l with
  | [] => []
  | g :: l' => new_grant g (ids pos) t :: grant_rows l' ids (S pos) t
  end.

(** The constraints of an insert that do not depend on the database. *)
Definition grant_fits (g : InsertGrant.t) : bool :=
  varchar_fits 3 (InsertGrant.currency g)
  && (decimal_fits (InsertGrant.minAmount g)
      && decimal_fits (InsertGrant.maxAmount g)
      && decimal_fits (InsertGrant.amount g))
  && (integer_fits (InsertGrant.totalSpots g)
      && integer_fits (InsertGrant.availableSpots g)).

(** *** Rates *)

(** [r] is an integer nearest to the fraction [num / den]. *)
Definition nearest_integer (r num den : Z) : Prop :=
  Z.abs (2 * r * den - 2 * num) <= den.

(** The rate computed in doubles, as a function of the two counts. *)
Definition rate_of (selectedCount totalCount : Z) : Z :=
  F64.Math_round
    (F64.mul (F64.div (F64.of_Z selectedCount) (F64.of_Z totalCount)) (F64.of_Z 100)).

(* ===================================================================== *)
(** ** server/storage.ts: the rest of the facade *)
(* ===================================================================== *)

(** The operations below are not entered in the record of calls: that
    record is kept for the operations of the submission and look-up routes
    above. *)

Module UpsertUser.
Record t : Type := mk {
  email : Col string;
  firstName : Col string;
  lastName : Col string;
  profileImageUrl : Col string;
  country : Col string;
  phone : Col string }.
End UpsertUser.

Module InsertContactMessage.
Record t : Type := mk {
  firstName : string;
  lastName : string;
  email : string;
  subject : string;
  message : string }.
End InsertContactMessage.

Module InsertGrantAward.
Record t : Type := mk {
  grantId : string;
  applicationId : string;
  userId : string;
  amount : Z;
  currency : string;
  notes : option string }.
End InsertGrantAward.

(** A column without default in an insert: a key that is left out is NULL. *)
Definition or_null {A : Type} (c : Col A) : option A :=
  match c with
  | Omitted => None
  | Given v => v
  end.

(** A column in [SET]: a key that is left out keeps the stored value. *)
Definition or_kept {A : Type} (old : option A) (c : Col A) : option A :=
  match c with
  | Omitted => old
  | Given v => v
  end.

Definition set_users (us : list User.t) (d : Db) : Db :=
  mkDb us (countries d) (grants d) (applications d) (contactMessages d) (grantAwards d).

Definition set_contactMessages (ms : list ContactMessage.t) (d : Db) : Db :=
  mkDb (users d) (countries d) (grants d) (applications d) ms (grantAwards d).

Definition set_grantAwards (ws : list GrantAward.t) (d : Db) : Db :=
  mkDb (users d) (countries d) (grants d) (applications d) (contactMessages d) ws.

Definition getUser (id : string) : M (option User.t) :=
  d <- select_db ;;
  ret (find_by User.id id (users d)).

(** [users.email] is unique; NULL never collides. *)
Definition email_taken (e : option string) (rows : list User.t) : bool :=
  match e with
  | None => false
  | Some e' =>
      existsb (fun u => match User.email u with
                        | Some x => (x =? e')%string
                        | None => false
                        end) rows
  end.

(** The row [INSERT ... VALUES ({...userData, id})] makes. *)
Definition new_user (id : string) (userData : UpsertUser.t) (t : Z) : User.t :=
  User.mk id (or_null (UpsertUser.email userData))
          (or_null (UpsertUser.firstName userData))
          (or_null (UpsertUser.lastName userData))
          (or_null (UpsertUser.profileImageUrl userData))
          (or_null (UpsertUser.country userData))
          (or_null (UpsertUser.phone userData))
          (Some t) (Some t).

(** The row [SET {...userData, updatedAt: new Date()}] makes of [u]. *)
Definition updated_user (userData : UpsertUser.t) (t : Z) (u : User.t) : User.t :=
  User.mk (User.id u)
          (or_kept (User.email u) (UpsertUser.email userData))
          (or_kept (User.firstName u) (UpsertUser.firstName userData))
          (or_kept (User.lastName u) (UpsertUser.lastName userData))
          (or_kept (User.profileImageUrl u) (UpsertUser.profileImageUrl userData))
          (or_kept (User.country u) (UpsertUser.country userData))
          (or_kept (User.phone u) (UpsertUser.phone userData))
          (User.createdAt u) (Some t).

(** [INSERT ... ON CONFLICT (id) DO UPDATE]: a row with the id is updated
    in place, otherwise the row is appended; either way the e-mail must not
    be that of another row. *)
Definition upsertUser (id : string) (userData : UpsertUser.t) : M User.t :=
  t <- now ;;
  d <- select_db ;;
  let others := filter (fun u => negb (User.id u =? id)%string) (users d) in
  match find_by User.id id (users d) with
  | None =>
      let user := new_user id userData t in
      check (negb (email_taken (User.email user) others)) "users_email_unique" ;;
      update_db (set_users (users d ++ [user])) ;;
      ret user
  | Some old =>
      let user := updated_user userData t old in
      check (negb (email_taken (User.email user) others)) "users_email_unique" ;;
      update_db (set_users
                   (map (fun u => if (User.id u =? id)%string
                                  then updated_user userData t u else u)
                        (users d))) ;;
      ret user
  end.

Definition getActiveCountries : M (list Country.t) :=
  d <- select_db ;;
  ret (order_by (fun a b => String.leb (Country.name a) (Country.name b))
                (filter is_active (countries d))).

(** The first row of grants joined to countries with the id. *)
Definition getGrantById (id : string) : M (option GrantWithCountry) :=
  d <- select_db ;;
  match filter (fun r => (Grant.id (fst r) =? id)%string) (grants_join_countries d) with
  | [] => ret None
  | result :: _ => ret (Some (with_country result))
  end.

(** [applications LEFT JOIN grants LEFT JOIN countries LEFT JOIN users] *)
Definition applications_joined (d : Db)
  : list (((Application.t * option Grant.t) * option Country.t) * option User.t) :=
  left_join (fun r u => (Application.userId (fst (fst r)) =? User.id u)%string)
    (left_join (fun r c => match snd r with
                           | Some g => (Grant.countryId g =? Country.id c)%string
                           | None => false
                           end)
       (left_join (fun a g => (Application.grantId a =? Grant.id g)%string)
                  (applications d) (grants d))
       (countries d))
    (users d).

Definition with_details
    (r : ((Application.t * option Grant.t) * option Country.t) * option User.t)
  : ApplicationWithDetails :=
  mkApplicationWithDetails (fst (fst (fst r))) (snd (fst (fst r))) (snd (fst r)) (snd r).

Definition by_submittedAt_desc
    (a b : ((Application.t * option Grant.t) * option Country.t) * option User.t) : bool :=
  desc (Application.submittedAt (fst (fst (fst a))))
       (Application.submittedAt (fst (fst (fst b)))).

Definition getApplicationsByUser (userId : string) : M (list ApplicationWithDetails) :=
  d <- select_db ;;
  let results :=
    order_by by_submittedAt_desc
      (filter (fun r => (Application.userId (fst (fst (fst r))) =? userId)%string)
              (applications_joined d)) in
  ret (map with_details results).

Definition getApplicationsByGrant (grantId : string) : M (list Application.t) :=
  d <- select_db ;;
  ret (order_by (fun a b => desc (Application.submittedAt a) (Application.submittedAt b))
                (filter (fun a => (Application.grantId a =? grantId)%string)
                        (applications d))).

(** The row an insert into [contact_messages] makes: the id is generated,
    [status] is 'new', [createdAt] the time of the insert. *)
Definition new_contact_message (message : InsertContactMessage.t) (id : string) (t : Z)
  : ContactMessage.t :=
  ContactMessage.mk id (InsertContactMessage.firstName message)
    (InsertContactMessage.lastName message) (InsertContactMessage.email message)
    (InsertContactMessage.subject message) (InsertContactMessage.message message)
    (Some "new") (Some t) None.

(** The texts of an insert into [contact_messages] can be stored. *)
Definition storable_message (message : InsertContactMessage.t) : bool :=
  Pg.storable (InsertContactMessage.firstName message)
  && Pg.storable (InsertContactMessage.lastName message)
  && Pg.storable (InsertContactMessage.email message)
  && Pg.storable (InsertContactMessage.subject message)
  && Pg.storable (InsertContactMessage.message message).

Definition createContactMessage (message : InsertContactMessage.t) : M ContactMessage.t :=
  check (storable_message message) "invalid byte sequence for encoding UTF8" ;;
  id <- gen_random_uuid ;;
  t <- now ;;
  d <- select_db ;;
  let newMessage := new_contact_message message id t in
  check (negb (has_id ContactMessage.id id (contactMessages d))) "contact_messages_pkey" ;;
  update_db (set_contactMessages (contactMessages d ++ [newMessage])) ;;
  ret newMessage.

Definition getAllContactMessages : M (list ContactMessage.t) :=
  d <- select_db ;;
  ret (order_by (fun a b => desc (ContactMessage.createdAt a) (ContactMessage.createdAt b))
                (contactMessages d)).

(** The row an insert into [grant_awards] makes: the id is generated,
    [awardedAt] the time of the insert, [disbursedAt] NULL. *)
Definition new_grant_award (award : InsertGrantAward.t) (id : string) (t : Z)
  : GrantAward.t :=
  GrantAward.mk id (InsertGrantAward.grantId award)
    (InsertGrantAward.applicationId award) (InsertGrantAward.userId award)
    (InsertGrantAward.amount award) (InsertGrantAward.currency award)
    (Some t) None (InsertGrantAward.notes award).

Definition createGrantAward (award : InsertGrantAward.t) : M GrantAward.t :=
  id <- gen_random_uuid ;;
  t <- now ;;
  d <- select_db ;;
  let newAward := new_grant_award award id t in
  check (varchar_fits 3 (GrantAward.currency newAward)) "grant_awards.currency varchar(3)" ;;
  check (decimal_fits (Some (GrantAward.amount newAward))) "grant_awards decimal(12,2)" ;;
  check (negb (has_id GrantAward.id id (grantAwards d))) "grant_awards_pkey" ;;
  check (has_id Grant.id (GrantAward.grantId newAward) (grants d))
        "grant_awards_grant_id_grants_id_fk" ;;
  check (has_id Application.id (GrantAward.applicationId newAward) (applications d))
        "grant_awards_application_id_applications_id_fk" ;;
  check (has_id User.id (GrantAward.userId newAward) (users d))
        "grant_awards_user_id_users_id_fk" ;;
  update_db (set_grantAwards (grantAwards d ++ [newAward])) ;;
  ret newAward.

Definition getAwardsByUser (userId : string) : M (list GrantAward.t) :=
  d <- select_db ;;
  ret (order_by (fun a b => desc (GrantAward.awardedAt a) (GrantAward.awardedAt b))
                (filter (fun a => (GrantAward.userId a =? userId)%string)
                        (grantAwards d))).

(* ===================================================================== *)
(** ** server/routes.ts: the rest of the handlers *)
(* ===================================================================== *)

(** [insertContactMessageSchema.parse(body)]: the columns of
    [contact_messages] without [id], [createdAt], [respondedAt] and
    [status]. *)
Definition insertContactMessageSchema_parse (body : Js.value)
  : Exn + InsertContactMessage.t :=
  match body with
  | Js.Object fields =>
      let f := fun k => Js.assoc k fields in
      let firstName := z_string (f "firstName") in
      let lastName := z_string (f "lastName") in
      let email := z_string (f "email") in
      let subject := z_string (f "subject") in
      let message := z_string (f "message") in
      match (issue "firstName" firstName ++ issue "lastName" lastName
             ++ issue "email" email ++ issue "subject" subject
             ++ issue "message" message)%list with
      | [] =>
          inr (InsertContactMessage.mk
                 (parsed_or "" firstName) (parsed_or "" lastName)
                 (parsed_or "" email) (parsed_or "" subject)
                 (parsed_or "" message))
      | issues => inl (ZodError issues)
      end
  | _ => inl (ZodError [""])
  end.

(** What the remaining routes answer with. *)
Inductive Payload : Type :=
  | Json_error (b : Body)
  | Json_user (user : option User.t)
  | Json_countries (countries : list Country.t)
  | Json_grant (grant : GrantWithCountry)
  | Json_sent (message : string) (id : string)
  | Json_applications (applications : list ApplicationWithDetails)
  | Json_awards (awards : list GrantAward.t).

Record Answer : Type := mkAnswer {
  ans_status : Z;
  ans_body : Payload }.

Definition answer (n : Z) (p : Payload) : M Answer := ret (mkAnswer n p).

Definition answer_message (n : Z) (message : string) : M Answer :=
  answer n (Json_error (Json_message message)).

(** [app.get('/api/auth/user')], behind [isAuthenticated]. *)
Definition GET_api_auth_user (userId : string) : M Answer :=
  try_catch
    (user <- getUser userId ;;
     answer 200 (Json_user user))
    (fun _ => answer_message 500 "Failed to fetch user").

(** [app.get('/api/countries')] *)
Definition GET_api_countries : M Answer :=
  try_catch
    (countries <- getActiveCountries ;;
     answer 200 (Json_countries countries))
    (fun _ => answer_message 500 "Failed to fetch countries").

(** [app.get('/api/grants/:id')] *)
Definition GET_api_grants_id (id : string) : M Answer :=
  try_catch
    (grant <- getGrantById id ;;
     match grant with
     | None => answer_message 404 "Grant not found"
     | Some g => answer 200 (Json_grant g)
     end)
    (fun _ => answer_message 500 "Failed to fetch grant").

(** [app.post('/api/contact')] *)
Definition POST_api_contact (body : Js.value) : M Answer :=
  try_catch
    (validatedData <- parse (insertContactMessageSchema_parse body) ;;
     message <- createContactMessage validatedData ;;
     answer 201 (Json_sent "Message sent successfully" (ContactMessage.id message)))
    (fun error =>
       match error with
       | ZodError errors =>
           answer 400 (Json_error (Json_validation "Validation error" errors))
       | _ => answer_message 500 "Failed to send message"
       end).

(** [app.get('/api/applications')], behind [isAuthenticated]. *)
Definition GET_api_applications (userId : string) : M Answer :=
  try_catch
    (applications <- getApplicationsByUser userId ;;
     answer 200 (Json_applications applications))
    (fun _ => answer_message 500 "Failed to fetch applications").

(** [app.get('/api/awards')], behind [isAuthenticated]. *)
Definition GET_api_awards (userId : string) : M Answer :=
  try_catch
    (awards <- getAwardsByUser userId ;;
     answer 200 (Json_awards awards))
    (fun _ => answer_message 500 "Failed to fetch awards").


(* ===================================================================== *)
(** ** server/routes.ts: the routes [registerRoutes] registers *)
(* ===================================================================== *)

(** A request, by the route it reaches, with what the handler reads of it:
    the subject of the session behind [isAuthenticated], the query, the
    path parameter, the body. *)
Inductive Request : Type :=
  | Get_auth_user (userId : string)
  | Get_countries
  | Get_grants (country category : option string)
  | Get_grant (id : string)
  | Get_stats
  | Post_contact (body : Js.value)
  | Post_check_referral (body : Js.value)
  | Get_applications (userId : string)
  | Post_applications (userId : string) (body : Js.value)
  | Get_application (userId id : string)
  | Get_awards (userId : string).

Inductive Reply : Type :=
  | Reply_response (r : Response)
  | Reply_answer (a : Answer).

Definition reply_status (r : Reply) : Z :=
  match r with
  | Reply_response r' => res_status r'
  | Reply_answer a => ans_status a
  end.

Definition responds (m : M Response) : M Reply :=
  r <- m ;; ret (Reply_response r).

Definition answers (m : M Answer) : M Reply :=
  a <- m ;; ret (Reply_answer a).

Definition route (r : Request) : M Reply :=
  match r with
  | Get_auth_user userId => answers (GET_api_auth_user userId)
  | Get_countries => answers GET_api_countries
  | Get_grants country category => responds (GET_api_grants country category)
  | Get_grant id => answers (GET_api_grants_id id)
  | Get_stats => responds GET_api_stats
  | Post_contact body => answers (POST_api_contact body)
  | Post_check_referral body => responds (POST_api_check_referral body)
  | Get_applications userId => answers (GET_api_applications userId)
  | Post_applications userId body => responds (POST_api_applications userId body)
  | Get_application userId id => responds (GET_api_applications_id userId id)
  | Get_awards userId => answers (GET_api_awards userId)
  end.

(** Requests handled one after the other, each handler running to its end
    before the next starts. *)
Fixpoint serve (rs : list Request) (w : World) : World :=
  match rs with
  | [] => w
  | r :: rs' => serve rs' (snd (route r w))
  end.
(* ===================================================================== *)
(** ** Vocabulary of the further statements *)
(* ===================================================================== *)

(** [l] is in descending order of [stamp], rows without one first. *)
Definition newest_first {A : Type} (stamp : A -> option Z) (l : list A) : Prop :=
  StronglySorted (fun a b => desc (stamp a) (stamp b) = true) l.

(** [l] is in ascending order of [name]. *)
Definition by_name {A : Type} (name : A -> string) (l : list A) : Prop :=
  StronglySorted (fun a b => String.leb (name a) (name b) = true) l.


(** An application with the grant, the country and the user it refers to,
    looked up by id. *)
Definition details_of (d : Db) (a : Application.t) : ApplicationWithDetails :=
  let g := find_by Grant.id (Application.grantId a) (grants d) in
  mkApplicationWithDetails a g
    (match g with
     | Some g' => find_by Country.id (Grant.countryId g') (countries d)
     | None => None
     end)
    (find_by User.id (Application.userId a) (users d)).

(** *** Sample inputs *)

(** Omar signs in again with an e-mail and a new last name. *)
Definition omars_claims : UpsertUser.t :=
  UpsertUser.mk (Given (Some "omar@example.org")) Omitted
                (Given (Some "Haddad-Klein")) Omitted Omitted Omitted.

Definition omar_renamed : User.t :=
  User.mk "omar-sub" (Some "omar@example.org") (Some "Omar")
          (Some "Haddad-Klein") None None None None (Some 1700000002000).

(** *** What operations do to the database *)

(** Whatever [m] does, the database before and after are related by [R]. *)
Definition keeps {A : Type} (R : Db -> Db -> Prop) (m : M A) : Prop :=
  forall w, R (db w) (db (snd (m w))).

(** The e-mail addresses in use. *)
Definition emails (us : list User.t) : list string :=
  flat_map (fun u => match User.email u with
                     | Some e => [e]
                     | None => []
                     end) us.

(** Every reference of [rows] through [ref] finds a row of [target]. *)
Definition references {A B : Type} (ref : A -> string) (rows : list A)
    (key : B -> string) (target : list B) : Prop :=
  forall a, In a rows -> has_id key (ref a) target = true.

(** The constraints of shared/schema.ts: primary keys, the unique columns
    and the foreign keys. *)
Record integrity (d : Db) : Prop := mkIntegrity {
  users_pkey : NoDup (map User.id (users d));
  users_email_unique : NoDup (emails (users d));
  countries_pkey : NoDup (map Country.id (countries d));
  countries_code_unique : NoDup (map Country.code (countries d));
  grants_pkey : NoDup (map Grant.id (grants d));
  applications_pkey : NoDup (map Application.id (applications d));
  contact_messages_pkey : NoDup (map ContactMessage.id (contactMessages d));
  grant_awards_pkey : NoDup (map GrantAward.id (grantAwards d));
  grants_country_fk : references Grant.countryId (grants d) Country.id (countries d);
  applications_grant_fk :
    references Application.grantId (applications d) Grant.id (grants d);
  applications_user_fk :
    references Application.userId (applications d) User.id (users d);
  grant_awards_grant_fk :
    references GrantAward.grantId (grantAwards d) Grant.id (grants d);
  grant_awards_application_fk :
    references GrantAward.applicationId (grantAwards d) Application.id (applications d);
  grant_awards_user_fk :
    references GrantAward.userId (grantAwards d) User.id (users d) }.

Definition stays_sound (d d' : Db) : Prop := integrity d -> integrity d'.

(** What requests may do: users, countries, grants and awards stay as they
    are; applications and messages are only appended, and an appended
    application is qualified or not qualified. *)
Record grows (d d' : Db) : Prop := mkGrows {
  same_users : users d' = users d;
  same_countries : countries d' = countries d;
  same_grants : grants d' = grants d;
  same_awards : grantAwards d' = grantAwards d;
  more_applications :
    exists new, applications d' = (applications d ++ new)%list
                /\ forall a, In a new ->
                     Application.status a = Some qualified
                     \/ Application.status a = Some not_qualified;
  more_messages :
    exists new, contactMessages d' = (contactMessages d ++ new)%list }.

(** No user has two applications for one grant. *)
Definition one_application_each (d : Db) : Prop :=
  forall userId grantId, count (applications_of userId grantId d) <= 1.

(** A message Omar sends through the contact form. *)
Definition omars_message : Js.value :=
  Js.Object [ ("firstName", Js.Str "Omar"); ("lastName", Js.Str "Haddad");
              ("email", Js.Str "omar@example.org"); ("subject", Js.Str "Question");
              ("message", Js.Str "When is the deadline?") ].

(** The applications are as they were. *)
Definition same_applications (d d' : Db) : Prop := applications d' = applications d.

(** The status codes a route answers with. *)
Definition statuses_of (r : Request) : list Z :=
  match r with
  | Get_auth_user _ | Get_countries | Get_grants _ _ | Get_stats
  | Get_applications _ | Get_awards _ => [200; 500]
  | Get_grant _ => [200; 404; 500]
  | Post_contact _ | Post_applications _ _ => [201; 400; 500]
  | Post_check_referral _ => [200; 400; 500]
  | Get_application _ _ => [200; 403; 404; 500]
  end.

(** Whenever [m] returns, the status of what it returns is in [codes]. *)
Definition within {A : Type} (status : A -> Z) (codes : list Z) (m : M A) : Prop :=
  forall w a, fst (m w) = Ok a -> In (status a) codes.

(** The grant, the grant's country and the user of a joined application
    are all there, and are the rows the application refers to. *)
Definition fully_joined (a : ApplicationWithDetails) : Prop :=
  exists g c u,
    awd_grant a = Some g /\ awd_countries a = Some c /\ awd_user a = Some u
    /\ Grant.id g = Application.grantId (awd_application a)
    /\ Country.id c = Grant.countryId g
    /\ User.id u = Application.userId (awd_application a).

(** Omar's application with another owner and a decision written into the
    body. *)
Definition forged_body : Js.value :=
  Js.Object [ ("grantId", Js.Str "id"); ("userId", Js.Str "jane-sub");
              ("fullName", Js.Str "Omar Haddad"); ("email", Js.Str "omar@example.org");
              ("phone", Js.Str "555-0101"); ("address", Js.Str "2 Side Street");
              ("reasonForApplying", Js.Str "Home repairs");
              ("hasReferral", Js.Boolean true); ("autoQualified", Js.Boolean true);
              ("status", Js.Str "awarded") ].

(** An award for Omar on Jane's application. *)
Definition omars_award : InsertGrantAward.t :=
  InsertGrantAward.mk "id" "app-1" "omar-sub" 1000000 "USD" None.

(* ===================================================================== *)
(** * Properties *)
(* ===================================================================== *)

(** ** Running the facade *)

Ltac run_monad :=
  unfold json, status_json, parse, check, destructure,
         called, select_db, update_db, gen_random_uuid, Math_random, now;
  unfold try_catch, bind, ret, throw;
  cbn [fst snd db calls uuids uuid_pos randoms random_pos clock].

Lemma after_call_db (c : Call) (w : World) : db (after_call c w) = db w.
Proof. reflexivity. Qed.

Lemma after_call_calls (c : Call) (w : World) : calls (after_call c w) = c :: calls w.
Proof. reflexivity. Qed.

Lemma checkReferralExists_run (referralName : string) (w : World) :
  checkReferralExists referralName w
  = (Ok (0 <? count (recipients_like referralName (db w))),
     after_call (Call_checkReferralExists referralName) w).
Proof. reflexivity. Qed.

Lemma checkUserHasAppliedToGrant_run (userId grantId : string) (w : World) :
  checkUserHasAppliedToGrant userId grantId w
  = (Ok (0 <? count (applications_of userId grantId (db w))),
     after_call (Call_checkUserHasAppliedToGrant userId grantId) w).
Proof. reflexivity. Qed.

Lemma count_pos_iff {A : Type} (l : list A) :
  (0 <? count l) = true <-> exists x, In x l.
Proof.
  unfold count. rewrite Z.ltb_lt. destruct l as [|x l]; cbn [List.length].
  - split; [intros H; exfalso; lia | intros [x []]].
  - split; [exists x; now left | intros _; lia].
Qed.

Lemma count_zero_iff {A : Type} (l : list A) :
  (0 <? count l) = false <-> l = [].
Proof.
  unfold count. rewrite Z.ltb_ge. destruct l as [|x l]; cbn [List.length].
  - split; [reflexivity | intros _; lia].
  - split; [intros H; exfalso; lia | discriminate].
Qed.

(** ** POST /api/check-referral *)




(** ** GET /api/applications/:id *)

Lemma find_by_none {A : Type} (key : A -> string) (k : string) (rows : list A) :
  find_by key k rows = None <-> forall r, In r rows -> key r <> k.
Proof.
  unfold find_by. split.
  - intros H r Hin E. apply (find_none _ _ H) in Hin.
    apply String.eqb_neq in Hin. contradiction.
  - intros H. induction rows as [|r rows IH]; [reflexivity|]. cbn.
    destruct (String.eqb_spec (key r) k) as [E|_].
    + exfalso. apply (H r); [now left | exact E].
    + apply IH. intros r' Hin. apply H. now right.
Qed.

Lemma find_by_some {A : Type} (key : A -> string) (k : string) (rows : list A) (r : A) :
  find_by key k rows = Some r -> In r rows /\ key r = k.
Proof.
  unfold find_by. intros H. apply find_some in H. destruct H as [Hin E].
  split; [exact Hin | now apply String.eqb_eq].
Qed.




(** ** POST /api/applications *)

Lemma parse_error_is_zod (body : Js.value) (e : Exn) :
  insertApplicationSchema_parse body = inl e -> exists issues, e = ZodError issues.
Proof.
  unfold insertApplicationSchema_parse.
  destruct body; try (intros [= <-]; eauto).
  match goal with |- match ?l with _ => _ end = _ -> _ => destruct l end.
  - discriminate.
  - intros [= <-]. eauto.
Qed.

(** What the handler does, case by case. *)
Lemma POST_api_applications_spec (userId : string) (body : Js.value) (w : World) :
  let out := POST_api_applications userId body w in
  match insertApplicationSchema_parse body with
  | inl e =>
      exists issues,
        out = (Ok (mkResponse 400 (Json_validation "Validation error" issues)), w)
  | inr data =>
      let grantId := InsertApplication.grantId data in
      if 0 <? count (applications_of userId grantId (db w))
      then out = (Ok (mkResponse 400 (Json_message "You have already applied to this grant")),
                  after_call (Call_checkUserHasAppliedToGrant userId grantId) w)
      else
        let hasReferral := referral_found data w in
        let autoQualified :=
          if hasReferral then true else Qgtb (randoms w (random_pos w)) js_0_3 in
        let row := submitted_row userId data hasReferral autoQualified w in
        exists w',
          random_pos w' = (if hasReferral then random_pos w else S (random_pos w))
          /\ if insertable userId data w
             then out = (Ok (mkResponse 201
                               (Json_created row autoQualified
                                  (qualification_message autoQualified hasReferral))), w')
                  /\ db w' = set_applications (applications (db w) ++ [row])%list (db w)
             else out = (Ok (mkResponse 500 (Json_message "Failed to submit application")), w')
                  /\ db w' = db w
  end.
Proof.
  cbv zeta. unfold POST_api_applications.
  destruct (insertApplicationSchema_parse body) as [e|data] eqn:Hparse.
  - apply parse_error_is_zod in Hparse. destruct Hparse as [issues ->].
    exists issues. reflexivity.
  - unfold referral_found, insertable, checkUserHasAppliedToGrant, checkReferralExists,
      createApplication, storable_application.
    run_monad. cbv beta iota.
    cbn [InsertApplication.grantId InsertApplication.userId InsertApplication.fullName
         InsertApplication.email InsertApplication.phone InsertApplication.address
         InsertApplication.reasonForApplying InsertApplication.referralName
         InsertApplication.notes].
    fold (storable_submission userId data).
    destruct (0 <? count (applications_of userId (InsertApplication.grantId data) (db w)));
      [reflexivity|].
    destruct (referral_given (InsertApplication.referralName data));
      cbn -[count applications_of recipients_like Qgtb has_id Z.ltb storable_submission];
      [destruct (0 <? count (recipients_like
                               (parsed_or "" (InsertApplication.referralName data)) (db w)));
       cbn -[count applications_of recipients_like Qgtb has_id Z.ltb
             storable_submission] |];
      destruct (storable_submission userId data);
      cbn -[count applications_of recipients_like Qgtb has_id Z.ltb];
      try (eexists; (split; [| split; reflexivity]); reflexivity);
      destruct (has_id Application.id (uuids w (uuid_pos w)) (applications (db w)));
      destruct (has_id Grant.id (InsertApplication.grantId data) (grants (db w)));
      destruct (has_id User.id userId (users (db w)));
      cbn -[count applications_of recipients_like Qgtb has_id Z.ltb];
      eexists; (split; [| split; reflexivity]); reflexivity.
Qed.

(** The handler answers 201 exactly when the payload is valid, the user has
    not applied to the grant yet, and the insert passes its constraints. *)
Lemma POST_api_applications_accepts (userId : string) (body : Js.value) (w : World) :
  (exists r, fst (POST_api_applications userId body w) = Ok r /\ res_status r = 201)
  <-> exists data,
        insertApplicationSchema_parse body = inr data
        /\ (0 <? count (applications_of userId (InsertApplication.grantId data) (db w)))
           = false
        /\ insertable userId data w = true.
Proof.
  pose proof (POST_api_applications_spec userId body w) as S. cbv zeta in S.
  destruct (insertApplicationSchema_parse body) as [e|data].
  - destruct S as [issues ->]. cbn. split.
    + intros [r [[= <-] H]]. discriminate.
    + intros [data [H _]]. discriminate.
  - destruct (0 <? count (applications_of userId (InsertApplication.grantId data) (db w)))
      eqn:Happlied.
    + rewrite S. cbn. split.
      * intros [r [[= <-] H]]. discriminate.
      * intros [data' [[= <-] [H _]]]. congruence.
    + destruct S as [w' [_ S]]. destruct (insertable userId data w) eqn:Hins.
      * destruct S as [-> _]. cbn. split; [eauto | eauto].
      * destruct S as [-> _]. cbn. split.
        -- intros [r [[= <-] H]]. discriminate.
        -- intros [data' [[= <-] [_ H]]]. congruence.
Qed.

Lemma trim_empty : Js.trim "" = "".
Proof. reflexivity. Qed.

Lemma referral_given_true (name : string) :
  Js.trim name <> "" -> referral_given (Some name) = true.
Proof.
  intros H. unfold referral_given, Js.truthy_string.
  assert (N : name <> "") by (intros ->; apply H, trim_empty).
  apply String.eqb_neq in H, N. now rewrite H, N.
Qed.

Lemma referral_given_false (name : string) :
  Js.trim name = "" -> referral_given (Some name) = false.
Proof.
  intros H. unfold referral_given, Js.truthy_string.
  rewrite H. cbn. apply andb_false_r.
Qed.

Lemma lookup_result (name : string) (w : World) (b : bool) :
  fst (checkReferralExists name w) = Ok b ->
  (0 <? count (recipients_like name (db w))) = b.
Proof. rewrite checkReferralExists_run. cbn. now intros [= ->]. Qed.

Lemma applied_iff (userId grantId : string) (d : Db) :
  (0 <? count (applications_of userId grantId d)) = true
  <-> exists a, In a (applications d)
                /\ Application.userId a = userId
                /\ Application.grantId a = grantId.
Proof.
  rewrite count_pos_iff. unfold applications_of. split.
  - intros [a Ha]. apply filter_In in Ha. destruct Ha as [Hin Hb].
    apply andb_true_iff in Hb. destruct Hb as [Hu Hg].
    exists a. repeat split; [exact Hin | now apply String.eqb_eq..].
  - intros [a [Hin [Hu Hg]]]. exists a. apply filter_In. split; [exact Hin|].
    apply andb_true_iff. split; now apply String.eqb_eq.
Qed.

Lemma parse_grantId (body : Js.value) (data : InsertApplication.t) :
  insertApplicationSchema_parse body = inr data ->
  Js.get body "grantId" = Some (Js.Str (InsertApplication.grantId data)).
Proof.
  unfold insertApplicationSchema_parse. destruct body; try discriminate.
  unfold Js.get. destruct (Js.assoc "grantId" fields) eqn:E; cbn [z_string issue app];
    try discriminate.
  match goal with |- match ?l with _ => _ end = _ -> _ => destruct l end;
    [|discriminate].
  intros [= <-]. reflexivity.
Qed.

(** C1.  When the validated payload names a referral that is not blank and
    the lookup finds a recipient for it, an accepted submission (201) stores
    a row with [hasReferral], [autoQualified] and status [qualified]; no
    random number is drawn. *)
Theorem C1_referral_qualifies (userId : string) (body : Js.value)
    (data : InsertApplication.t) (name : string) (w : World) (r : Response) :
  insertApplicationSchema_parse body = inr data ->
  InsertApplication.referralName data = Some name ->
  Js.trim name <> "" ->
  fst (checkReferralExists name w) = Ok true ->
  fst (POST_api_applications userId body w) = Ok r ->
  res_status r = 201 ->
  exists a message,
    res_body r = Json_created a true message
    /\ applications (db (snd (POST_api_applications userId body w)))
       = (applications (db w) ++ [a])%list
    /\ Application.hasReferral a = Some true
    /\ Application.autoQualified a = Some true
    /\ Application.status a = Some qualified
    /\ random_pos (snd (POST_api_applications userId body w)) = random_pos w.
Proof.
  intros Hparse Hname Htrim Hfound Hr H201.
  pose proof (POST_api_applications_spec userId body w) as S.
  cbv zeta in S. rewrite Hparse in S.
  destruct (0 <? count (applications_of userId (InsertApplication.grantId data) (db w))).
  - rewrite S in Hr. cbn in Hr. injection Hr as <-. discriminate.
  - assert (F : referral_found data w = true).
    { unfold referral_found. rewrite Hname. cbn [parsed_or].
      rewrite (referral_given_true _ Htrim), (lookup_result _ _ _ Hfound). reflexivity. }
    rewrite F in S. destruct S as [w' [Hpos S]].
    destruct (insertable userId data w); destruct S as [Hout Hdb];
      rewrite Hout in *; cbn [fst snd] in *; injection Hr as <-; [|discriminate].
    eexists _, _. repeat split; [rewrite Hdb; reflexivity | exact Hpos].
Qed.

Lemma C1_referral_qualifies_witness :
  exists a message,
    res_body (mkResponse 201
                (Json_created
                   (submitted_row "omar-sub"
                      (InsertApplication.mk "id" "omar-sub" "Omar Haddad" "omar@example.org"
                         "555-0101" "2 Side Street" "Home repairs" (Some "ane SMI")
                         Omitted Omitted Omitted None)
                      true true running_world)
                   true
                   "Application submitted! You are automatically qualified due to your referral."))
    = Json_created a true message
    /\ applications (db (snd (POST_api_applications "omar-sub"
                                (omars_body (Js.Str "ane SMI")) running_world)))
       = (applications (db running_world) ++ [a])%list
    /\ Application.hasReferral a = Some true
    /\ Application.autoQualified a = Some true
    /\ Application.status a = Some qualified
    /\ random_pos (snd (POST_api_applications "omar-sub"
                          (omars_body (Js.Str "ane SMI")) running_world))
       = random_pos running_world.
Proof.
  apply (C1_referral_qualifies "omar-sub" (omars_body (Js.Str "ane SMI"))
           (InsertApplication.mk "id" "omar-sub" "Omar Haddad" "omar@example.org"
              "555-0101" "2 Side Street" "Home repairs" (Some "ane SMI")
              Omitted Omitted Omitted None)
           "ane SMI" running_world).
  - reflexivity.
  - reflexivity.
  - vm_compute. discriminate.
  - vm_compute. reflexivity.
  - vm_compute. reflexivity.
  - reflexivity.
Defined.

Lemma Qgtb_spec (a b : Q) : Qgtb a b = true <-> (b < a)%Q.
Proof.
  unfold Qgtb. rewrite negb_true_iff. split.
  - intros H. apply Qnot_le_lt. intros L. apply Qle_bool_iff in L. congruence.
  - intros H. destruct (Qle_bool a b) eqn:E; [|reflexivity].
    apply Qle_bool_iff in E. exfalso. exact (Qlt_not_le _ _ H E).
Qed.

(** The literal is the double next below three tenths. *)
Lemma js_0_3_close : (js_0_3 < 3 # 10)%Q /\ ((3 # 10) - js_0_3 < 1 # 2 ^ 55)%Q.
Proof. split; reflexivity. Qed.

(** C3.  A submission for a grant the user has already applied to is
    answered 400 and leaves every table as it was.  With a payload that
    passes validation the answer is the domain error "You have already
    applied to this grant", and the only facade call made is the existence
    check. *)
Theorem C3_duplicate_rejected (userId grantId : string) (body : Js.value) (w : World) :
  Js.get body "grantId" = Some (Js.Str grantId) ->
  (exists a, In a (applications (db w))
             /\ Application.userId a = userId
             /\ Application.grantId a = grantId) ->
  (exists r, fst (POST_api_applications userId body w) = Ok r /\ res_status r = 400)
  /\ db (snd (POST_api_applications userId body w)) = db w
  /\ (forall data, insertApplicationSchema_parse body = inr data ->
        POST_api_applications userId body w
        = (Ok (mkResponse 400 (Json_message "You have already applied to this grant")),
           after_call (Call_checkUserHasAppliedToGrant userId grantId) w)).
Proof.
  intros Hget Hdup.
  pose proof (POST_api_applications_spec userId body w) as S. cbv zeta in S.
  destruct (insertApplicationSchema_parse body) as [e|data] eqn:Hparse.
  - destruct S as [issues ->]. cbn [fst snd].
    split; [eauto | split; [reflexivity | discriminate]].
  - pose proof (parse_grantId _ _ Hparse) as G. rewrite Hget in G.
    injection G as G. rewrite <- G in S.
    apply applied_iff in Hdup. rewrite Hdup in S. rewrite S. cbn [fst snd].
    split; [eauto | split; [reflexivity|]].
    intros data' [= <-]. reflexivity.
Qed.

Lemma C3_duplicate_rejected_witness :
  (exists r, fst (POST_api_applications "jane-sub" (omars_body Js.Null) running_world)
             = Ok r /\ res_status r = 400)
  /\ db (snd (POST_api_applications "jane-sub" (omars_body Js.Null) running_world))
     = db running_world
  /\ (forall data, insertApplicationSchema_parse (omars_body Js.Null) = inr data ->
        POST_api_applications "jane-sub" (omars_body Js.Null) running_world
        = (Ok (mkResponse 400 (Json_message "You have already applied to this grant")),
           after_call (Call_checkUserHasAppliedToGrant "jane-sub" "id") running_world)).
Proof.
  apply (C3_duplicate_rejected "jane-sub" "id" (omars_body Js.Null) running_world).
  - reflexivity.
  - exists janes_application. repeat split. now left.
Defined.

(** C9.  An accepted submission (201) appends one row to [applications],
    the row it returns, and leaves users, countries, grants, contact
    messages and awards unchanged; in particular no grant's
    [availableSpots] changes. *)
Theorem C9_submission_frame (userId : string) (body : Js.value) (w : World)
    (r : Response) :
  fst (POST_api_applications userId body w) = Ok r ->
  res_status r = 201 ->
  let d := db w in
  let d' := db (snd (POST_api_applications userId body w)) in
  (exists a qualified message,
     res_body r = Json_created a qualified message
     /\ applications d' = (applications d ++ [a])%list)
  /\ grants d' = grants d
  /\ map Grant.availableSpots (grants d') = map Grant.availableSpots (grants d)
  /\ users d' = users d
  /\ countries d' = countries d
  /\ contactMessages d' = contactMessages d
  /\ grantAwards d' = grantAwards d.
Proof.
  intros Hr H201. cbv zeta.
  pose proof (POST_api_applications_spec userId body w) as S. cbv zeta in S.
  destruct (insertApplicationSchema_parse body) as [e|data].
  - destruct S as [issues S]. rewrite S in Hr. cbn in Hr.
    injection Hr as <-. discriminate.
  - destruct (0 <? count (applications_of userId (InsertApplication.grantId data) (db w))).
    + rewrite S in Hr. cbn in Hr. injection Hr as <-. discriminate.
    + destruct S as [w' [_ S]].
      destruct (insertable userId data w); destruct S as [Hout Hdb];
        rewrite Hout in *; cbn [fst snd] in *; injection Hr as <-; [|discriminate].
      rewrite Hdb. cbn. repeat split. eexists _, _, _. split; reflexivity.
Qed.

Lemma C9_submission_frame_witness :
  let d := db running_world in
  let d' := db (snd (POST_api_applications "omar-sub" (omars_body Js.Null)
                       running_world)) in
  (exists a qualified message,
     res_body (mkResponse 201
                 (Json_created
                    (submitted_row "omar-sub"
                       (InsertApplication.mk "id" "omar-sub" "Omar Haddad"
                          "omar@example.org" "555-0101" "2 Side Street" "Home repairs"
                          None Omitted Omitted Omitted None)
                       false true running_world)
                    true
                    "Application submitted! You have been qualified for selection."))
     = Json_created a qualified message
     /\ applications d' = (applications d ++ [a])%list)
  /\ grants d' = grants d
  /\ map Grant.availableSpots (grants d') = map Grant.availableSpots (grants d)
  /\ users d' = users d
  /\ countries d' = countries d
  /\ contactMessages d' = contactMessages d
  /\ grantAwards d' = grantAwards d.
Proof.
  apply (C9_submission_frame "omar-sub" (omars_body Js.Null) running_world).
  - vm_compute. reflexivity.
  - reflexivity.
Defined.

(** ** GET /api/grants *)

Lemma In_insert_by {A : Type} (le : A -> A -> bool) (x y : A) (l : list A) :
  In y (insert_by le x l) <-> y = x \/ In y l.
Proof.
  induction l as [|z l IH]; cbn.
  - intuition congruence.
  - destruct (le x z); cbn; [intuition congruence|].
    rewrite IH. intuition.
Qed.

Lemma In_order_by {A : Type} (le : A -> A -> bool) (y : A) (l : list A) :
  In y (order_by le l) <-> In y l.
Proof.
  unfold order_by. induction l as [|x l IH]; cbn; [reflexivity|].
  rewrite In_insert_by, IH. intuition congruence.
Qed.

Lemma length_insert_by {A : Type} (le : A -> A -> bool) (x : A) (l : list A) :
  List.length (insert_by le x l) = S (List.length l).
Proof.
  induction l as [|z l IH]; cbn; [reflexivity|].
  destruct (le x z); cbn; [reflexivity | now rewrite IH].
Qed.

Lemma length_order_by {A : Type} (le : A -> A -> bool) (l : list A) :
  List.length (order_by le l) = List.length l.
Proof.
  unfold order_by. induction l as [|x l IH]; cbn; [reflexivity|].
  now rewrite length_insert_by, IH.
Qed.







(** ** The referral lookup *)



Lemma like_percent (p s : list ascii) :
  Pg.like ("%"%char :: p) s
  = Pg.like p s || match s with
                   | [] => false
                   | _ :: t => Pg.like ("%"%char :: p) t
                   end.
Proof. destruct s; reflexivity. Qed.

Lemma like_ordinary (c : ascii) (p s : list ascii) :
  ordinary c ->
  Pg.like (c :: p) s
  = match s with
    | [] => false
    | d :: s' => Ascii.eqb c d && Pg.like p s'
    end.
Proof.
  intros [H1 [H2 H3]]. apply Ascii.eqb_neq in H1, H2, H3.
  cbn [Pg.like]. now rewrite H1, H2, H3.
Qed.

Lemma like_any_run (p s : list ascii) :
  Pg.like ("%"%char :: p) s = true
  <-> exists pre rest, s = (pre ++ rest)%list /\ Pg.like p rest = true.
Proof.
  induction s as [|d s IH]; rewrite like_percent.
  - rewrite orb_false_r. split.
    + intros H. now exists [], [].
    + intros [pre [rest [E H]]]. symmetry in E. apply app_eq_nil in E.
      destruct E as [_ ->]. exact H.
  - rewrite orb_true_iff, IH. split.
    + intros [H | [pre [rest [-> H]]]].
      * now exists [], (d :: s).
      * now exists (d :: pre), rest.
    + intros [pre [rest [E H]]]. destruct pre as [|d' pre].
      * left. cbn in E. now subst rest.
      * right. injection E as _ ->. now exists pre, rest.
Qed.


Lemma like_trailing_percent (s : list ascii) : Pg.like ["%"%char] s = true.
Proof. apply like_any_run. exists s, []. split; [now rewrite app_nil_r | reflexivity]. Qed.


Lemma list_ascii_of_string_app (a b : string) :
  list_ascii_of_string (a ++ b)
  = (list_ascii_of_string a ++ list_ascii_of_string b)%list.
Proof. induction a as [|c a IH]; cbn; [reflexivity | now rewrite IH]. Qed.




(** Without a backslash every character of a pattern matches itself, so
    the pattern matches at least the texts that contain it. *)
Lemma like_self_prefix (l p rest : list ascii) :
  Forall (fun c => c <> "\"%char) l ->
  Pg.like p rest = true ->
  Pg.like (l ++ p) (l ++ rest) = true.
Proof.
  intros Hl Hp. induction Hl as [|c l Hc Hl IH]; [exact Hp|].
  cbn [app]. destruct (Ascii.eqb_spec c "%") as [->|N1].
  - apply like_any_run. exists ["%"%char], (l ++ rest)%list. split; [reflexivity | exact IH].
  - destruct (Ascii.eqb_spec c "_") as [->|N2].
    + exact IH.
    + rewrite like_ordinary by (repeat split; assumption).
      now rewrite Ascii.eqb_refl, IH.
Qed.

Lemma lower_char_unescaped (c : ascii) :
  c <> "\"%char -> Pg.lower_char c <> "\"%char.
Proof.
  destruct c as [[] [] [] [] [] [] [] []]; cbn; intros H;
    first [assumption | discriminate].
Qed.

Lemma lower_unescaped (l : list ascii) :
  Forall (fun c => c <> "\"%char) l ->
  Forall (fun c => c <> "\"%char) (Pg.lower l).
Proof.
  intros H. unfold Pg.lower. induction H; cbn; constructor;
    [now apply lower_char_unescaped | assumption].
Qed.

Lemma ILIKE_of_contains_ci (s name : string) :
  unescaped name -> contains_ci s name ->
  Pg.ILIKE s ("%" ++ name ++ "%") = true.
Proof.
  intros Hu [pre [post E]]. unfold Pg.ILIKE.
  rewrite !list_ascii_of_string_app. unfold Pg.lower at 1. rewrite !map_app.
  change (map Pg.lower_char (list_ascii_of_string "%")) with ["%"%char].
  cbn [app]. rewrite E. apply like_any_run.
  exists pre, (Pg.lower (list_ascii_of_string name) ++ post)%list.
  split; [reflexivity|]. apply like_self_prefix; [|apply like_trailing_percent].
  now apply lower_unescaped.
Qed.

Lemma In_left_join {A B : Type} (on : A -> B -> bool) (l : list A) (r : list B)
    (a : A) (ob : option B) :
  In (a, ob) (left_join on l r)
  <-> In a l
      /\ match ob with
         | Some b => In b r /\ on a b = true
         | None => forall b, In b r -> on a b = false
         end.
Proof.
  unfold left_join. rewrite in_flat_map. split.
  - intros [a' [Ha Hrow]].
    destruct (filter (on a') r) as [|m ms] eqn:F.
    + destruct Hrow as [[= <- <-] | []]. split; [exact Ha|].
      intros b Hb. destruct (on a' b) eqn:E; [|reflexivity].
      assert (X : In b (filter (on a') r)) by (apply filter_In; now split).
      rewrite F in X. destruct X.
    + apply in_map_iff in Hrow. destruct Hrow as [b [[= <- <-] Hb]].
      split; [exact Ha|]. rewrite <- F in Hb. now apply filter_In in Hb.
  - intros [Ha Hob]. exists a. split; [exact Ha|].
    destruct (filter (on a) r) as [|m ms] eqn:F.
    + destruct ob as [b|].
      * destruct Hob as [Hb E].
        assert (X : In b (filter (on a) r)) by (apply filter_In; now split).
        rewrite F in X. destruct X.
      * now left.
    + destruct ob as [b|].
      * apply in_map_iff. exists b. split; [reflexivity|].
        rewrite <- F. now apply filter_In.
      * exfalso. assert (X : In m (filter (on a) r)) by (rewrite F; now left).
        apply filter_In in X. destruct X as [Hm E]. rewrite (Hob m Hm) in E.
        discriminate.
Qed.

(** The rows the lookup searches: every award with its recipient. *)
Lemma awards_join_users_recipient (d : Db) (a : GrantAward.t) (u : User.t) :
  In (a, Some u) (awards_join_users d)
  <-> In a (grantAwards d) /\ In u (users d) /\ User.id u = GrantAward.userId a.
Proof.
  unfold awards_join_users. rewrite In_left_join, String.eqb_eq. intuition congruence.
Qed.


Lemma append_nil_r (s : string) : s ++ "" = s.
Proof. induction s as [|c s IH]; cbn; [reflexivity | now rewrite IH]. Qed.

(** The name searched: first name, a space, last name (NULL reads as the
    empty text). *)
Lemma recipient_name_spec (u : User.t) :
  recipient_name (Some u)
  = (match User.firstName u with Some f => f | None => "" end)
    ++ " " ++ (match User.lastName u with Some l => l | None => "" end).
Proof.
  unfold recipient_name. cbn.
  destruct (User.firstName u), (User.lastName u); cbn;
    rewrite ?append_nil_r; reflexivity.
Qed.

(** A name without backslash that occurs in a recipient's full name is
    found, pattern characters or not. *)
Lemma lookup_finds_contained (name : string) (w : World) :
  unescaped name ->
  (exists award recipient,
     In (award, recipient) (awards_join_users (db w))
     /\ contains_ci (recipient_name recipient) name) ->
  fst (checkReferralExists name w) = Ok true.
Proof.
  intros Hu [a [u [Hin Hc]]]. rewrite checkReferralExists_run. cbn [fst].
  f_equal. apply count_pos_iff. exists (a, u).
  apply filter_In. split; [exact Hin|]. now apply ILIKE_of_contains_ci.
Qed.

(** *** Containment, the case of ASCII letters aside *)






(** *** The names the lookup searches *)




(** In the sample world the lookup searches one name. *)
Lemma running_world_names (s : string) :
  searched_name (db running_world) s <-> s = "Jane Smith".
Proof.
  split.
  - intros [award [Ha H]].
    change (grantAwards (db running_world)) with [janes_award] in Ha.
    change (users (db running_world)) with [jane; omar] in H.
    destruct Ha as [<-|[]].
    destruct H as [[u [Hu [Hid ->]]] | [Hno _]].
    + destruct Hu as [<-|[<-|[]]]; [reflexivity | discriminate Hid].
    + exfalso. apply (Hno jane); [now left | reflexivity].
  - intros ->. exists janes_award. split; [now left|]. left. exists jane.
    split; [now left|]. split; reflexivity.
Qed.

(** C5.  The lookup at "J_ne" when Jane Smith is the one recipient: it
    answers true, although the one name it searches is "Jane Smith" and
    "J_ne" does not occur in it, case aside.  The name is put into the
    pattern as it is, so its [_] stands for any character. *)
Theorem C5_wildcard_name_found :
  fst (checkReferralExists "J_ne" running_world) = Ok true
  /\ (forall s, searched_name (db running_world) s <-> s = "Jane Smith")
  /\ occurs_ci "Jane Smith" "J_ne" = false
  /\ occurs_ci "Jane Smith" "Jane" = true.
Proof.
  split; [vm_compute; reflexivity|].
  split; [exact running_world_names|].
  split; vm_compute; reflexivity.
Qed.




(** ** Seeding at start-up *)

Lemma left_join_nil {A B : Type} (on : A -> B -> bool) (l : list A) (r : list B) :
  left_join on l r = [] <-> l = [].
Proof.
  destruct l as [|a l]; cbn; [split; reflexivity|].
  split; [|discriminate].
  destruct (filter (on a) r); cbn; discriminate.
Qed.

Lemma length_zero_test {A : Type} (l : list A) :
  (List.length l =? 0)%nat = match l with [] => true | _ => false end.
Proof. destruct l; reflexivity. Qed.

Lemma has_id_false {A : Type} (key : A -> string) (k : string) (rows : list A) :
  ~ In k (map key rows) -> has_id key k rows = false.
Proof.
  intros H. unfold has_id. induction rows as [|r rows IH]; cbn; [reflexivity|].
  cbn in H. destruct (String.eqb_spec (key r) k) as [E|_].
  - exfalso. apply H. now left.
  - apply IH. intros X. apply H. now right.
Qed.

(** *** Countries *)

Lemma initializeCountries_stocked (w : World) :
  countries (db w) <> [] ->
  initializeCountries w = (Ok tt, after_call Call_getAllCountries w).
Proof.
  intros H. unfold initializeCountries, getAllCountries. run_monad.
  rewrite length_order_by, length_zero_test.
  destruct (countries (db w)); [contradiction | reflexivity].
Qed.

Lemma initializeCountries_empty (w : World) :
  countries (db w) = [] ->
  exists w',
    initializeCountries w = (Ok tt, w')
    /\ db w' = set_countries (map new_country defaultCountries) (db w)
    /\ uuids w' = uuids w /\ uuid_pos w' = uuid_pos w /\ clock w' = clock w.
Proof.
  destruct w as [[us cs gs aps cms gas] cl uu up rn rp ck]. cbn [db countries].
  intros ->. eexists. split; [vm_compute; reflexivity|].
  repeat split.
Qed.

(** What country seeding leaves behind. *)
Lemma initializeCountries_spec (w : World) :
  exists w',
    initializeCountries w = (Ok tt, w')
    /\ db w' = set_countries (match countries (db w) with
                              | [] => map new_country defaultCountries
                              | cs => cs
                              end) (db w)
    /\ uuids w' = uuids w /\ uuid_pos w' = uuid_pos w /\ clock w' = clock w.
Proof.
  destruct (countries (db w)) as [|c cs] eqn:E.
  - apply initializeCountries_empty. exact E.
  - exists (after_call Call_getAllCountries w). split.
    + apply initializeCountries_stocked. rewrite E. discriminate.
    + rewrite <- E. destruct w as [[us cs' gs aps cms gas] cl uu up rn rp ck].
      repeat split.
Qed.

(** *** Grants *)

Lemma createGrant_run (g : InsertGrant.t) (w : World) :
  snd (createGrant g w) = after_createGrant g w
  /\ if grant_checks g (uuids w (uuid_pos w)) (db w)
     then fst (createGrant g w) = Ok (new_grant g (uuids w (uuid_pos w)) (clock w))
     else exists c, fst (createGrant g w) = Throw (DbError c).
Proof.
  unfold createGrant, after_createGrant, grant_checks. run_monad.
  cbn [Grant.currency Grant.minAmount Grant.maxAmount Grant.amount Grant.totalSpots
       Grant.availableSpots Grant.countryId new_grant].
  destruct (varchar_fits 3 (InsertGrant.currency g)); cbn [andb fst snd]; [|eauto].
  destruct (decimal_fits (InsertGrant.minAmount g) && decimal_fits (InsertGrant.maxAmount g)
            && decimal_fits (InsertGrant.amount g)); cbn [andb fst snd]; [|eauto].
  destruct (integer_fits (InsertGrant.totalSpots g)
            && integer_fits (InsertGrant.availableSpots g)); cbn [andb fst snd]; [|eauto].
  destruct (has_id Grant.id (uuids w (uuid_pos w)) (grants (db w)));
    cbn [andb negb fst snd]; [eauto|].
  destruct (has_id Country.id (InsertGrant.countryId g) (countries (db w)));
    cbn [andb fst snd]; eauto.
Qed.

Lemma for_of_createGrant (l : list InsertGrant.t) (w : World) :
  snd (for_of l (fun grant => createGrant grant ;; ret tt) w) = after_seeding l w.
Proof.
  revert w. induction l as [|g l IH]; intros w; [reflexivity|].
  cbn [for_of after_seeding]. unfold bind at 1. unfold bind at 1.
  destruct (createGrant_run g w) as [Hw Hr].
  destruct (createGrant g w) as [o w1]. cbn [fst snd] in Hw, Hr. subst w1.
  destruct (grant_checks g (uuids w (uuid_pos w)) (db w)).
  - rewrite Hr. unfold ret at 1. apply IH.
  - destruct Hr as [c ->]. reflexivity.
Qed.

Lemma bind_run {A B : Type} (m : M A) (k : A -> M B) (w w1 : World) (a : A) :
  m w = (Ok a, w1) -> bind m k w = k a w1.
Proof. intros H. unfold bind. now rewrite H. Qed.

Lemma getAllGrants_run (w : World) :
  getAllGrants w
  = (Ok (map with_country (order_by by_createdAt_desc (grants_join_countries (db w)))),
     after_call Call_getAllGrants w).
Proof. reflexivity. Qed.

Lemma getAllGrants_none (d : Db) :
  (List.length (map with_country (order_by by_createdAt_desc (grants_join_countries d)))
   =? 0)%nat
  = match grants d with [] => true | _ => false end.
Proof.
  rewrite length_map, length_order_by, length_zero_test.
  destruct (grants_join_countries d) as [|row rows] eqn:J.
  - apply left_join_nil in J. now rewrite J.
  - destruct (grants d) as [|g gs] eqn:G; [|reflexivity].
    unfold grants_join_countries in J. rewrite G in J. discriminate.
Qed.

Lemma initializeGrants_run (w : World) :
  fst (initializeGrants w) = Ok tt
  /\ snd (initializeGrants w)
     = match grants (db w) with
       | [] => after_seeding sampleGrants (after_call Call_getAllGrants w)
       | _ => after_call Call_getAllGrants w
       end.
Proof.
  unfold initializeGrants, try_catch.
  rewrite (bind_run _ _ _ _ _ (getAllGrants_run w)), getAllGrants_none.
  destruct (grants (db w)) as [|g gs].
  - rewrite <- for_of_createGrant.
    destruct (for_of sampleGrants _ _) as [[[]|e] w1]; split; reflexivity.
  - split; reflexivity.
Qed.

Lemma grants_grew_refl (w : World) : grants_grew w w.
Proof. repeat split. exists []. now rewrite app_nil_r. Qed.

Lemma grants_grew_trans (w1 w2 w3 : World) :
  grants_grew w1 w2 -> grants_grew w2 w3 -> grants_grew w1 w3.
Proof.
  intros (A1 & A2 & A3 & A4 & A5 & A6 & A7 & r1 & A8)
         (B1 & B2 & B3 & B4 & B5 & B6 & B7 & r2 & B8).
  repeat split; try congruence.
  exists (r1 ++ r2)%list. rewrite B8, A8. now rewrite app_assoc.
Qed.

Lemma after_createGrant_grew (g : InsertGrant.t) (w : World) :
  grants_grew w (after_createGrant g w).
Proof.
  unfold after_createGrant, grants_grew. cbn [db uuids clock].
  destruct (grant_checks g (uuids w (uuid_pos w)) (db w)); cbn.
  - repeat split. eauto.
  - repeat split. exists []. now rewrite app_nil_r.
Qed.

Lemma after_seeding_grew (l : list InsertGrant.t) (w : World) :
  grants_grew w (after_seeding l w).
Proof.
  revert w. induction l as [|g l IH]; intros w; cbn [after_seeding].
  - apply grants_grew_refl.
  - destruct (grant_checks g (uuids w (uuid_pos w)) (db w)).
    + eapply grants_grew_trans; [apply after_createGrant_grew | apply IH].
    + apply after_createGrant_grew.
Qed.

Lemma db_ext (d d' : Db) :
  users d' = users d -> countries d' = countries d -> grants d' = grants d ->
  applications d' = applications d -> contactMessages d' = contactMessages d ->
  grantAwards d' = grantAwards d -> d' = d.
Proof. destruct d, d'; cbn; intros. now subst. Qed.

(** The first sample grant goes in exactly when its country is stored. *)
Lemma first_sample_check (id : string) (d : Db) :
  grants d = [] ->
  grant_checks (hd (InsertGrant.mk "" "" education "" None None None "" Omitted 0 0 None
                                   Omitted None None) sampleGrants) id d
  = has_id Country.id "usa" (countries d).
Proof. intros H. unfold grant_checks. rewrite H. reflexivity. Qed.

(** What grant seeding leaves behind. *)
Lemma initializeGrants_spec (w : World) :
  let w' := snd (initializeGrants w) in
  users (db w') = users (db w)
  /\ countries (db w') = countries (db w)
  /\ applications (db w') = applications (db w)
  /\ contactMessages (db w') = contactMessages (db w)
  /\ grantAwards (db w') = grantAwards (db w)
  /\ match grants (db w) with
     | [] => if has_id Country.id "usa" (countries (db w))
             then grants (db w') <> []
             else grants (db w') = []
     | _ => grants (db w') = grants (db w)
     end.
Proof.
  cbv zeta. destruct (initializeGrants_run w) as [_ ->].
  destruct (grants (db w)) as [|g gs] eqn:G.
  - pose proof (after_seeding_grew sampleGrants (after_call Call_getAllGrants w))
      as (A1 & A2 & A3 & A4 & A5 & _ & _ & _).
    rewrite ?after_call_db in *. repeat split; try assumption.
    change sampleGrants with (hd (InsertGrant.mk "" "" education "" None None None ""
                                    Omitted 0 0 None Omitted None None) sampleGrants
                              :: tl sampleGrants).
    cbn [after_seeding]. rewrite first_sample_check by (rewrite ?after_call_db; assumption).
    rewrite ?after_call_db.
    destruct (has_id Country.id "usa" (countries (db w))) eqn:FK.
    + match goal with
      | |- grants (db (after_seeding ?l ?x)) <> [] =>
          pose proof (after_seeding_grew l x) as (_ & _ & _ & _ & _ & _ & _ & rows & R);
          rewrite R
      end.
      unfold after_createGrant. cbn [db uuids uuid_pos clock].
      rewrite first_sample_check by (rewrite ?after_call_db; assumption).
      rewrite ?after_call_db, FK. cbn [grants set_grants].
      rewrite ?after_call_db, G. discriminate.
    + unfold after_createGrant. cbn [db uuids uuid_pos clock].
      rewrite first_sample_check by (rewrite ?after_call_db; assumption).
      rewrite ?after_call_db, FK. exact G.
  - rewrite ?after_call_db. repeat split. exact G.
Qed.

Lemma after_seeding_all (l : list InsertGrant.t) (w : World) :
  (forall g, In g l ->
     grant_fits g = true
     /\ has_id Country.id (InsertGrant.countryId g) (countries (db w)) = true) ->
  NoDup (map Grant.id (grants (db w))
         ++ map (uuids w) (seq (uuid_pos w) (List.length l)))%list ->
  grants (db (after_seeding l w))
  = (grants (db w) ++ grant_rows l (uuids w) (uuid_pos w) (clock w))%list.
Proof.
  revert w. induction l as [|g l IH]; intros w Hok Hfresh; cbn [after_seeding grant_rows].
  - now rewrite app_nil_r.
  - assert (C : grant_checks g (uuids w (uuid_pos w)) (db w) = true).
    { destruct (Hok g (or_introl eq_refl)) as [Hfit Hfk].
      unfold grant_checks. unfold grant_fits in Hfit. rewrite Hfit, Hfk.
      rewrite has_id_false; [reflexivity|].
      cbn [List.length seq map] in Hfresh.
      apply NoDup_remove_2 in Hfresh. intros X. apply Hfresh.
      apply in_or_app. now left. }
    rewrite C.
    pose proof (after_createGrant_grew g w) as (_ & Hc & _ & _ & _ & Hu & Hk & _).
    rewrite IH.
    + unfold after_createGrant at 1 2 3 4. cbn [db uuids uuid_pos clock].
      rewrite C. cbn [grants set_grants]. now rewrite <- app_assoc.
    + intros g' Hg'. rewrite Hc. apply Hok. now right.
    + unfold after_createGrant. cbn [db uuids uuid_pos clock]. rewrite C.
      cbn [grants set_grants]. rewrite map_app. cbn [map Grant.id new_grant].
      rewrite <- app_assoc. cbn [app]. cbn [List.length seq map] in Hfresh.
      exact Hfresh.
Qed.

Lemma sampleGrants_fit : forall g, In g sampleGrants -> grant_fits g = true.
Proof. apply forallb_forall. reflexivity. Qed.

Lemma bootstrap_run (w : World) :
  exists w1,
    initializeCountries w = (Ok tt, w1)
    /\ db w1 = set_countries (match countries (db w) with
                              | [] => map new_country defaultCountries
                              | cs => cs
                              end) (db w)
    /\ uuids w1 = uuids w /\ uuid_pos w1 = uuid_pos w /\ clock w1 = clock w
    /\ snd (bootstrap w) = snd (initializeGrants w1).
Proof.
  destruct (initializeCountries_spec w) as (w1 & Hrun & Hdb & Hu & Hp & Hc).
  exists w1. repeat split; try assumption.
  unfold bootstrap. now rewrite (bind_run _ _ _ _ _ Hrun).
Qed.

Lemma set_countries_same (d : Db) : set_countries (countries d) d = d.
Proof. now destruct d. Qed.

(** Start-up leaves a country table that is not empty. *)
Lemma bootstrap_countries (w : World) :
  countries (db (snd (bootstrap w)))
  = match countries (db w) with
    | [] => map new_country defaultCountries
    | cs => cs
    end
  /\ countries (db (snd (bootstrap w))) <> [].
Proof.
  destruct (bootstrap_run w) as (w1 & _ & Hdb & _ & _ & _ & ->).
  destruct (initializeGrants_spec w1) as (_ & -> & _). rewrite Hdb. cbn [countries set_countries].
  split; [reflexivity|]. destruct (countries (db w)); discriminate.
Qed.

(** A second start-up changes nothing in the database. *)
Lemma bootstrap_twice (w : World) :
  db (snd (bootstrap (snd (bootstrap w)))) = db (snd (bootstrap w)).
Proof.
  destruct (bootstrap_countries w) as [_ Hne].
  destruct (bootstrap_run w) as (w1 & _ & Hdb1 & _ & _ & _ & E1).
  set (w2 := snd (bootstrap w)) in *.
  destruct (bootstrap_run w2) as (w3 & _ & Hdb3 & _ & _ & _ & ->).
  assert (D3 : db w3 = db w2).
  { rewrite Hdb3. destruct (countries (db w2)) eqn:C; [contradiction|].
    rewrite <- C. apply set_countries_same. }
  destruct (initializeGrants_spec w3) as (A1 & A2 & A3 & A4 & A5 & A6).
  rewrite D3 in *.
  apply db_ext; try assumption.
  destruct (grants (db w2)) as [|g gs] eqn:G2; [|exact A6].
  destruct (initializeGrants_spec w1) as (_ & B2 & _ & _ & _ & B6).
  rewrite <- E1 in B2, B6. rewrite G2 in B6. rewrite B2 in A6.
  destruct (grants (db w1)); [|discriminate].
  destruct (has_id Country.id "usa" (countries (db w1))); [contradiction | exact A6].
Qed.

(** C6, as the code has it.  Start-up with both tables stocked inserts
    nothing, and a second start-up never changes the database.  On an empty
    country table it stores the 14 default countries.  On an empty grant
    table it stores the 8 sample grants provided the countries they refer
    to are stored by then and the generated ids differ; on a database with
    neither countries nor grants that comes down to the ids. *)
Theorem C6_seeding (w : World) :
  let w' := snd (bootstrap w) in
  (countries (db w) <> [] -> grants (db w) <> [] -> db w' = db w)
  /\ db (snd (bootstrap w')) = db w'
  /\ (countries (db w) = [] ->
      countries (db w') = map new_country defaultCountries
      /\ List.length (countries (db w')) = 14%nat)
  /\ (grants (db w) = [] ->
      (forall g, In g sampleGrants ->
         has_id Country.id (InsertGrant.countryId g) (countries (db w')) = true) ->
      NoDup (map (uuids w) (seq (uuid_pos w) 8)) ->
      grants (db w') = grant_rows sampleGrants (uuids w) (uuid_pos w) (clock w)
      /\ List.length (grants (db w')) = 8%nat)
  /\ (countries (db w) = [] -> grants (db w) = [] ->
      NoDup (map (uuids w) (seq (uuid_pos w) 8)) ->
      countries (db w') = map new_country defaultCountries
      /\ grants (db w') = grant_rows sampleGrants (uuids w) (uuid_pos w) (clock w)).
Proof.
  cbv zeta.
  assert (Hgrants :
    grants (db w) = [] ->
    (forall g, In g sampleGrants ->
       has_id Country.id (InsertGrant.countryId g)
              (countries (db (snd (bootstrap w)))) = true) ->
    NoDup (map (uuids w) (seq (uuid_pos w) 8)) ->
    grants (db (snd (bootstrap w)))
    = grant_rows sampleGrants (uuids w) (uuid_pos w) (clock w)).
  { intros G Hfk Hfresh.
    destruct (bootstrap_run w) as (w1 & _ & Hdb1 & Hu & Hp & Hc & E).
    rewrite E in *.
    destruct (initializeGrants_spec w1) as (_ & C1 & _).
    destruct (initializeGrants_run w1) as [_ R]. rewrite R in *.
    assert (G1 : grants (db w1) = []) by (rewrite Hdb1; exact G).
    rewrite G1 in *.
    rewrite after_seeding_all.
    - rewrite after_call_db, G1. cbn [app].
      change (uuids (after_call Call_getAllGrants w1)) with (uuids w1).
      change (uuid_pos (after_call Call_getAllGrants w1)) with (uuid_pos w1).
      change (clock (after_call Call_getAllGrants w1)) with (clock w1).
      now rewrite Hu, Hp, Hc.
    - intros g Hg. split; [now apply sampleGrants_fit|].
      rewrite after_call_db. rewrite <- C1. now apply Hfk.
    - rewrite after_call_db, G1. cbn [map app].
      change (uuids (after_call Call_getAllGrants w1)) with (uuids w1).
      change (uuid_pos (after_call Call_getAllGrants w1)) with (uuid_pos w1).
      rewrite Hu, Hp. exact Hfresh. }
  split; [|split; [|split; [|split]]].
  - intros Hc Hg.
    destruct (bootstrap_run w) as (w1 & _ & Hdb1 & _ & _ & _ & ->).
    assert (D1 : db w1 = db w).
    { rewrite Hdb1. destruct (countries (db w)) eqn:C; [contradiction|].
      rewrite <- C. apply set_countries_same. }
    destruct (initializeGrants_spec w1) as (A1 & A2 & A3 & A4 & A5 & A6).
    rewrite D1 in *. apply db_ext; try assumption.
    destruct (grants (db w)); [contradiction | exact A6].
  - apply bootstrap_twice.
  - intros C. destruct (bootstrap_countries w) as [-> _]. rewrite C.
    split; reflexivity.
  - intros G Hfk Hfresh. rewrite (Hgrants G Hfk Hfresh). split; reflexivity.
  - intros C G Hfresh. destruct (bootstrap_countries w) as [Hc _]. rewrite C in Hc.
    split; [exact Hc|]. apply (Hgrants G); [|exact Hfresh].
    rewrite Hc. apply forallb_forall. reflexivity.
Qed.

Lemma C6_seeding_witness :
  db (snd (bootstrap seeded_world)) = db seeded_world
  /\ db (snd (bootstrap (snd (bootstrap fresh_world)))) = db (snd (bootstrap fresh_world))
  /\ (countries (db (snd (bootstrap fresh_world))) = map new_country defaultCountries
      /\ grants (db (snd (bootstrap fresh_world)))
         = grant_rows sampleGrants (uuids fresh_world) (uuid_pos fresh_world)
                      (clock fresh_world))
  /\ (grants (db (snd (bootstrap fresh_world)))
      = grant_rows sampleGrants (uuids fresh_world) (uuid_pos fresh_world)
                   (clock fresh_world)
      /\ List.length (grants (db (snd (bootstrap fresh_world)))) = 8%nat)
  /\ (countries (db (snd (bootstrap fresh_world))) = map new_country defaultCountries
      /\ List.length (countries (db (snd (bootstrap fresh_world)))) = 14%nat).
Proof.
  assert (F : NoDup (map (uuids fresh_world) (seq (uuid_pos fresh_world) 8))).
  { cbn. repeat (constructor;
                 [cbn; intros H; repeat (destruct H as [H|H]; [discriminate H|]); exact H|]).
    constructor. }
  split; [| split; [| split; [| split]]].
  - apply (proj1 (C6_seeding seeded_world)).
    + vm_compute. discriminate.
    + vm_compute. discriminate.
  - apply (proj1 (proj2 (C6_seeding fresh_world))).
  - apply (proj2 (proj2 (proj2 (proj2 (C6_seeding fresh_world))))).
    + reflexivity.
    + reflexivity.
    + exact F.
  - apply (proj1 (proj2 (proj2 (proj2 (C6_seeding fresh_world))))).
    + reflexivity.
    + apply forallb_forall. vm_compute. reflexivity.
    + exact F.
  - apply (proj1 (proj2 (proj2 (C6_seeding fresh_world)))). reflexivity.
Defined.

(** C6 as stated fails: a grant refers to its country, so on an empty grant
    table the samples go in only as far as their countries are stored.
    After a country seeding that stopped at three rows, two grants are
    stored, not eight. *)
Lemma C6_counterexample :
  grants (db partly_seeded_world) = []
  /\ map Country.id (countries (db partly_seeded_world)) = ["usa"; "uk"; "canada"]
  /\ map Grant.title (grants (db (snd (bootstrap partly_seeded_world))))
     = ["Senior Citizens Support Grant"; "Emergency Financial Relief Grant"]
  /\ List.length (grants (db (snd (bootstrap partly_seeded_world)))) <> 8%nat.
Proof. repeat split. vm_compute. discriminate. Qed.

(** ** Statistics *)

(** *** The double arithmetic of the success rate *)

Lemma rne_div_error (n d : Z) :
  0 < d -> - d <= 2 * (F64.rne_div n d * d - n) <= d.
Proof.
  intros Hd. unfold F64.rne_div.
  pose proof (Z.div_mod n d ltac:(lia)) as E.
  pose proof (Z.mod_pos_bound n d Hd) as B.
  destruct (2 * (n mod d) <? d) eqn:C1; [apply Z.ltb_lt in C1; nia|].
  apply Z.ltb_ge in C1.
  destruct (d <? 2 * (n mod d)) eqn:C2; [apply Z.ltb_lt in C2; nia|].
  apply Z.ltb_ge in C2.
  destruct (Z.even (n / d)); nia.
Qed.

Lemma rne_div_range (n d lo hi : Z) :
  0 < d -> lo * d <= n -> n <= hi * d -> lo <= F64.rne_div n d <= hi.
Proof.
  intros Hd Hlo Hhi. pose proof (rne_div_error n d Hd) as E. nia.
Qed.

Lemma of_Z_exact (n : Z) : 0 <= n < 2 ^ 53 -> F64.of_Z n = F64.mk n 0.
Proof.
  intros [H0 H1]. unfold F64.of_Z, F64.round53.
  assert (L : Z.log2 n < 53).
  { destruct (Z.eq_dec n 0) as [->|N]; [cbn; lia|].
    apply Z.log2_lt_pow2; lia. }
  destruct (Z.log2 n - 52 <=? 0) eqn:C; [reflexivity|].
  apply Z.leb_gt in C. lia.
Qed.

(** For a ratio of at most one, the exponent found is not positive and
    scales the ratio into [1, 2). *)
Lemma ilog2_ratio_spec (n d : Z) :
  0 < n <= d ->
  let il := F64.ilog2_ratio n d in
  il <= 0 /\ d <= n * 2 ^ (- il) /\ n * 2 ^ (- il) < 2 * d.
Proof.
  intros [Hn Hnd]. cbv zeta. unfold F64.ilog2_ratio.
  pose proof (Z.log2_spec n Hn) as [An Bn].
  pose proof (Z.log2_spec d ltac:(lia)) as [Ad Bd].
  pose proof (Z.log2_le_mono n d Hnd) as Hl.
  pose proof (Z.log2_nonneg n) as Nn.
  rewrite Z.pow_succ_r in Bn, Bd by apply Z.log2_nonneg.
  set (a := Z.log2 n) in *. set (b := Z.log2 d) in *.
  destruct (0 <=? a - b) eqn:C.
  - apply Z.leb_le in C. assert (E : a - b = 0) by lia. rewrite E.
    assert (Eab : a = b) by lia. rewrite Eab in *.
    change (2 ^ 0) with 1. rewrite Z.mul_1_r.
    destruct (d <=? n) eqn:C2.
    + apply Z.leb_le in C2. change (2 ^ (- 0)) with 1. lia.
    + apply Z.leb_gt in C2. change (- (0 - 1)) with 1. change (2 ^ 1) with 2. lia.
  - apply Z.leb_gt in C.
    assert (P : 2 ^ b = 2 ^ a * 2 ^ (- (a - b))).
    { rewrite <- Z.pow_add_r by lia. f_equal. lia. }
    assert (Ppos : 0 < 2 ^ (- (a - b))) by (apply Z.pow_pos_nonneg; lia).
    destruct (d <=? n * 2 ^ (- (a - b))) eqn:C2.
    + apply Z.leb_le in C2. split; [lia|]. split; [exact C2|]. nia.
    + apply Z.leb_gt in C2.
      replace (- (a - b - 1)) with (Z.succ (- (a - b))) by lia.
      rewrite Z.pow_succ_r by lia. split; [lia|]. split; nia.
Qed.

Lemma rate_of_zero (t : Z) : 0 < t < 2 ^ 53 -> rate_of 0 t = 0.
Proof.
  intros H. unfold rate_of. rewrite (of_Z_exact 0), (of_Z_exact t) by lia.
  reflexivity.
Qed.

(** Below 2^43 rows the two roundings of the double arithmetic cannot move
    the product across a half: the rate is a nearest integer of the exact
    percentage. *)
Lemma rate_of_nearest (s t : Z) :
  0 <= s <= t -> 0 < t < 2 ^ 43 ->
  nearest_integer (rate_of s t) (100 * s) t.
Proof.
  intros [Hs Hst] [Ht Hbound]. unfold nearest_integer.
  destruct (Z.eq_dec s 0) as [->|Hs0].
  { rewrite rate_of_zero by lia. lia. }
  unfold rate_of.
  rewrite (of_Z_exact s), (of_Z_exact t), (of_Z_exact 100) by lia.
  unfold F64.div. cbn [F64.mant F64.expo].
  replace ((s <=? 0) || (t <=? 0)) with false
    by (symmetry; apply orb_false_iff; split; apply Z.leb_gt; lia).
  pose proof (ilog2_ratio_spec s t ltac:(lia)) as (Hil & Hlo & Hhi).
  set (il := F64.ilog2_ratio s t) in *.
  destruct (0 <=? il - 52) eqn:C; [apply Z.leb_le in C; lia|]. clear C.
  replace (- (il - 52)) with (52 + - il) by lia.
  rewrite Z.pow_add_r by lia.
  set (X := 2 ^ (- il)) in *.
  assert (HX : 0 < X) by (apply Z.pow_pos_nonneg; lia).
  set (n1 := s * (2 ^ 52 * X)).
  pose proof (rne_div_error n1 t Ht) as E1.
  assert (R1 : 2 ^ 52 <= F64.rne_div n1 t <= 2 ^ 53).
  { apply rne_div_range; [exact Ht | unfold n1; nia | unfold n1; nia]. }
  set (q := F64.rne_div n1 t) in *.
  unfold F64.mul, F64.round53. cbn [F64.mant F64.expo].
  assert (L : 58 <= Z.log2 (q * 100) < 60).
  { split.
    - apply Z.log2_le_pow2; lia.
    - apply Z.log2_lt_pow2; lia. }
  set (k := Z.log2 (q * 100) - 52) in *.
  destruct (k <=? 0) eqn:C; [apply Z.leb_le in C; lia|]. clear C.
  assert (HK : 64 <= 2 ^ k <= 128).
  { split.
    - change 64 with (2 ^ 6). apply Z.pow_le_mono_r; lia.
    - change 128 with (2 ^ 7). apply Z.pow_le_mono_r; lia. }
  pose proof (rne_div_error (q * 100) (2 ^ k) ltac:(lia)) as E2.
  set (m := F64.rne_div (q * 100) (2 ^ k)) in *.
  unfold F64.Math_round. cbn [F64.mant F64.expo].
  destruct (0 <=? il - 52 + 0 - 0 + 0 + k) eqn:C; [apply Z.leb_le in C; lia|]. clear C.
  set (g := - (il - 52 + 0 - 0 + 0 + k)).
  assert (Hg : 45 <= g) by (unfold g; lia).
  assert (HD : 2 ^ 45 <= 2 ^ g) by (apply Z.pow_le_mono_r; lia).
  assert (HA : 2 ^ 52 * X = 2 ^ k * 2 ^ g).
  { unfold X, g. rewrite <- !Z.pow_add_r by lia. f_equal. lia. }
  set (D := 2 ^ g) in *. set (K := 2 ^ k) in *.
  pose proof (Z.div_mod (2 * m + D) (2 * D) ltac:(lia)) as E3.
  pose proof (Z.mod_pos_bound (2 * m + D) (2 * D) ltac:(lia)) as B3.
  set (r := (2 * m + D) / (2 * D)) in *.
  unfold n1 in E1. rewrite HA in E1.
  assert (T43 : 2 ^ 43 * 4 = 2 ^ 45) by reflexivity.
  apply Z.abs_le. split.
  - (* (2r + 1) t >= 200 s *)
    assert (U1 : 2 * m < (2 * r + 1) * D) by nia.
    assert (U2 : 200 * q - K <= 2 * m * K) by nia.
    assert (U3 : 2 * s * (K * D) - t <= 2 * q * t) by nia.
    assert (U4 : 2 * m * K * t < (2 * r + 1) * D * K * t) by nia.
    assert (U5 : 200 * q * t - K * t <= 2 * m * K * t) by nia.
    assert (U6 : 200 * s * (K * D) - 100 * t <= 200 * q * t) by nia.
    assert (U7 : 200 * s * (K * D) - (100 + K) * t < (2 * r + 1) * t * (K * D)) by nia.
    assert (U8 : (100 + K) * t < K * D) by nia.
    assert (U9 : K * D * (200 * s - (2 * r + 1) * t) < K * D * 1) by nia.
    assert (U10 : 200 * s - (2 * r + 1) * t < 1).
    { apply (Z.mul_lt_mono_pos_l (K * D)); [nia | exact U9]. }
    lia.
  - (* (2r - 1) t <= 200 s *)
    assert (V1 : (2 * r - 1) * D <= 2 * m) by nia.
    assert (V2 : 2 * m * K <= 200 * q + K) by nia.
    assert (V3 : 2 * q * t <= 2 * s * (K * D) + t) by nia.
    assert (V4 : (2 * r - 1) * D * K * t <= 2 * m * K * t) by nia.
    assert (V5 : 2 * m * K * t <= 200 * q * t + K * t) by nia.
    assert (V6 : 200 * q * t <= 200 * s * (K * D) + 100 * t) by nia.
    assert (V7 : (2 * r - 1) * t * (K * D) <= 200 * s * (K * D) + (100 + K) * t) by nia.
    assert (V8 : (100 + K) * t < K * D) by nia.
    assert (V9 : K * D * ((2 * r - 1) * t - 200 * s) < K * D * 1) by nia.
    assert (V10 : (2 * r - 1) * t - 200 * s < 1).
    { apply (Z.mul_lt_mono_pos_l (K * D)); [nia | exact V9]. }
    lia.
Qed.

(** At an exact half the two roundings decide: 29 of 200 is 14.5 percent
    and comes out as 14, 1 of 8 is 12.5 percent and comes out as 13. *)
Example rate_of_ties : rate_of 29 200 = 14 /\ rate_of 1 8 = 13.
Proof. split; vm_compute; reflexivity. Qed.

(** Far beyond any table that can be stored the roundings do cross a half:
    the exact percentage here is below 99.5, the rate computed is 100. *)
Example rate_of_far :
  rate_of 7690115752093145 7728759549842357 = 100
  /\ ~ nearest_integer 100 (100 * 7690115752093145) 7728759549842357.
Proof.
  split; [vm_compute; reflexivity|].
  unfold nearest_integer. intros H. vm_compute in H. apply H. reflexivity.
Qed.

Lemma count_filter_le {A : Type} (f : A -> bool) (l : list A) :
  0 <= count (filter f l) <= count l.
Proof.
  unfold count. split; [lia|]. apply Nat2Z.inj_le.
  induction l as [|x l IH]; cbn; [lia|]. destruct (f x); cbn; lia.
Qed.

Lemma getGrantStats_run (w : World) :
  getGrantStats w
  = (Ok (mkGrantStats
           (COALESCE (SUM (map GrantAward.amount (grantAwards (db w)))) 0)
           (count (grantAwards (db w)))
           (count (filter is_active (countries (db w))))
           (F64.Math_round
              (if 0 <? count (applications (db w))
               then F64.mul
                      (F64.div
                         (F64.of_Z
                            (count (filter (fun a => is_selected (Application.status a))
                                           (applications (db w)))))
                         (F64.of_Z (count (applications (db w)))))
                      (F64.of_Z 100)
               else F64.of_Z 0))),
     after_call Call_getGrantStats w).
Proof. reflexivity. Qed.

(** C4.  [getGrantStats] returns the sum of the award amounts (0 without
    awards), the number of awards, the number of active countries, and as
    success rate 0 without applications and otherwise [Math.round] of the
    selected count divided by the total count, times 100, all in doubles;
    below 2^43 applications that is an integer nearest to the exact
    percentage.  The call reads only. *)
Theorem C4_grant_stats (w : World) :
  let d := db w in
  let total := count (applications d) in
  let selectedCount :=
    count (filter (fun a => is_selected (Application.status a)) (applications d)) in
  exists stats,
    getGrantStats w = (Ok stats, after_call Call_getGrantStats w)
    /\ totalGrantsDistributed stats
       = fold_right Z.add 0 (map GrantAward.amount (grantAwards d))
    /\ (grantAwards d = [] -> totalGrantsDistributed stats = 0)
    /\ totalRecipients stats = count (grantAwards d)
    /\ totalCountries stats = count (filter is_active (countries d))
    /\ (total = 0 -> successRate stats = 0)
    /\ (0 < total -> successRate stats = rate_of selectedCount total)
    /\ (0 < total < 2 ^ 43 ->
        nearest_integer (successRate stats) (100 * selectedCount) total).
Proof.
  cbv zeta. eexists. split; [apply getGrantStats_run|].
  cbn [totalGrantsDistributed totalRecipients totalCountries successRate].
  assert (Hsum : COALESCE (SUM (map GrantAward.amount (grantAwards (db w)))) 0
                 = fold_right Z.add 0 (map GrantAward.amount (grantAwards (db w)))).
  { destruct (map GrantAward.amount (grantAwards (db w))); reflexivity. }
  assert (Hrate : 0 < count (applications (db w)) ->
                  F64.Math_round
                    (if 0 <? count (applications (db w))
                     then F64.mul
                            (F64.div
                               (F64.of_Z
                                  (count (filter (fun a => is_selected (Application.status a))
                                                 (applications (db w)))))
                               (F64.of_Z (count (applications (db w)))))
                            (F64.of_Z 100)
                     else F64.of_Z 0)
                  = rate_of (count (filter (fun a => is_selected (Application.status a))
                                           (applications (db w))))
                            (count (applications (db w)))).
  { intros H. apply Z.ltb_lt in H. now rewrite H. }
  repeat split.
  - exact Hsum.
  - intros E. now rewrite E.
  - intros E. now rewrite E.
  - exact Hrate.
  - intros [H0 H1]. rewrite (Hrate H0). apply rate_of_nearest; [|lia].
    apply count_filter_le.
Qed.

Lemma C4_grant_stats_witness :
  exists stats,
    getGrantStats running_world = (Ok stats, after_call Call_getGrantStats running_world)
    /\ totalGrantsDistributed stats = 2500000
    /\ totalRecipients stats = 1
    /\ totalCountries stats = 14
    /\ successRate stats = rate_of 1 1
    /\ nearest_integer (successRate stats) (100 * 1) 1.
Proof.
  destruct (C4_grant_stats running_world)
    as (stats & Hrun & Hsum & _ & Hrec & Hcs & _ & Hrate & Hnear).
  exists stats. split; [exact Hrun|].
  split; [exact Hsum|]. split; [exact Hrec|]. split; [exact Hcs|].
  split.
  - apply Hrate. reflexivity.
  - apply Hnear. split; reflexivity.
Defined.

(* ===================================================================== *)
(** * Further properties *)
(* ===================================================================== *)

(** ** Sorting and joining *)

Lemma order_by_perm {A : Type} (le : A -> A -> bool) (l : list A) :
  Permutation (order_by le l) l.
Proof.
  unfold order_by. induction l as [|x l IH]; cbn; [constructor|].
  transitivity (x :: fold_right (insert_by le) [] l); [|now constructor].
  clear IH. generalize (fold_right (insert_by le) [] l). intros s.
  induction s as [|y s IH]; cbn; [reflexivity|].
  destruct (le x y); [reflexivity|].
  transitivity (y :: x :: s); [now constructor | apply perm_swap].
Qed.

Lemma insert_by_sorted {A : Type} (le : A -> A -> bool) (x : A) (l : list A) :
  (forall a b, le a b = true \/ le b a = true) ->
  (forall a b c, le a b = true -> le b c = true -> le a c = true) ->
  StronglySorted (fun a b => le a b = true) l ->
  StronglySorted (fun a b => le a b = true) (insert_by le x l).
Proof.
  intros Htot Htr Hs. induction Hs as [|y l Hs IH Hy]; cbn.
  - repeat constructor.
  - destruct (le x y) eqn:E.
    + constructor; [now constructor|]. constructor; [exact E|].
      apply Forall_forall. intros z Hz. rewrite Forall_forall in Hy.
      apply (Htr _ y); [exact E | now apply Hy].
    + constructor; [exact IH|]. apply Forall_forall. intros z Hz.
      apply In_insert_by in Hz. destruct Hz as [-> | Hz].
      * destruct (Htot x y) as [H|H]; [congruence | exact H].
      * rewrite Forall_forall in Hy. now apply Hy.
Qed.

(** [ORDER BY] sorts, for an order that is total and transitive. *)
Lemma order_by_sorted {A : Type} (le : A -> A -> bool) (l : list A) :
  (forall a b, le a b = true \/ le b a = true) ->
  (forall a b c, le a b = true -> le b c = true -> le a c = true) ->
  StronglySorted (fun a b => le a b = true) (order_by le l).
Proof.
  intros Htot Htr. unfold order_by. induction l as [|x l IH]; cbn; [constructor|].
  now apply insert_by_sorted.
Qed.

Lemma desc_total (a b : option Z) : desc a b = true \/ desc b a = true.
Proof.
  destruct a as [x|], b as [y|]; cbn; auto.
  destruct (Z.leb_spec y x); [now left | right; apply Z.leb_le; lia].
Qed.

Lemma desc_trans (a b c : option Z) :
  desc a b = true -> desc b c = true -> desc a c = true.
Proof.
  destruct a as [x|], b as [y|], c as [z|]; cbn; try easy.
  rewrite !Z.leb_le. lia.
Qed.

Lemma ascii_compare_spec (a b : ascii) :
  match Ascii.compare a b with
  | Eq => N_of_ascii a = N_of_ascii b
  | Lt => (N_of_ascii a < N_of_ascii b)%N
  | Gt => (N_of_ascii b < N_of_ascii a)%N
  end.
Proof.
  unfold Ascii.compare. destruct (N.compare_spec (N_of_ascii a) (N_of_ascii b)); assumption.
Qed.

Lemma string_leb_trans (a b c : string) :
  String.leb a b = true -> String.leb b c = true -> String.leb a c = true.
Proof.
  unfold String.leb. revert b c.
  induction a as [|x a IH]; intros [|y b] [|z c]; cbn; try easy.
  pose proof (ascii_compare_spec x y) as Hxy.
  pose proof (ascii_compare_spec y z) as Hyz.
  pose proof (ascii_compare_spec x z) as Hxz.
  destruct (Ascii.compare x y), (Ascii.compare y z), (Ascii.compare x z);
    try easy; try (exfalso; lia).
  apply IH.
Qed.

(** A join on a unique key pairs every left row with the one row it refers
    to, or with NULL. *)
Lemma left_join_unique {A B : Type} (on : A -> B -> bool) (f : A -> option string)
    (key : B -> string) (l : list A) (r : list B) :
  (forall a b, on a b = match f a with
                        | Some k => (k =? key b)%string
                        | None => false
                        end) ->
  NoDup (map key r) ->
  left_join on l r
  = map (fun a => (a, match f a with
                      | Some k => find_by key k r
                      | None => None
                      end)) l.
Proof.
  intros Hon Hr. unfold left_join.
  set (g := fun a => match filter (on a) r with
                     | [] => [(a, None)]
                     | ms => map (fun b => (a, Some b)) ms
                     end).
  set (h := fun a => (a, match f a with
                         | Some k => find_by key k r
                         | None => None
                         end)).
  induction l as [|a l IH]; cbn [flat_map map]; [reflexivity|]. rewrite IH. clear IH.
  assert (G : g a = [h a]); [| now rewrite G].
  unfold g, h. clear g h.
  replace (filter (on a) r)
    with (match (match f a with Some k => find_by key k r | None => None end) with
          | Some b => [b]
          | None => []
          end).
  { destruct (match f a with Some k => find_by key k r | None => None end); reflexivity. }
  destruct (f a) as [k|] eqn:Fa.
  - assert (E : forall b, on a b = (key b =? k)%string).
    { intros b. rewrite Hon, Fa. apply String.eqb_sym. }
    rewrite (filter_ext _ _ E). unfold find_by. clear E Hon Fa.
    induction r as [|b r IH]; cbn; [reflexivity|].
    cbn in Hr. apply NoDup_cons_iff in Hr. destruct Hr as [Hb Hr].
    destruct (String.eqb_spec (key b) k) as [E|N].
    + f_equal. subst k. clear IH.
      induction r as [|c r IH]; cbn; [reflexivity|].
      destruct (String.eqb_spec (key c) (key b)) as [E|_].
      * exfalso. apply Hb. left. exact E.
      * apply IH. { intros X. apply Hb. now right. }
        now apply NoDup_cons_iff in Hr.
    + now apply IH.
  - assert (E : forall b, on a b = false) by (intros b; now rewrite Hon, Fa).
    clear Hon. induction r as [|b r IH]; cbn; [reflexivity|].
    rewrite E. apply IH. cbn in Hr. now apply NoDup_cons_iff in Hr.
Qed.

Lemma NoDup_snoc {A : Type} (l : list A) (x : A) :
  NoDup l -> ~ In x l -> NoDup (l ++ [x])%list.
Proof.
  induction 1 as [|y l Hy Hl IH]; cbn; intros Hx.
  - constructor; [easy | constructor].
  - constructor.
    + rewrite in_app_iff. intros [H|[<-|[]]]; [now apply Hy | apply Hx; now left].
    + apply IH. intros H. apply Hx. now right.
Qed.

(** ** The listing routes *)

Lemma sorted_map {A B : Type} (f : A -> B) (R : B -> B -> Prop) (l : list A) :
  StronglySorted (fun a b => R (f a) (f b)) l -> StronglySorted R (map f l).
Proof.
  induction 1 as [|a l Hs IH Ha]; cbn; constructor; [exact IH|].
  apply Forall_forall. intros b Hb. apply in_map_iff in Hb.
  destruct Hb as [x [<- Hx]]. rewrite Forall_forall in Ha. now apply Ha.
Qed.

Lemma order_by_newest_first {A : Type} (stamp : A -> option Z) (l : list A) :
  newest_first stamp (order_by (fun a b => desc (stamp a) (stamp b)) l).
Proof.
  apply order_by_sorted.
  - intros a b. apply desc_total.
  - intros a b c. apply desc_trans.
Qed.







Lemma string_leb_total (a b : string) :
  String.leb a b = true \/ String.leb b a = true.
Proof.
  unfold String.leb. rewrite (String.compare_antisym b a).
  destruct (String.compare a b); cbn; auto.
Qed.

Lemma is_active_iff (c : Country.t) :
  is_active c = true <-> Country.active c = Some true.
Proof.
  unfold is_active. destruct (Country.active c) as [[|]|]; split; congruence.
Qed.

(** X3.  GET /api/countries answers 200 with exactly the countries whose
    [active] is true (a NULL [active] does not count), each as often as it
    is stored, in ascending order of name; it stores nothing. *)
Theorem X3_active_countries (w : World) :
  exists cs,
    GET_api_countries w = (Ok (mkAnswer 200 (Json_countries cs)), w)
    /\ Permutation cs (filter is_active (countries (db w)))
    /\ (forall c, In c cs <-> In c (countries (db w)) /\ Country.active c = Some true)
    /\ by_name Country.name cs.
Proof.
  unfold GET_api_countries, getActiveCountries, answer. run_monad.
  eexists. split; [reflexivity|]. split; [apply order_by_perm|]. split.
  - intros c. rewrite (In_order_by _ c), filter_In, is_active_iff. reflexivity.
  - apply order_by_sorted.
    + intros a b. apply string_leb_total.
    + intros a b c. apply string_leb_trans.
Qed.

Lemma filter_left_join {A B : Type} (on : A -> B -> bool) (p : A -> bool)
    (l : list A) (r : list B) :
  filter (fun x => p (fst x)) (left_join on l r) = left_join on (filter p l) r.
Proof.
  unfold left_join. induction l as [|a l IH]; cbn [flat_map filter]; [reflexivity|].
  rewrite filter_app, IH.
  assert (G : forall rows : list (A * option B),
             (forall x, In x rows -> fst x = a) ->
             filter (fun x => p (fst x)) rows = if p a then rows else []).
  { induction rows as [|x rows IHr]; intros Hr; cbn.
    - now destruct (p a).
    - rewrite (Hr x (or_introl eq_refl)), IHr by (intros y Hy; apply Hr; now right).
      now destruct (p a). }
  rewrite G.
  - destruct (p a); reflexivity.
  - intros x Hx. destruct (filter (on a) r) as [|m ms].
    + destruct Hx as [<-|[]]. reflexivity.
    + apply in_map_iff in Hx. destruct Hx as [b [<- _]]. reflexivity.
Qed.


(** X8.  GET /api/awards answers 200 with exactly the stored awards of the
    requester, each as often as it is stored, the latest award first; no
    award of another user is in the answer, and nothing is stored. *)
Theorem X8_own_awards (userId : string) (w : World) :
  exists aws,
    GET_api_awards userId w = (Ok (mkAnswer 200 (Json_awards aws)), w)
    /\ Permutation aws
         (filter (fun a => (GrantAward.userId a =? userId)%string) (grantAwards (db w)))
    /\ (forall a, In a aws <-> In a (grantAwards (db w)) /\ GrantAward.userId a = userId)
    /\ newest_first GrantAward.awardedAt aws.
Proof.
  unfold GET_api_awards, getAwardsByUser, answer. run_monad.
  eexists. split; [reflexivity|]. split; [apply order_by_perm|]. split.
  - intros a. rewrite (In_order_by _ a), filter_In, String.eqb_eq. reflexivity.
  - apply order_by_newest_first.
Qed.

Ltac distinct :=
  vm_compute;
  repeat (constructor;
          [cbn; let H := fresh in
                intros H; repeat (destruct H as [H|H]; [discriminate H|]); exact H|]);
  constructor.

Lemma applications_joined_unique (d : Db) :
  NoDup (map Grant.id (grants d)) ->
  NoDup (map Country.id (countries d)) ->
  NoDup (map User.id (users d)) ->
  map with_details (applications_joined d) = map (details_of d) (applications d).
Proof.
  intros Hg Hc Hu. unfold applications_joined.
  rewrite (left_join_unique _ (fun a => Some (Application.grantId a)) Grant.id
             (applications d) (grants d)) by (reflexivity || exact Hg).
  rewrite (left_join_unique _
             (fun r : Application.t * option Grant.t =>
                match snd r with
                | Some g => Some (Grant.countryId g)
                | None => None
                end) Country.id _ (countries d))
    by ((intros [a [g|]] b; reflexivity) || exact Hc).
  rewrite (left_join_unique _
             (fun r : (Application.t * option Grant.t) * option Country.t =>
                Some (Application.userId (fst (fst r)))) User.id _ (users d))
    by (reflexivity || exact Hu).
  rewrite !map_map. apply map_ext. intros a.
  unfold with_details, details_of. cbn [fst snd].
  destruct (find_by Grant.id (Application.grantId a) (grants d)); reflexivity.
Qed.

Lemma filter_joined (d : Db) (p : Application.t -> bool) :
  filter (fun r => p (fst (fst (fst r)))) (applications_joined d)
  = applications_joined (set_applications (filter p (applications d)) d).
Proof.
  unfold applications_joined. cbn [applications grants countries users set_applications].
  rewrite <- (filter_left_join _ p).
  rewrite <- (filter_left_join _ (fun r : Application.t * option Grant.t => p (fst r))).
  rewrite <- (filter_left_join _
                (fun r : (Application.t * option Grant.t) * option Country.t =>
                   p (fst (fst r)))).
  reflexivity.
Qed.

Lemma getApplicationsByUser_unique (userId : string) (d : Db) :
  NoDup (map Grant.id (grants d)) ->
  NoDup (map Country.id (countries d)) ->
  NoDup (map User.id (users d)) ->
  Permutation
    (map with_details
       (order_by by_submittedAt_desc
          (filter (fun r => (Application.userId (fst (fst (fst r))) =? userId)%string)
                  (applications_joined d))))
    (map (details_of d)
         (filter (fun a => (Application.userId a =? userId)%string) (applications d))).
Proof.
  intros Hg Hc Hu.
  rewrite (Permutation_map with_details (order_by_perm _ _)).
  rewrite (filter_joined d (fun a => (Application.userId a =? userId)%string)).
  rewrite applications_joined_unique by assumption. reflexivity.
Qed.

Lemma own_applications (userId : string) (w : World) :
  NoDup (map Grant.id (grants (db w))) ->
  NoDup (map Country.id (countries (db w))) ->
  NoDup (map User.id (users (db w))) ->
  exists apps,
    GET_api_applications userId w = (Ok (mkAnswer 200 (Json_applications apps)), w)
    /\ Permutation apps
         (map (details_of (db w))
              (filter (fun a => (Application.userId a =? userId)%string)
                      (applications (db w))))
    /\ (forall a, In a apps -> Application.userId (awd_application a) = userId)
    /\ newest_first (fun a => Application.submittedAt (awd_application a)) apps.
Proof.
  intros Hg Hc Hu.
  unfold GET_api_applications, getApplicationsByUser, answer. run_monad.
  eexists. split; [reflexivity|].
  pose proof (getApplicationsByUser_unique userId (db w) Hg Hc Hu) as P.
  split; [exact P|]. split.
  - intros a Ha. apply (Permutation_in _ P), in_map_iff in Ha.
    destruct Ha as [x [<- Hx]]. apply filter_In in Hx.
    cbn [details_of awd_application]. now apply String.eqb_eq.
  - apply sorted_map. cbn [with_details awd_application].
    apply (order_by_newest_first
             (fun r : ((Application.t * option Grant.t) * option Country.t)
                      * option User.t =>
                Application.submittedAt (fst (fst (fst r))))).
Qed.

(** X5.  GET /api/applications.  When the ids of grants, countries and users are
    unique, the answer lists exactly the stored applications of the
    requester, each once per stored row and each with the grant, the
    grant's country and the user it refers to, the latest submission first;
    no application of another user is in the answer, and nothing is
    stored. *)
Theorem X5_own_applications (userId : string) (w : World) :
  NoDup (map Grant.id (grants (db w))) ->
  NoDup (map Country.id (countries (db w))) ->
  NoDup (map User.id (users (db w))) ->
  exists apps,
    GET_api_applications userId w = (Ok (mkAnswer 200 (Json_applications apps)), w)
    /\ Permutation apps
         (map (details_of (db w))
              (filter (fun a => (Application.userId a =? userId)%string)
                      (applications (db w))))
    /\ (forall a, In a apps -> Application.userId (awd_application a) = userId)
    /\ newest_first (fun a => Application.submittedAt (awd_application a)) apps.
Proof. exact (own_applications userId w). Qed.

Lemma X5_own_applications_witness :
  exists apps,
    GET_api_applications "jane-sub" running_world
    = (Ok (mkAnswer 200 (Json_applications apps)), running_world)
    /\ Permutation apps
         (map (details_of (db running_world))
              (filter (fun a => (Application.userId a =? "jane-sub")%string)
                      (applications (db running_world))))
    /\ (forall a, In a apps -> Application.userId (awd_application a) = "jane-sub")
    /\ newest_first (fun a => Application.submittedAt (awd_application a)) apps.
Proof.
  apply (X5_own_applications "jane-sub" running_world); distinct.
Defined.

Lemma find_by_unique {A : Type} (key : A -> string) (rows : list A) (r : A) :
  NoDup (map key rows) -> In r rows -> find_by key (key r) rows = Some r.
Proof.
  unfold find_by. induction rows as [|x rows IH]; cbn; intros Hn Hin; [destruct Hin|].
  inversion Hn as [|? ? Hx Hn']; subst.
  destruct (String.eqb_spec (key x) (key r)) as [E|N].
  - destruct Hin as [->|Hin]; [reflexivity|].
    exfalso. apply Hx. rewrite E. now apply in_map.
  - destruct Hin as [->|Hin]; [contradiction|]. now apply IH.
Qed.

(** X6.  The list and the detail agree.  When the ids of applications, grants,
    countries and users are unique, every entry of the requester's
    GET /api/applications is what GET /api/applications/:id answers, with
    status 200, for the entry's id. *)
Theorem X6_listed_application_detail (userId : string) (w : World)
    (apps : list ApplicationWithDetails) (a : ApplicationWithDetails) :
  NoDup (map Application.id (applications (db w))) ->
  NoDup (map Grant.id (grants (db w))) ->
  NoDup (map Country.id (countries (db w))) ->
  NoDup (map User.id (users (db w))) ->
  fst (GET_api_applications userId w) = Ok (mkAnswer 200 (Json_applications apps)) ->
  In a apps ->
  fst (GET_api_applications_id userId (Application.id (awd_application a)) w)
  = Ok (mkResponse 200 (Json_application a)).
Proof.
  intros Ha Hg Hc Hu Hlist Hin.
  destruct (own_applications userId w Hg Hc Hu) as [apps' [Hrun [P [Hown _]]]].
  rewrite Hrun in Hlist. cbn [fst] in Hlist. injection Hlist as <-.
  apply (Permutation_in _ P), in_map_iff in Hin. destruct Hin as [x [<- Hx]].
  apply filter_In in Hx. destruct Hx as [Hx Eu]. cbn [details_of awd_application].
  unfold GET_api_applications_id, getApplicationById. run_monad.
  rewrite (find_by_unique Application.id _ x Ha Hx). cbn [awd_application].
  rewrite Eu. reflexivity.
Qed.

Lemma X6_listed_application_detail_witness :
  fst (GET_api_applications_id "jane-sub" "app-1" running_world)
  = Ok (mkResponse 200 (Json_application (details_of (db running_world) janes_application))).
Proof.
  apply (X6_listed_application_detail "jane-sub" running_world
           [details_of (db running_world) janes_application]
           (details_of (db running_world) janes_application));
    [distinct | distinct | distinct | distinct | vm_compute; reflexivity | now left].
Defined.

(** ** The contact form *)

Lemma issue_nil {A : Type} (path : string) (parsed : option A) :
  issue path parsed = [] <-> exists a, parsed = Some a.
Proof.
  destruct parsed as [a|]; cbn; split; try easy.
  - intros _. now exists a.
  - intros [a [=]].
Qed.

Lemma z_string_none (v : Js.value) : z_string v = None <-> Js.is_string v = false.
Proof. destruct v; cbn; split; congruence. Qed.

(** What [POST_api_contact] does with a body that passes validation. *)
Lemma POST_api_contact_valid (body : Js.value) (m : InsertContactMessage.t) (w : World) :
  insertContactMessageSchema_parse body = inr m ->
  POST_api_contact body w
  = let id := uuids w (uuid_pos w) in
    let w1 := snd (gen_random_uuid w) in
    if negb (storable_message m)
    then (Ok (mkAnswer 500 (Json_error (Json_message "Failed to send message"))), w)
    else if has_id ContactMessage.id id (contactMessages (db w))
    then (Ok (mkAnswer 500 (Json_error (Json_message "Failed to send message"))), w1)
    else (Ok (mkAnswer 201 (Json_sent "Message sent successfully" id)),
          snd (update_db (set_contactMessages
                            (contactMessages (db w)
                               ++ [new_contact_message m id (clock w)])%list) w1)).
Proof.
  intros H. unfold POST_api_contact, createContactMessage, answer_message, answer.
  rewrite H. run_monad.
  destruct (storable_message m); [|reflexivity]. cbn [negb].
  destruct (has_id ContactMessage.id (uuids w (uuid_pos w)) (contactMessages (db w)));
    reflexivity.
Qed.

Lemma POST_api_contact_invalid (body : Js.value) (e : Exn) (w : World) :
  insertContactMessageSchema_parse body = inl e ->
  exists errors,
    e = ZodError errors
    /\ errors <> []
    /\ POST_api_contact body w
       = (Ok (mkAnswer 400 (Json_error (Json_validation "Validation error" errors))), w).
Proof.
  intros H. unfold POST_api_contact, answer_message, answer. rewrite H. run_monad.
  unfold insertContactMessageSchema_parse in H.
  destruct body; try (injection H as <-; eexists; repeat split; easy).
  destruct (issue "firstName" _ ++ _)%list as [|i rest] eqn:E; [discriminate H|].
  injection H as <-. eexists. repeat split; easy.
Qed.

(** X9.  POST /api/contact accepts every body whose five fields are strings
    without U+0000, the empty string included, when the generated id is
    new: it answers 201 with that id and appends one message with the five
    texts, status 'new', the time of the insert and no response time.
    Whatever else the body carries ([id], [status], [createdAt], ...) is
    not stored. *)
Theorem X9_contact_accepts (fields : list (string * Js.value))
    (firstName lastName email subject message : string) (w : World) :
  Js.assoc "firstName" fields = Js.Str firstName ->
  Js.assoc "lastName" fields = Js.Str lastName ->
  Js.assoc "email" fields = Js.Str email ->
  Js.assoc "subject" fields = Js.Str subject ->
  Js.assoc "message" fields = Js.Str message ->
  Forall (fun text => Pg.storable text = true)
         [firstName; lastName; email; subject; message] ->
  has_id ContactMessage.id (uuids w (uuid_pos w)) (contactMessages (db w)) = false ->
  let id := uuids w (uuid_pos w) in
  let w' := snd (POST_api_contact (Js.Object fields) w) in
  fst (POST_api_contact (Js.Object fields) w)
  = Ok (mkAnswer 201 (Json_sent "Message sent successfully" id))
  /\ contactMessages (db w')
     = (contactMessages (db w)
          ++ [ContactMessage.mk id firstName lastName email subject message
                                (Some "new") (Some (clock w)) None])%list.
Proof.
  intros H1 H2 H3 H4 H5 Hs Hid. cbv zeta.
  rewrite (POST_api_contact_valid (Js.Object fields)
             (InsertContactMessage.mk firstName lastName email subject message)).
  - cbv zeta. unfold storable_message.
    cbn [InsertContactMessage.firstName InsertContactMessage.lastName
         InsertContactMessage.email InsertContactMessage.subject
         InsertContactMessage.message].
    inversion Hs as [|? ? S1 Hs1]; subst. inversion Hs1 as [|? ? S2 Hs2]; subst.
    inversion Hs2 as [|? ? S3 Hs3]; subst. inversion Hs3 as [|? ? S4 Hs4]; subst.
    inversion Hs4 as [|? ? S5 _]; subst.
    rewrite S1, S2, S3, S4, S5, Hid. split; reflexivity.
  - cbn. rewrite H1, H2, H3, H4, H5. reflexivity.
Qed.

Lemma X9_contact_accepts_witness :
  let body := [ ("firstName", Js.Str "Omar"); ("lastName", Js.Str "");
                ("email", Js.Str "omar@example.org"); ("subject", Js.Str "Question");
                ("message", Js.Str "When is the deadline?");
                ("status", Js.Str "answered"); ("id", Js.Str "chosen") ] in
  fst (POST_api_contact (Js.Object body) running_world)
  = Ok (mkAnswer 201 (Json_sent "Message sent successfully" (tally 8)))
  /\ contactMessages (db (snd (POST_api_contact (Js.Object body) running_world)))
     = [ContactMessage.mk (tally 8) "Omar" "" "omar@example.org" "Question"
                          "When is the deadline?" (Some "new")
                          (Some 1700000002000) None].
Proof.
  cbv zeta.
  apply (X9_contact_accepts _ "Omar" "" "omar@example.org" "Question"
           "When is the deadline?" running_world);
    try reflexivity.
  repeat constructor.
Defined.

Lemma in_issue {A : Type} (path : string) (parsed : option A) :
  parsed = None -> In path (issue path parsed).
Proof. intros ->. now left. Qed.

(** X10.  POST /api/contact rejects a body in which one of the five fields is
    missing or is no string: it answers 400 with a validation error that
    names the field, and the world is as before: nothing is stored and no
    id is generated. *)
Theorem X10_contact_rejects (fields : list (string * Js.value)) (k : string) (w : World) :
  In k ["firstName"; "lastName"; "email"; "subject"; "message"] ->
  Js.is_string (Js.assoc k fields) = false ->
  exists errors,
    POST_api_contact (Js.Object fields) w
    = (Ok (mkAnswer 400 (Json_error (Json_validation "Validation error" errors))), w)
    /\ In k errors.
Proof.
  intros Hk Hs. apply z_string_none in Hs.
  destruct (insertContactMessageSchema_parse (Js.Object fields)) as [e|m] eqn:E.
  - destruct (POST_api_contact_invalid _ e w E) as [errors [-> [_ Hrun]]].
    exists errors. split; [exact Hrun|].
    cbn in E.
    destruct (issue "firstName" _ ++ _)%list as [|i rest] eqn:F in E; [discriminate E|].
    injection E as <-. rewrite <- F.
    rewrite !in_app_iff.
    cbn in Hk.
    destruct Hk as [<-|[<-|[<-|[<-|[<-|[]]]]]]; auto 10 using in_issue.
  - exfalso. cbn in E.
    destruct (issue "firstName" _ ++ _)%list as [|i rest] eqn:F in E; [|discriminate E].
    apply app_eq_nil in F. destruct F as [F1 F].
    apply app_eq_nil in F. destruct F as [F2 F].
    apply app_eq_nil in F. destruct F as [F3 F].
    apply app_eq_nil in F. destruct F as [F4 F5].
    apply issue_nil in F1, F2, F3, F4, F5.
    destruct F1 as [? F1], F2 as [? F2], F3 as [? F3], F4 as [? F4], F5 as [? F5].
    cbn in Hk.
    destruct Hk as [<-|[<-|[<-|[<-|[<-|[]]]]]]; congruence.
Qed.

Lemma X10_contact_rejects_witness :
  exists errors,
    POST_api_contact
      (Js.Object [ ("firstName", Js.Str "Omar"); ("lastName", Js.Str "Haddad");
                   ("email", Js.Null); ("subject", Js.Str "Question");
                   ("message", Js.Str "When is the deadline?") ]) running_world
    = (Ok (mkAnswer 400 (Json_error (Json_validation "Validation error" errors))),
       running_world)
    /\ In "email" errors.
Proof.
  apply (X10_contact_rejects _ "email" running_world).
  - cbn. auto.
  - reflexivity.
Defined.

(** X11.  POST /api/contact always answers, with 201, 400 or 500.  With 201 one
    message is appended whose id no stored message had; otherwise the
    messages are as before.  In every case the users, countries, grants,
    applications and awards are as before. *)
Theorem X11_contact_frame (body : Js.value) (w : World) :
  let w' := snd (POST_api_contact body w) in
  exists r,
    fst (POST_api_contact body w) = Ok r
    /\ (ans_status r = 201
        /\ (exists row,
              contactMessages (db w') = (contactMessages (db w) ++ [row])%list
              /\ ans_body r = Json_sent "Message sent successfully" (ContactMessage.id row)
              /\ ContactMessage.status row = Some "new"
              /\ ~ In (ContactMessage.id row)
                      (map ContactMessage.id (contactMessages (db w))))
        \/ (ans_status r = 400 \/ ans_status r = 500)
           /\ contactMessages (db w') = contactMessages (db w))
    /\ users (db w') = users (db w)
    /\ countries (db w') = countries (db w)
    /\ grants (db w') = grants (db w)
    /\ applications (db w') = applications (db w)
    /\ grantAwards (db w') = grantAwards (db w).
Proof.
  cbv zeta.
  destruct (insertContactMessageSchema_parse body) as [e|m] eqn:E.
  - destruct (POST_api_contact_invalid _ e w E) as [errors [-> [_ Hrun]]].
    rewrite Hrun. eexists. split; [reflexivity|]. cbn. split; [right|]; auto 10.
  - rewrite (POST_api_contact_valid body m w E). cbv zeta.
    destruct (storable_message m); cbn [negb];
      [|eexists; split; [reflexivity|]; cbn; split; [right|]; auto 10].
    destruct (has_id ContactMessage.id (uuids w (uuid_pos w)) (contactMessages (db w)))
      eqn:Hid.
    + eexists. split; [reflexivity|]. cbn. split; [right|]; auto 10.
    + eexists. split; [reflexivity|]. cbn. split; [left|]; auto 10.
      split; [reflexivity|]. eexists. split; [reflexivity|]. cbn.
      split; [reflexivity|]. split; [reflexivity|].
      intros Hin. apply in_map_iff in Hin. destruct Hin as [x [Hx Hin]].
      unfold has_id in Hid. rewrite <- Bool.not_true_iff_false in Hid. apply Hid.
      apply existsb_exists. exists x. split; [exact Hin | now apply String.eqb_eq].
Qed.

(** ** Users *)

Lemma find_by_app {A : Type} (key : A -> string) (k : string) (l l' : list A) :
  find_by key k (l ++ l')%list
  = match find_by key k l with
    | Some r => Some r
    | None => find_by key k l'
    end.
Proof.
  unfold find_by. induction l as [|x l IH]; cbn; [reflexivity|].
  destruct (key x =? k)%string; [reflexivity | exact IH].
Qed.

Lemma find_by_map_at {A : Type} (key : A -> string) (k : string) (f : A -> A)
    (rows : list A) :
  (forall r, key (f r) = key r) ->
  find_by key k (map (fun r => if (key r =? k)%string then f r else r) rows)
  = option_map f (find_by key k rows).
Proof.
  intros Hf. unfold find_by. induction rows as [|x rows IH]; cbn; [reflexivity|].
  destruct (key x =? k)%string eqn:E.
  - rewrite Hf, E. reflexivity.
  - rewrite E. exact IH.
Qed.

Lemma map_at_ids (id : string) (f : User.t -> User.t) (rows : list User.t) :
  (forall r, User.id (f r) = User.id r) ->
  map User.id (map (fun u => if (User.id u =? id)%string then f u else u) rows)
  = map User.id rows.
Proof.
  intros Hf. rewrite map_map. apply map_ext. intros u.
  destruct (User.id u =? id)%string; [apply Hf | reflexivity].
Qed.

Lemma map_at_others (id : string) (f : User.t -> User.t) (rows : list User.t)
    (v : User.t) :
  (forall r, User.id (f r) = User.id r) ->
  User.id v <> id ->
  In v (map (fun u => if (User.id u =? id)%string then f u else u) rows) <-> In v rows.
Proof.
  intros Hf Hv. rewrite in_map_iff. split.
  - intros [u [E Hu]]. destruct (String.eqb_spec (User.id u) id) as [Ei|_].
    + exfalso. apply Hv. rewrite <- E, Hf. exact Ei.
    + now subst.
  - intros Hin. exists v. split; [|exact Hin].
    destruct (String.eqb_spec (User.id v) id); [contradiction | reflexivity].
Qed.

(** The two ways [upsertUser] can go. *)
Lemma upsertUser_run (id : string) (userData : UpsertUser.t) (w : World) :
  let others := filter (fun u => negb (User.id u =? id)%string) (users (db w)) in
  let user := match find_by User.id id (users (db w)) with
              | Some old => updated_user userData (clock w) old
              | None => new_user id userData (clock w)
              end in
  let rows := match find_by User.id id (users (db w)) with
              | Some _ => map (fun u => if (User.id u =? id)%string
                                        then updated_user userData (clock w) u else u)
                              (users (db w))
              | None => (users (db w) ++ [user])%list
              end in
  upsertUser id userData w
  = if email_taken (User.email user) others
    then (Throw (DbError "users_email_unique"), w)
    else (Ok user, snd (update_db (set_users rows) w)).
Proof.
  cbv zeta. unfold upsertUser. run_monad.
  destruct (find_by User.id id (users (db w))) as [old|]; run_monad;
    match goal with |- context [email_taken ?e ?o] => destruct (email_taken e o) end;
    reflexivity.
Qed.

(** X13.  What was upserted is what is read back: after [upsertUser] returns a
    user for an id, [getUser] with that id returns the same user, and the
    user has that id. *)
Theorem X13_upsert_then_get (id : string) (userData : UpsertUser.t) (w : World)
    (user : User.t) :
  fst (upsertUser id userData w) = Ok user ->
  User.id user = id
  /\ fst (getUser id (snd (upsertUser id userData w))) = Ok (Some user).
Proof.
  rewrite upsertUser_run. cbv zeta.
  match goal with |- context [email_taken ?e ?o] => destruct (email_taken e o) end;
    [discriminate|].
  cbn [fst snd]. intros [= <-]. unfold getUser. run_monad.
  cbn [users set_users].
  destruct (find_by User.id id (users (db w))) as [old|] eqn:E.
  - split; [now apply find_by_some in E|].
    rewrite (find_by_map_at User.id id (updated_user userData (clock w)))
      by reflexivity.
    rewrite E. reflexivity.
  - split; [reflexivity|]. rewrite find_by_app, E. unfold find_by. cbn.
    rewrite String.eqb_refl. reflexivity.
Qed.

Lemma X13_upsert_then_get_witness :
  fst (upsertUser "omar-sub" omars_claims running_world) = Ok omar_renamed
  /\ User.id omar_renamed = "omar-sub"
  /\ fst (getUser "omar-sub" (snd (upsertUser "omar-sub" omars_claims running_world)))
     = Ok (Some omar_renamed).
Proof.
  split; [reflexivity|].
  apply (X13_upsert_then_get "omar-sub" omars_claims running_world omar_renamed).
  reflexivity.
Defined.

(** X14.  An upsert touches one user.  When [upsertUser] returns, every stored
    user with another id is stored as before and no other is added; the
    ids stay unique if they were; a user that existed keeps its id and its
    [createdAt], keeps every column the data leave out, and no row is
    added; a user that did not exist is appended with the columns the data
    leave out NULL. *)
Theorem X14_upsert_one_user (id : string) (userData : UpsertUser.t) (w : World)
    (user : User.t) :
  fst (upsertUser id userData w) = Ok user ->
  let before := users (db w) in
  let after := users (db (snd (upsertUser id userData w))) in
  (forall v, User.id v <> id -> (In v after <-> In v before))
  /\ (NoDup (map User.id before) -> NoDup (map User.id after))
  /\ match find_by User.id id before with
     | Some old =>
         map User.id after = map User.id before
         /\ User.createdAt user = User.createdAt old
         /\ User.updatedAt user = Some (clock w)
         /\ (UpsertUser.email userData = Omitted -> User.email user = User.email old)
         /\ (UpsertUser.firstName userData = Omitted ->
             User.firstName user = User.firstName old)
         /\ (UpsertUser.lastName userData = Omitted ->
             User.lastName user = User.lastName old)
         /\ (UpsertUser.profileImageUrl userData = Omitted ->
             User.profileImageUrl user = User.profileImageUrl old)
         /\ (UpsertUser.country userData = Omitted ->
             User.country user = User.country old)
         /\ (UpsertUser.phone userData = Omitted -> User.phone user = User.phone old)
     | None =>
         after = (before ++ [user])%list
         /\ User.createdAt user = Some (clock w)
         /\ (UpsertUser.email userData = Omitted -> User.email user = None)
         /\ (UpsertUser.firstName userData = Omitted -> User.firstName user = None)
         /\ (UpsertUser.lastName userData = Omitted -> User.lastName user = None)
         /\ (UpsertUser.profileImageUrl userData = Omitted ->
             User.profileImageUrl user = None)
         /\ (UpsertUser.country userData = Omitted -> User.country user = None)
         /\ (UpsertUser.phone userData = Omitted -> User.phone user = None)
     end.
Proof.
  rewrite upsertUser_run. cbv zeta.
  match goal with |- context [email_taken ?e ?o] => destruct (email_taken e o) end;
    [discriminate|].
  cbn [fst snd]. intros [= <-]. unfold update_db. cbn [snd db users set_users].
  destruct (find_by User.id id (users (db w))) as [old|] eqn:E.
  - split; [|split; [|repeat split]].
    + intros v Hv. now apply map_at_others.
    + now rewrite map_at_ids.
    + now apply map_at_ids.
    + cbn. now intros ->.
    + cbn. now intros ->.
    + cbn. now intros ->.
    + cbn. now intros ->.
    + cbn. now intros ->.
    + cbn. now intros ->.
  - rewrite find_by_none in E.
    split; [|split; [|repeat split]].
    + intros v Hv. rewrite in_app_iff. split; [|now left].
      intros [H|[<-|[]]]; [exact H|]. now contradiction Hv.
    + intros Hn. rewrite map_app. cbn [map new_user User.id].
      apply NoDup_snoc; [exact Hn|].
      intros Hin. apply in_map_iff in Hin. destruct Hin as [u [Eu Hu]].
      now apply (E u Hu).
    + cbn. now intros ->.
    + cbn. now intros ->.
    + cbn. now intros ->.
    + cbn. now intros ->.
    + cbn. now intros ->.
    + cbn. now intros ->.
Qed.

Lemma X14_upsert_one_user_witness :
  fst (upsertUser "omar-sub" omars_claims running_world) = Ok omar_renamed
  /\ let before := users (db running_world) in
     let after := users (db (snd (upsertUser "omar-sub" omars_claims running_world))) in
     (forall v, User.id v <> "omar-sub" -> (In v after <-> In v before))
     /\ (NoDup (map User.id before) -> NoDup (map User.id after))
     /\ map User.id after = map User.id before
     /\ User.createdAt omar_renamed = User.createdAt omar
     /\ User.updatedAt omar_renamed = Some (clock running_world)
     /\ (UpsertUser.email omars_claims = Omitted ->
         User.email omar_renamed = User.email omar)
     /\ (UpsertUser.firstName omars_claims = Omitted ->
         User.firstName omar_renamed = User.firstName omar)
     /\ (UpsertUser.lastName omars_claims = Omitted ->
         User.lastName omar_renamed = User.lastName omar)
     /\ (UpsertUser.profileImageUrl omars_claims = Omitted ->
         User.profileImageUrl omar_renamed = User.profileImageUrl omar)
     /\ (UpsertUser.country omars_claims = Omitted ->
         User.country omar_renamed = User.country omar)
     /\ (UpsertUser.phone omars_claims = Omitted ->
         User.phone omar_renamed = User.phone omar).
Proof.
  split; [reflexivity|].
  apply (X14_upsert_one_user "omar-sub" omars_claims running_world omar_renamed).
  reflexivity.
Defined.

(** X15.  The e-mail of another user cannot be taken: when the row the upsert
    would store carries the e-mail of a stored user with another id, the
    statement fails on the unique constraint and the users are as
    before. *)
Theorem X15_upsert_email_conflict (id e : string) (userData : UpsertUser.t) (w : World)
    (other : User.t) :
  UpsertUser.email userData = Given (Some e) ->
  In other (users (db w)) ->
  User.id other <> id ->
  User.email other = Some e ->
  upsertUser id userData w = (Throw (DbError "users_email_unique"), w).
Proof.
  intros Hd Hin Hid He. rewrite upsertUser_run. cbv zeta.
  assert (T : forall u, User.email u = Some e ->
              email_taken (User.email u)
                (filter (fun u => negb (User.id u =? id)%string) (users (db w))) = true).
  { intros u ->. unfold email_taken. apply existsb_exists. exists other. split.
    - apply filter_In. split; [exact Hin|].
      apply Bool.negb_true_iff. now apply String.eqb_neq.
    - rewrite He. apply String.eqb_refl. }
  destruct (find_by User.id id (users (db w))) as [old|].
  - rewrite T; [reflexivity|]. cbn. now rewrite Hd.
  - rewrite T; [reflexivity|]. cbn. now rewrite Hd.
Qed.

Lemma X15_upsert_email_conflict_witness :
  upsertUser "omar-sub"
    (UpsertUser.mk (Given (Some "jane@example.org")) Omitted Omitted Omitted Omitted Omitted)
    running_world
  = (Throw (DbError "users_email_unique"), running_world).
Proof.
  apply (X15_upsert_email_conflict "omar-sub" "jane@example.org" _ running_world jane).
  - reflexivity.
  - now left.
  - discriminate.
  - reflexivity.
Defined.

(** X4.  GET /api/auth/user answers 200 with the stored user whose id is the
    session's subject, or with no user when none is stored; it never
    answers for another id, and it stores nothing. *)
Theorem X4_auth_user (userId : string) (w : World) :
  exists user,
    GET_api_auth_user userId w = (Ok (mkAnswer 200 (Json_user user)), w)
    /\ match user with
       | Some u => In u (users (db w)) /\ User.id u = userId
       | None => forall u, In u (users (db w)) -> User.id u <> userId
       end.
Proof.
  unfold GET_api_auth_user, getUser, answer. run_monad.
  eexists. split; [reflexivity|].
  destruct (find_by User.id userId (users (db w))) as [u|] eqn:E.
  - now apply find_by_some.
  - now apply find_by_none.
Qed.

(** ** Invariants of the running server *)

Section Keeps.

Variable R : Db -> Db -> Prop.
Hypothesis R_refl : forall d, R d d.
Hypothesis R_trans : forall a b c, R a b -> R b c -> R a c.

Lemma keeps_ret {A : Type} (a : A) : keeps R (ret a).
Proof. intros w. apply R_refl. Qed.

Lemma keeps_throw {A : Type} (e : Exn) : keeps R (@throw A e).
Proof. intros w. apply R_refl. Qed.

Lemma keeps_bind {A B : Type} (m : M A) (k : A -> M B) :
  keeps R m -> (forall a, keeps R (k a)) -> keeps R (bind m k).
Proof.
  intros Hm Hk w. unfold bind. specialize (Hm w).
  destruct (m w) as [[a|e] w1]; cbn [snd] in *; [|exact Hm].
  exact (R_trans _ _ _ Hm (Hk a w1)).
Qed.

Lemma keeps_try_catch {A : Type} (m : M A) (h : Exn -> M A) :
  keeps R m -> (forall e, keeps R (h e)) -> keeps R (try_catch m h).
Proof.
  intros Hm Hh w. unfold try_catch. specialize (Hm w).
  destruct (m w) as [[a|e] w1]; cbn [snd] in *; [exact Hm|].
  exact (R_trans _ _ _ Hm (Hh e w1)).
Qed.

Lemma keeps_select_db : keeps R select_db.
Proof. intros w. apply R_refl. Qed.

Lemma keeps_called (c : Call) : keeps R (called c).
Proof. intros w. apply R_refl. Qed.

Lemma keeps_gen_random_uuid : keeps R gen_random_uuid.
Proof. intros w. apply R_refl. Qed.

Lemma keeps_Math_random : keeps R Math_random.
Proof. intros w. apply R_refl. Qed.

Lemma keeps_now : keeps R now.
Proof. intros w. apply R_refl. Qed.

Lemma keeps_check (ok : bool) (constraint : string) : keeps R (check ok constraint).
Proof. intros w. unfold check. destruct ok; apply R_refl. Qed.

Lemma keeps_parse {A : Type} (r : Exn + A) : keeps R (parse r).
Proof. intros w. destruct r; apply R_refl. Qed.

Lemma keeps_destructure (body : Js.value) (k : string) : keeps R (destructure body k).
Proof. intros w. unfold destructure. destruct (Js.get body k); apply R_refl. Qed.

Lemma keeps_for_of {A : Type} (l : list A) (f : A -> M unit) :
  (forall a, keeps R (f a)) -> keeps R (for_of l f).
Proof.
  intros Hf. induction l as [|x l IH]; cbn [for_of].
  - apply keeps_ret.
  - apply keeps_bind; [apply Hf | intros _; exact IH].
Qed.

End Keeps.

(** One step of a proof that an operation keeps a relation. *)
Ltac keeps_step Hrefl Htrans :=
  lazymatch goal with
  | |- keeps _ (ret _) => apply (keeps_ret _ Hrefl)
  | |- keeps _ (throw _) => apply (keeps_throw _ Hrefl)
  | |- keeps _ select_db => apply (keeps_select_db _ Hrefl)
  | |- keeps _ (called _) => apply (keeps_called _ Hrefl)
  | |- keeps _ gen_random_uuid => apply (keeps_gen_random_uuid _ Hrefl)
  | |- keeps _ Math_random => apply (keeps_Math_random _ Hrefl)
  | |- keeps _ now => apply (keeps_now _ Hrefl)
  | |- keeps _ (check _ _) => apply (keeps_check _ Hrefl)
  | |- keeps _ (parse _) => apply (keeps_parse _ Hrefl)
  | |- keeps _ (destructure _ _) => apply (keeps_destructure _ Hrefl)
  | |- keeps _ (bind _ _) => apply (keeps_bind _ Htrans); [|intros ?]
  | |- keeps _ (try_catch _ _) => apply (keeps_try_catch _ Htrans); [|intros ?]
  | |- keeps _ (for_of _ _) => apply (keeps_for_of _ Hrefl Htrans); intros ?
  | |- keeps _ (if ?b then _ else _) => destruct b
  | |- keeps _ (match ?x with _ => _ end) => destruct x
  end.

Lemma stays_sound_refl (d : Db) : stays_sound d d.
Proof. intros H. exact H. Qed.

Lemma stays_sound_trans (a b c : Db) :
  stays_sound a b -> stays_sound b c -> stays_sound a c.
Proof. unfold stays_sound. auto. Qed.

Lemma grows_refl (d : Db) : grows d d.
Proof.
  constructor; try reflexivity.
  - exists []. split; [now rewrite app_nil_r | intros a []].
  - exists []. now rewrite app_nil_r.
Qed.

Lemma grows_trans (a b c : Db) : grows a b -> grows b c -> grows a c.
Proof.
  intros [U1 C1 G1 W1 [n1 [A1 S1]] [m1 M1]] [U2 C2 G2 W2 [n2 [A2 S2]] [m2 M2]].
  constructor; try congruence.
  - exists (n1 ++ n2)%list. split.
    + rewrite A2, A1. now rewrite app_assoc.
    + intros x Hx. apply in_app_iff in Hx. destruct Hx; auto.
  - exists (m1 ++ m2)%list. rewrite M2, M1. now rewrite app_assoc.
Qed.

Lemma has_id_false_iff {A : Type} (key : A -> string) (k : string) (rows : list A) :
  has_id key k rows = false <-> ~ In k (map key rows).
Proof.
  unfold has_id. rewrite <- Bool.not_true_iff_false, existsb_exists, in_map_iff.
  split; intros H [x Hx]; apply H; exists x.
  - destruct Hx as [E Hin]. split; [exact Hin | now apply String.eqb_eq].
  - destruct Hx as [Hin E]. split; [now apply String.eqb_eq | exact Hin].
Qed.

Lemma has_id_app {A : Type} (key : A -> string) (k : string) (l l' : list A) :
  has_id key k l = true -> has_id key k (l ++ l')%list = true.
Proof. unfold has_id. rewrite existsb_app. now intros ->. Qed.

Lemma references_snoc {A B : Type} (ref : A -> string) (rows : list A) (a : A)
    (key : B -> string) (target : list B) :
  references ref rows key target ->
  has_id key (ref a) target = true ->
  references ref (rows ++ [a])%list key target.
Proof.
  intros H Ha x Hx. apply in_app_iff in Hx. destruct Hx as [Hx|[<-|[]]]; auto.
Qed.

Lemma references_more {A B : Type} (ref : A -> string) (rows : list A)
    (key : B -> string) (target more : list B) :
  references ref rows key target ->
  references ref rows key (target ++ more)%list.
Proof. intros H x Hx. apply has_id_app. now apply H. Qed.

Lemma pkey_snoc {A : Type} (key : A -> string) (rows : list A) (a : A) :
  NoDup (map key rows) ->
  has_id key (key a) rows = false ->
  NoDup (map key (rows ++ [a])%list).
Proof.
  intros Hn Hid. rewrite map_app. apply NoDup_snoc; [exact Hn|].
  now apply has_id_false_iff.
Qed.

Lemma has_id_true_iff {A : Type} (key : A -> string) (k : string) (rows : list A) :
  has_id key k rows = true <-> In k (map key rows).
Proof.
  destruct (has_id key k rows) eqn:E.
  - split; [intros _|reflexivity].
    destruct (in_dec string_dec k (map key rows)) as [H|H]; [exact H|].
    apply has_id_false_iff in H. congruence.
  - apply has_id_false_iff in E. split; [discriminate | contradiction].
Qed.

Lemma references_same_keys {A B : Type} (ref : A -> string) (rows : list A)
    (key : B -> string) (target target' : list B) :
  (forall k, In k (map key target) -> In k (map key target')) ->
  references ref rows key target ->
  references ref rows key target'.
Proof.
  intros Hk H a Ha. apply has_id_true_iff, Hk, has_id_true_iff. now apply H.
Qed.

(** Destructs the constraint checks of an insert that has been run. *)
Ltac checks :=
  repeat (match goal with
          | |- context [if ?c then _ else _] => destruct c eqn:?
          end;
          cbn [fst snd db]).

Ltac sound_insert Hi :=
  destruct Hi; constructor;
  cbn [users countries grants applications contactMessages grantAwards
       set_users set_countries set_grants set_applications set_contactMessages
       set_grantAwards];
  try assumption.

Lemma createCountry_sound (country : InsertCountry.t) :
  keeps stays_sound (createCountry country).
Proof.
  intros w Hi. unfold createCountry. run_monad. checks; try exact Hi.
  sound_insert Hi.
  - apply pkey_snoc; [assumption|]. now apply Bool.negb_true_iff.
  - apply pkey_snoc; [assumption|]. now apply Bool.negb_true_iff.
  - now apply references_more.
Qed.

Lemma createGrant_sound (grant : InsertGrant.t) :
  keeps stays_sound (createGrant grant).
Proof.
  intros w Hi. unfold createGrant. run_monad. checks; try exact Hi.
  sound_insert Hi.
  - apply pkey_snoc; [assumption|]. now apply Bool.negb_true_iff.
  - now apply references_snoc.
  - now apply references_more.
  - now apply references_more.
Qed.

Lemma createApplication_sound (application : InsertApplication.t) :
  keeps stays_sound (createApplication application).
Proof.
  intros w Hi. unfold createApplication. run_monad. checks; try exact Hi.
  sound_insert Hi.
  - apply pkey_snoc; [assumption|]. now apply Bool.negb_true_iff.
  - now apply references_snoc.
  - now apply references_snoc.
  - now apply references_more.
Qed.

Lemma createContactMessage_sound (message : InsertContactMessage.t) :
  keeps stays_sound (createContactMessage message).
Proof.
  intros w Hi. unfold createContactMessage. run_monad. checks; try exact Hi.
  sound_insert Hi.
  apply pkey_snoc; [assumption|]. now apply Bool.negb_true_iff.
Qed.

Lemma createGrantAward_sound (award : InsertGrantAward.t) :
  keeps stays_sound (createGrantAward award).
Proof.
  intros w Hi. unfold createGrantAward. run_monad. checks; try exact Hi.
  sound_insert Hi.
  - apply pkey_snoc; [assumption|]. now apply Bool.negb_true_iff.
  - now apply references_snoc.
  - now apply references_snoc.
  - now apply references_snoc.
Qed.

Lemma emails_app (l l' : list User.t) : emails (l ++ l') = (emails l ++ emails l')%list.
Proof. unfold emails. apply flat_map_app. Qed.

Lemma emails_cons (u : User.t) (l : list User.t) :
  emails (u :: l)
  = (match User.email u with Some e => [e] | None => [] end ++ emails l)%list.
Proof. reflexivity. Qed.

Lemma email_taken_false (e : string) (rows : list User.t) :
  email_taken (Some e) rows = false <-> ~ In e (emails rows).
Proof.
  unfold email_taken, emails.
  rewrite <- Bool.not_true_iff_false, existsb_exists, in_flat_map.
  split; intros H [u [Hu Hx]]; apply H; exists u; split; try exact Hu.
  - destruct (User.email u) as [x|]; [|destruct Hx].
    destruct Hx as [->|[]]. apply String.eqb_refl.
  - destruct (User.email u) as [x|]; [|discriminate].
    apply String.eqb_eq in Hx. left. exact Hx.
Qed.

Lemma others_all (id : string) (rows : list User.t) :
  find_by User.id id rows = None ->
  filter (fun u => negb (User.id u =? id)%string) rows = rows.
Proof.
  rewrite find_by_none. induction rows as [|x rows IH]; intros H; cbn; [reflexivity|].
  destruct (String.eqb_spec (User.id x) id) as [E|_].
  - exfalso. apply (H x); [now left | exact E].
  - cbn. rewrite IH; [reflexivity|]. intros r Hr. apply H. now right.
Qed.

Lemma map_at_none (id : string) (f : User.t -> User.t) (rows : list User.t) :
  ~ In id (map User.id rows) ->
  map (fun u => if (User.id u =? id)%string then f u else u) rows = rows.
Proof.
  induction rows as [|x rows IH]; cbn; intros H; [reflexivity|].
  destruct (String.eqb_spec (User.id x) id) as [E|_].
  - exfalso. apply H. now left.
  - rewrite IH; [reflexivity|]. intros Hin. apply H. now right.
Qed.

Lemma others_none (id : string) (rows : list User.t) :
  ~ In id (map User.id rows) ->
  filter (fun u => negb (User.id u =? id)%string) rows = rows.
Proof.
  intros H. apply others_all, find_by_none. intros r Hr E. apply H.
  rewrite <- E. now apply in_map.
Qed.

(** The rows around the one row with the id. *)
Lemma split_at_id (id : string) (rows : list User.t) (old : User.t) :
  NoDup (map User.id rows) ->
  find_by User.id id rows = Some old ->
  exists l1 l2,
    rows = (l1 ++ old :: l2)%list
    /\ User.id old = id
    /\ ~ In id (map User.id l1)
    /\ ~ In id (map User.id l2).
Proof.
  intros Hn Hf. apply find_by_some in Hf. destruct Hf as [Hin Hid].
  apply in_split in Hin. destruct Hin as [l1 [l2 ->]].
  exists l1, l2. split; [reflexivity|]. split; [exact Hid|].
  rewrite map_app in Hn. cbn [map] in Hn. rewrite Hid in Hn.
  split.
  - intros H. apply NoDup_remove_2 in Hn. apply Hn, in_app_iff. now left.
  - intros H. apply NoDup_remove_2 in Hn. apply Hn, in_app_iff. now right.
Qed.

Lemma emails_update (id : string) (f : User.t -> User.t) (rows : list User.t)
    (old : User.t) :
  NoDup (map User.id rows) ->
  NoDup (emails rows) ->
  find_by User.id id rows = Some old ->
  email_taken (User.email (f old))
              (filter (fun u => negb (User.id u =? id)%string) rows) = false ->
  NoDup (emails (map (fun u => if (User.id u =? id)%string then f u else u) rows)).
Proof.
  intros Hn He Hf Ht.
  destruct (split_at_id id rows old Hn Hf) as [l1 [l2 [-> [Hid [H1 H2]]]]].
  rewrite filter_app in Ht. cbn [filter] in Ht.
  rewrite Hid, String.eqb_refl in Ht. cbn [negb] in Ht.
  rewrite (others_none id l1 H1), (others_none id l2 H2) in Ht.
  rewrite map_app. cbn [map]. rewrite Hid, String.eqb_refl.
  rewrite (map_at_none id f l1 H1), (map_at_none id f l2 H2).
  rewrite emails_app, emails_cons in *.
  assert (Hrest : NoDup (emails l1 ++ emails l2)).
  { destruct (User.email old) as [x|]; cbn [app] in He.
    - now apply NoDup_remove_1 in He.
    - exact He. }
  destruct (User.email (f old)) as [e|]; cbn [app]; [|exact Hrest].
  apply email_taken_false in Ht. rewrite emails_app in Ht.
  apply (Permutation_NoDup (Permutation_middle _ _ e)).
  constructor; assumption.
Qed.

Lemma upsertUser_sound (id : string) (userData : UpsertUser.t) :
  keeps stays_sound (upsertUser id userData).
Proof.
  intros w Hi. rewrite upsertUser_run. cbv zeta.
  match goal with |- context [email_taken ?e ?o] => destruct (email_taken e o) eqn:T end;
    [exact Hi|].
  unfold update_db. cbn [snd db].
  destruct (find_by User.id id (users (db w))) as [old|] eqn:E.
  - assert (K : map User.id
                  (map (fun u => if (User.id u =? id)%string
                                 then updated_user userData (clock w) u else u)
                       (users (db w)))
                = map User.id (users (db w))) by now apply map_at_ids.
    sound_insert Hi.
    + now rewrite K.
    + now apply (emails_update id _ _ old).
    + eapply references_same_keys; [|eassumption]. intros k. now rewrite K.
    + eapply references_same_keys; [|eassumption]. intros k. now rewrite K.
  - rewrite (others_all id _ E) in T.
    sound_insert Hi.
    + apply pkey_snoc; [assumption|]. cbn [new_user User.id].
      apply has_id_false_iff. intros Hin. apply in_map_iff in Hin.
      destruct Hin as [u [Eu Hu]]. rewrite find_by_none in E. now apply (E u Hu).
    + rewrite emails_app, emails_cons.
      destruct (User.email (new_user id userData (clock w))) as [e|]; cbn [app emails flat_map].
      * apply NoDup_snoc; [assumption|]. now apply email_taken_false.
      * now rewrite app_nil_r.
    + now apply references_more.
    + now apply references_more.
Qed.

(** Proves that an operation built from reads and the inserts that [tac]
    knows keeps the relation. *)
Ltac keeps_all tac Hrefl Htrans :=
  unfold route, responds, answers,
         GET_api_auth_user, GET_api_countries, GET_api_grants, GET_api_grants_id,
         GET_api_stats, POST_api_contact, POST_api_check_referral,
         GET_api_applications, POST_api_applications, GET_api_applications_id,
         GET_api_awards, bootstrap, initializeCountries, initializeGrants,
         getUser, getActiveCountries, getAllCountries, getAllGrants,
         getGrantsByCountry, getGrantsByCategory, getGrantById,
         getApplicationsByUser, getApplicationById, checkUserHasAppliedToGrant,
         checkReferralExists, getAwardsByUser, getGrantStats,
         json, status_json, answer_message, answer;
  cbv zeta;
  repeat first [tac | keeps_step Hrefl Htrans].

Lemma route_sound (r : Request) : keeps stays_sound (route r).
Proof.
  destruct r;
    keeps_all ltac:(first [apply createApplication_sound
                          | apply createContactMessage_sound])
              stays_sound_refl stays_sound_trans.
Qed.

Lemma bootstrap_sound : keeps stays_sound bootstrap.
Proof.
  keeps_all ltac:(first [apply createCountry_sound | apply createGrant_sound])
            stays_sound_refl stays_sound_trans.
Qed.

Lemma createContactMessage_grows (message : InsertContactMessage.t) :
  keeps grows (createContactMessage message).
Proof.
  intros w. unfold createContactMessage. run_monad. checks; try apply grows_refl.
  constructor; try reflexivity.
  - exists []. split; [cbn; now rewrite app_nil_r | intros a []].
  - eexists. reflexivity.
Qed.

Lemma createApplication_grows (application : InsertApplication.t) :
  InsertApplication.status application = Given (Some qualified)
  \/ InsertApplication.status application = Given (Some not_qualified) ->
  keeps grows (createApplication application).
Proof.
  intros Hs w. unfold createApplication. run_monad. checks; try apply grows_refl.
  constructor; try reflexivity.
  - eexists. split; [reflexivity|]. intros a [<-|[]]. cbn.
    destruct Hs as [-> | ->]; cbn; auto.
  - exists []. cbn. now rewrite app_nil_r.
Qed.

Lemma route_grows (r : Request) : keeps grows (route r).
Proof.
  destruct r;
    keeps_all ltac:(first [apply createApplication_grows;
                           cbn [InsertApplication.status];
                           match goal with
                           | |- context [if ?b then _ else _] => destruct b
                           end; auto
                          | apply createContactMessage_grows])
              grows_refl grows_trans.
Qed.

Lemma serve_keeps (R : Db -> Db -> Prop) :
  (forall d, R d d) ->
  (forall a b c, R a b -> R b c -> R a c) ->
  (forall r, keeps R (route r)) ->
  forall rs w, R (db w) (db (serve rs w)).
Proof.
  intros Hrefl Htrans Hr rs. induction rs as [|r rs IH]; intros w; cbn [serve].
  - apply Hrefl.
  - exact (Htrans _ _ _ (Hr r w) (IH _)).
Qed.

(** X25.  The constraints of the schema are an invariant.  When the primary
    keys, the unique columns and the foreign keys hold of the database,
    they hold after every sequence of requests, after the seeding at
    start-up, after [upsertUser] and after [createGrantAward], whether the
    operation succeeds or fails. *)
Theorem X25_integrity_preserved (w : World) :
  integrity (db w) ->
  (forall rs, integrity (db (serve rs w)))
  /\ integrity (db (snd (bootstrap w)))
  /\ (forall id userData, integrity (db (snd (upsertUser id userData w))))
  /\ (forall award, integrity (db (snd (createGrantAward award w)))).
Proof.
  intros Hi. split; [|split; [|split]].
  - intros rs.
    exact (serve_keeps stays_sound stays_sound_refl stays_sound_trans route_sound rs w Hi).
  - exact (bootstrap_sound w Hi).
  - intros id userData. exact (upsertUser_sound id userData w Hi).
  - intros award. exact (createGrantAward_sound award w Hi).
Qed.

Lemma integrity_empty : integrity empty_db.
Proof. constructor; cbn; try constructor; intros a []. Qed.

Lemma X25_integrity_preserved_witness :
  integrity (db fresh_world)
  /\ (forall rs, integrity (db (serve rs fresh_world)))
  /\ integrity (db (snd (bootstrap fresh_world)))
  /\ (forall id userData, integrity (db (snd (upsertUser id userData fresh_world))))
  /\ (forall award, integrity (db (snd (createGrantAward award fresh_world)))).
Proof.
  split; [exact integrity_empty|].
  apply (X25_integrity_preserved fresh_world). exact integrity_empty.
Defined.

Lemma serve_grows (rs : list Request) (w : World) :
  grows (db w) (db (serve rs w)).
Proof. exact (serve_keeps grows grows_refl grows_trans route_grows rs w). Qed.

(** X26.  Requests only add.  Whatever requests are handled one after the other,
    the users, countries, grants and awards are afterwards what they were,
    and the applications and the contact messages are the old ones, in
    their order and unchanged, followed by new ones; every new application
    has status qualified or not qualified. *)
Theorem X26_requests_grow (rs : list Request) (w : World) :
  grows (db w) (db (serve rs w)).
Proof. exact (serve_keeps grows grows_refl grows_trans route_grows rs w). Qed.

Lemma rate_of_none (t : Z) : rate_of 0 t = 0.
Proof. reflexivity. Qed.

Lemma selected_app (l new : list Application.t) :
  (forall a, In a new ->
     Application.status a = Some qualified \/ Application.status a = Some not_qualified) ->
  filter (fun a => is_selected (Application.status a)) (l ++ new)
  = filter (fun a => is_selected (Application.status a)) l.
Proof.
  intros H. rewrite filter_app.
  assert (E : filter (fun a => is_selected (Application.status a)) new = []).
  { induction new as [|x new IH]; [reflexivity|]. cbn.
    destruct (H x (or_introl eq_refl)) as [-> | ->]; cbn;
      apply IH; intros a Ha; apply H; now right. }
  rewrite E. apply app_nil_r.
Qed.

(** X28.  The figures of GET /api/stats under requests.  Whatever requests are
    handled, the amount distributed, the number of recipients and the
    number of countries are afterwards what they were, and so is the number
    of selected applications; when no stored application is selected, the
    success rate reported afterwards is 0. *)
Theorem X28_stats_under_requests (rs : list Request) (w : World) :
  let w' := serve rs w in
  let selected_in := fun v : World =>
    count (filter (fun a => is_selected (Application.status a)) (applications (db v))) in
  exists s s',
    fst (GET_api_stats w) = Ok (mkResponse 200 (Json_stats s))
    /\ fst (GET_api_stats w') = Ok (mkResponse 200 (Json_stats s'))
    /\ totalGrantsDistributed s' = totalGrantsDistributed s
    /\ totalRecipients s' = totalRecipients s
    /\ totalCountries s' = totalCountries s
    /\ selected_in w' = selected_in w
    /\ (selected_in w = 0 -> successRate s' = 0).
Proof.
  cbv zeta.
  destruct (serve_grows rs w) as [_ Hc _ Hw [new [Ha Hs]] _].
  unfold GET_api_stats. unfold bind, try_catch, json. rewrite !getGrantStats_run.
  unfold ret. cbn [fst].
  eexists. eexists. split; [reflexivity|]. split; [reflexivity|].
  cbn [totalGrantsDistributed totalRecipients totalCountries successRate].
  rewrite Hc, Hw, Ha, (selected_app _ _ Hs).
  repeat (split; [reflexivity|]).
  intros ->. destruct (0 <? count (applications (db w) ++ new)); reflexivity.
Qed.

Lemma X28_stats_under_requests_witness :
  let rs := [Post_contact omars_message; Get_countries;
             Post_applications "omar-sub" (omars_body (Js.Str "%"))] in
  let selected_in := fun v : World =>
    count (filter (fun a => is_selected (Application.status a)) (applications (db v))) in
  selected_in seeded_world = 0
  /\ exists s s',
       fst (GET_api_stats seeded_world) = Ok (mkResponse 200 (Json_stats s))
       /\ fst (GET_api_stats (serve rs seeded_world)) = Ok (mkResponse 200 (Json_stats s'))
       /\ totalGrantsDistributed s' = totalGrantsDistributed s
       /\ totalRecipients s' = totalRecipients s
       /\ totalCountries s' = totalCountries s
       /\ selected_in (serve rs seeded_world) = selected_in seeded_world
       /\ successRate s' = 0.
Proof.
  cbv zeta. split; [vm_compute; reflexivity|].
  destruct (X28_stats_under_requests
              [Post_contact omars_message; Get_countries;
               Post_applications "omar-sub" (omars_body (Js.Str "%"))] seeded_world)
    as (s & s' & H1 & H2 & H3 & H4 & H5 & H6 & H7).
  exists s, s'. repeat (split; [assumption|]). apply H7. vm_compute. reflexivity.
Defined.

Lemma same_applications_refl (d : Db) : same_applications d d.
Proof. reflexivity. Qed.

Lemma same_applications_trans (a b c : Db) :
  same_applications a b -> same_applications b c -> same_applications a c.
Proof. unfold same_applications. congruence. Qed.

Lemma createContactMessage_same (message : InsertContactMessage.t) :
  keeps same_applications (createContactMessage message).
Proof.
  intros w. unfold createContactMessage. run_monad. checks; reflexivity.
Qed.

(** What a submission does to the database: nothing, or it appends one
    application of the session's user for a grant the user had not applied
    to. *)
Lemma POST_api_applications_db (userId : string) (body : Js.value) (w : World) :
  let out := POST_api_applications userId body w in
  (db (snd out) = db w /\ forall r, fst out = Ok r -> res_status r <> 201)
  \/ exists data row qualified message,
       insertApplicationSchema_parse body = inr data
       /\ fst out = Ok (mkResponse 201 (Json_created row qualified message))
       /\ db (snd out) = set_applications (applications (db w) ++ [row])%list (db w)
       /\ Application.userId row = userId
       /\ Application.grantId row = InsertApplication.grantId data
       /\ Application.id row = uuids w (uuid_pos w)
       /\ has_id Application.id (Application.id row) (applications (db w)) = false
       /\ applications_of userId (Application.grantId row) (db w) = [].
Proof.
  cbv zeta. pose proof (POST_api_applications_spec userId body w) as H. cbv zeta in H.
  destruct (insertApplicationSchema_parse body) as [e|data].
  - destruct H as [issues ->]. left. split; [reflexivity|].
    intros r [= <-]. discriminate.
  - destruct (0 <? count (applications_of userId (InsertApplication.grantId data) (db w)))
      eqn:Ha.
    + rewrite H. left. split; [reflexivity|]. intros r [= <-]. discriminate.
    + destruct H as [w' [_ H]].
      destruct (insertable userId data w) eqn:Hi.
      * destruct H as [-> Hdb]. right.
        exists data. eexists. eexists. eexists.
        split; [reflexivity|]. split; [reflexivity|]. split; [exact Hdb|].
        cbn [submitted_row Application.userId Application.grantId Application.id].
        split; [reflexivity|]. split; [reflexivity|]. split; [reflexivity|].
        split.
        -- unfold insertable in Hi. apply andb_true_iff in Hi. destruct Hi as [Hi _].
           apply andb_true_iff in Hi. destruct Hi as [Hi _].
           apply andb_true_iff in Hi. destruct Hi as [_ Hi].
           now apply Bool.negb_true_iff.
        -- now apply count_zero_iff.
      * destruct H as [-> Hdb]. left. split; [exact Hdb|].
        intros r [= <-]. discriminate.
Qed.

Lemma route_same_applications (r : Request) :
  (forall userId body, r <> Post_applications userId body) ->
  keeps same_applications (route r).
Proof.
  intros Hr. destruct r;
    try (exfalso; eapply Hr; reflexivity);
    keeps_all ltac:(apply createContactMessage_same)
              same_applications_refl same_applications_trans.
Qed.

Lemma count_applications_of_snoc (u g : string) (row : Application.t) (d : Db) :
  count (applications_of u g (set_applications (applications d ++ [row])%list d))
  = count (applications_of u g d)
    + (if (Application.userId row =? u)%string && (Application.grantId row =? g)%string
       then 1 else 0).
Proof.
  unfold applications_of, count. cbn [applications set_applications].
  rewrite filter_app, length_app, Nat2Z.inj_add. cbn [filter].
  destruct ((Application.userId row =? u)%string && (Application.grantId row =? g)%string);
    reflexivity.
Qed.

Lemma route_one_application_each (r : Request) (w : World) :
  one_application_each (db w) -> one_application_each (db (snd (route r w))).
Proof.
  intros Hone.
  assert (Hother : (forall userId body, r <> Post_applications userId body) ->
                   one_application_each (db (snd (route r w)))).
  { intros Hr u g. unfold applications_of.
    rewrite (route_same_applications r Hr w). apply Hone. }
  destruct r; try (apply Hother; discriminate).
  cbn [route]. unfold responds, bind, ret.
  destruct (POST_api_applications_db userId body w)
    as [[Hdb _] | (data & row & q & m & _ & _ & Hdb & Hu & _ & _ & _ & Hnone)];
    destruct (POST_api_applications userId body w) as [[x|e] w1];
    cbn [snd] in *; rewrite Hdb; try exact Hone.
  - intros u g. rewrite count_applications_of_snoc.
    destruct (String.eqb_spec (Application.userId row) u) as [Eu|_]; cbn [andb].
    + destruct (String.eqb_spec (Application.grantId row) g) as [Eg|_].
      * subst u g. rewrite Hu, Hnone. reflexivity.
      * specialize (Hone u g). lia.
    + specialize (Hone u g). lia.
  - intros u g. rewrite count_applications_of_snoc.
    destruct (String.eqb_spec (Application.userId row) u) as [Eu|_]; cbn [andb].
    + destruct (String.eqb_spec (Application.grantId row) g) as [Eg|_].
      * subst u g. rewrite Hu, Hnone. reflexivity.
      * specialize (Hone u g). lia.
    + specialize (Hone u g). lia.
Qed.

(** X27.  One application for each user and grant.  When no user has two stored
    applications for one grant, no user has after any sequence of requests
    that are handled one after the other. *)
Theorem X27_one_application_each (rs : list Request) (w : World) :
  one_application_each (db w) -> one_application_each (db (serve rs w)).
Proof.
  revert w. induction rs as [|r rs IH]; intros w H; cbn [serve]; [exact H|].
  apply IH. now apply route_one_application_each.
Qed.

Lemma X27_one_application_each_witness :
  let rs := [Post_applications "omar-sub" (omars_body Js.Null);
             Post_applications "omar-sub" (omars_body (Js.Str "Jane Smith"));
             Post_applications "jane-sub" (omars_body Js.Null)] in
  one_application_each (db running_world)
  /\ one_application_each (db (serve rs running_world)).
Proof.
  cbv zeta.
  assert (H : one_application_each (db running_world)).
  { intros u g. unfold applications_of, count. cbn [db running_world applications filter].
    destruct ((Application.userId janes_application =? u)%string
              && (Application.grantId janes_application =? g)%string); cbn; lia. }
  split; [exact H|]. apply X27_one_application_each. exact H.
Defined.

Lemma find_by_has_id {A : Type} (key : A -> string) (k : string) (rows : list A) :
  has_id key k rows = true ->
  exists r, find_by key k rows = Some r /\ In r rows /\ key r = k.
Proof.
  intros H. destruct (find_by key k rows) as [r|] eqn:E.
  - exists r. split; [reflexivity|]. now apply find_by_some.
  - exfalso. rewrite find_by_none in E. apply has_id_true_iff, in_map_iff in H.
    destruct H as [x [Hx Hin]]. now apply (E x Hin).
Qed.

Lemma details_of_joined (d : Db) (a : Application.t) :
  integrity d -> In a (applications d) -> fully_joined (details_of d a).
Proof.
  intros Hi Ha. unfold fully_joined, details_of. cbn [awd_grant awd_countries awd_user
                                                     awd_application].
  destruct (find_by_has_id _ _ _ (applications_grant_fk d Hi a Ha)) as [g [Eg [Hg Kg]]].
  destruct (find_by_has_id _ _ _ (applications_user_fk d Hi a Ha)) as [u [Eu [Hu Ku]]].
  destruct (find_by_has_id _ _ _ (grants_country_fk d Hi g Hg)) as [c [Ec [Hc Kc]]].
  exists g, c, u. rewrite Eg, Eu, Ec. auto 10.
Qed.

(** X7.  The joins find what they look for.  When the constraints of the schema
    hold, every application in the answer of GET /api/applications and the
    application in a 200 answer of GET /api/applications/:id come with
    their grant, the grant's country and their user: the rows the handlers
    take to be non-null are never missing. *)
Theorem X7_details_present (userId : string) (w : World) :
  integrity (db w) ->
  (forall apps a,
     fst (GET_api_applications userId w) = Ok (mkAnswer 200 (Json_applications apps)) ->
     In a apps -> fully_joined a)
  /\ (forall id a,
        fst (GET_api_applications_id userId id w)
        = Ok (mkResponse 200 (Json_application a)) ->
        fully_joined a).
Proof.
  intros Hi. split.
  - intros apps a Hrun Hin.
    destruct (own_applications userId w (grants_pkey _ Hi) (countries_pkey _ Hi)
                (users_pkey _ Hi)) as [apps' [Hrun' [P _]]].
    rewrite Hrun' in Hrun. cbn [fst] in Hrun. injection Hrun as <-.
    apply (Permutation_in _ P), in_map_iff in Hin. destruct Hin as [x [<- Hx]].
    apply filter_In in Hx. now apply details_of_joined.
  - intros id a. unfold GET_api_applications_id, getApplicationById. run_monad.
    destruct (find_by Application.id id (applications (db w))) as [x|] eqn:E;
      [|discriminate].
    apply find_by_some in E. destruct E as [Hx _]. cbn [awd_application].
    destruct (negb (Application.userId x =? userId)%string); [discriminate|].
    intros [= <-]. now apply (details_of_joined (db w) x).
Qed.

Lemma references_checked {A B : Type} (ref : A -> string) (rows : list A)
    (key : B -> string) (target : list B) :
  forallb (fun a => has_id key (ref a) target) rows = true ->
  references ref rows key target.
Proof. intros H a Ha. rewrite forallb_forall in H. now apply H. Qed.

Lemma integrity_running : integrity (db running_world).
Proof.
  constructor.
  1-8: distinct.
  all: apply references_checked; vm_compute; reflexivity.
Qed.

Lemma X7_details_present_witness :
  fully_joined (details_of (db running_world) janes_application).
Proof.
  refine (proj2 (X7_details_present "jane-sub" running_world integrity_running)
                "app-1" _ _).
  reflexivity.
Defined.

Section Within.

Context {A : Type}.
Variable status : A -> Z.
Variable codes : list Z.

Lemma within_ret (a : A) : In (status a) codes -> within status codes (ret a).
Proof. intros H w a' [= <-]. exact H. Qed.

Lemma within_throw (e : Exn) : within status codes (throw e).
Proof. intros w a [=]. Qed.

Lemma within_bind {B : Type} (m : M B) (k : B -> M A) :
  (forall b, within status codes (k b)) -> within status codes (bind m k).
Proof.
  intros Hk w a. unfold bind. destruct (m w) as [[b|e] w1]; [apply Hk | discriminate].
Qed.

Lemma within_try_catch (m : M A) (h : Exn -> M A) :
  within status codes m -> (forall e, within status codes (h e)) ->
  within status codes (try_catch m h).
Proof.
  intros Hm Hh w a. unfold try_catch. specialize (Hm w).
  destruct (m w) as [[b|e] w1]; [exact (Hm a) | apply Hh].
Qed.

End Within.

Lemma within_map {A B : Type} (status' : A -> Z) (status : B -> Z) (codes : list Z)
    (m : M A) (f : A -> B) :
  (forall a, status (f a) = status' a) ->
  within status' codes m ->
  within status codes (bind m (fun a => ret (f a))).
Proof.
  intros Hf Hm w b. unfold bind, ret. specialize (Hm w).
  destruct (m w) as [[a|e] w1]; [|discriminate].
  cbn [fst] in *. intros [= <-]. rewrite Hf. now apply Hm.
Qed.

Lemma try_catch_returns {A : Type} (m : M A) (h : Exn -> M A) :
  (forall e w, exists a, fst (h e w) = Ok a) ->
  forall w, exists a, fst (try_catch m h w) = Ok a.
Proof.
  intros Hh w. unfold try_catch. destruct (m w) as [[a|e] w1]; [now exists a | apply Hh].
Qed.

Ltac within_step :=
  first
    [ apply within_ret; cbn; tauto
    | apply within_throw
    | apply within_try_catch; [|intros ?]
    | apply within_bind; intros ?
    | match goal with
      | |- within _ _ (if ?b then _ else _) => destruct b
      | |- within _ _ (match ?x with _ => _ end) => destruct x
      end ].

Lemma route_returns (r : Request) (w : World) : exists reply, fst (route r w) = Ok reply.
Proof.
  assert (K : forall (A : Type) (f : A -> Reply) (m : M A) (h : Exn -> M A),
             (forall e v, exists a, fst (h e v) = Ok a) ->
             exists reply, fst (bind (try_catch m h) (fun a => ret (f a)) w) = Ok reply).
  { intros A f m h Hh. unfold bind.
    destruct (try_catch_returns m h Hh w) as [a Ha].
    destruct (try_catch m h w) as [[x|e] w1]; [|discriminate].
    now exists (f x). }
  destruct r; cbn [route]; unfold responds, answers;
    apply K; intros e v;
    unfold status_json, answer_message, answer, ret; try (eexists; reflexivity);
    destruct e; eexists; reflexivity.
Qed.

(** X30.  Every request is answered.  No route throws, whatever the request and
    the state, and the status of the answer is one of those the route's
    handler names: 200 or 500 for the plain reads, also 404 for a grant,
    also 403 and 404 for an application, 201, 400 or 500 for the two forms,
    200, 400 or 500 for the referral check. *)
Theorem X30_routes_answer (r : Request) (w : World) :
  exists reply,
    fst (route r w) = Ok reply /\ In (reply_status reply) (statuses_of r).
Proof.
  destruct (route_returns r w) as [reply H]. exists reply. split; [exact H|].
  revert w reply H. change (within reply_status (statuses_of r) (route r)).
  destruct r; cbn [route statuses_of]; unfold responds, answers;
    first [apply (within_map res_status) | apply (within_map ans_status)];
    try reflexivity;
    unfold GET_api_auth_user, GET_api_countries, GET_api_grants, GET_api_grants_id,
           GET_api_stats, POST_api_contact, POST_api_check_referral,
           GET_api_applications, POST_api_applications, GET_api_applications_id,
           GET_api_awards, json, status_json, answer_message, answer;
    repeat within_step.
Qed.

(** ** Submissions, once more *)

Lemma POST_api_applications_duplicate (userId : string) (body : Js.value)
    (data : InsertApplication.t) (w : World) (a : Application.t) :
  insertApplicationSchema_parse body = inr data ->
  In a (applications (db w)) ->
  Application.userId a = userId ->
  Application.grantId a = InsertApplication.grantId data ->
  POST_api_applications userId body w
  = (Ok (mkResponse 400 (Json_message "You have already applied to this grant")),
     after_call (Call_checkUserHasAppliedToGrant userId (InsertApplication.grantId data)) w).
Proof.
  intros Hp Hin Hu Hg.
  pose proof (POST_api_applications_spec userId body w) as S. cbv zeta in S.
  rewrite Hp in S.
  assert (E : (0 <? count (applications_of userId (InsertApplication.grantId data) (db w)))
              = true).
  { apply applied_iff. now exists a. }
  rewrite E in S. exact S.
Qed.

(** X21.  What was submitted cannot be submitted again.  After a submission was
    answered 201, and whatever requests are handled after it, a submission
    of the same user with the same [grantId] is answered 400 and leaves the
    database as it is, whatever else its body says. *)
Theorem X21_resubmission_rejected (userId : string) (body body' : Js.value)
    (rs : list Request) (w : World) (r : Response) :
  fst (POST_api_applications userId body w) = Ok r ->
  res_status r = 201 ->
  Js.get body' "grantId" = Js.get body "grantId" ->
  let w1 := serve rs (snd (POST_api_applications userId body w)) in
  exists r',
    fst (POST_api_applications userId body' w1) = Ok r'
    /\ res_status r' = 400
    /\ db (snd (POST_api_applications userId body' w1)) = db w1.
Proof.
  intros Hr H201 Hg. cbv zeta.
  destruct (POST_api_applications_db userId body w)
    as [[_ Hno] | (data & row & q & m & Hp & _ & Hdb & Hu & Hrow & _)].
  { exfalso. exact (Hno r Hr H201). }
  destruct (serve_grows rs (snd (POST_api_applications userId body w)))
    as [_ _ _ _ [new [Ha _]] _].
  set (w1 := serve rs (snd (POST_api_applications userId body w))) in *.
  assert (Hin : In row (applications (db w1))).
  { rewrite Ha, Hdb. cbn [applications set_applications].
    rewrite !in_app_iff. left. right. now left. }
  pose proof (POST_api_applications_spec userId body' w1) as S. cbv zeta in S.
  destruct (insertApplicationSchema_parse body') as [e|data'] eqn:Hp'.
  - destruct S as [issues ->]. eexists. repeat split.
  - rewrite (POST_api_applications_duplicate userId body' data' w1 row Hp' Hin Hu).
    + eexists. repeat split.
    + apply parse_grantId in Hp, Hp'. rewrite Hg, Hp in Hp'.
      injection Hp' as <-. exact Hrow.
Qed.

Lemma X21_resubmission_rejected_witness :
  let first := POST_api_applications "omar-sub" (omars_body Js.Null) running_world in
  let w1 := serve [Post_contact omars_message; Get_stats] (snd first) in
  exists r',
    fst (POST_api_applications "omar-sub" (omars_body (Js.Str "Jane Smith")) w1) = Ok r'
    /\ res_status r' = 400
    /\ db (snd (POST_api_applications "omar-sub" (omars_body (Js.Str "Jane Smith")) w1))
       = db w1.
Proof.
  cbv zeta.
  eapply (X21_resubmission_rejected "omar-sub" (omars_body Js.Null)
            (omars_body (Js.Str "Jane Smith"))
            [Post_contact omars_message; Get_stats] running_world).
  - vm_compute. reflexivity.
  - reflexivity.
  - reflexivity.
Defined.

Lemma find_by_fresh {A : Type} (key : A -> string) (rows more : list A) (r : A) :
  has_id key (key r) rows = false ->
  find_by key (key r) ((rows ++ [r]) ++ more)%list = Some r.
Proof.
  intros H. rewrite !find_by_app.
  assert (E : find_by key (key r) rows = None).
  { apply find_by_none. intros x Hx Ex. apply has_id_false_iff in H. apply H.
    rewrite <- Ex. now apply in_map. }
  rewrite E. unfold find_by. cbn. now rewrite String.eqb_refl.
Qed.

(** X22.  What was submitted can be read back by its owner only.  After a
    submission was answered 201 with an application, and whatever requests
    are handled after it, GET /api/applications/:id with the id of that
    application answers the session's user 200 with that application, and
    answers 403 to every other user. *)
Theorem X22_submission_round_trip (userId other : string) (body : Js.value)
    (rs : list Request) (w : World) (row : Application.t) (q : bool) (m : string) :
  fst (POST_api_applications userId body w)
  = Ok (mkResponse 201 (Json_created row q m)) ->
  let w1 := serve rs (snd (POST_api_applications userId body w)) in
  (exists d,
     fst (GET_api_applications_id userId (Application.id row) w1)
     = Ok (mkResponse 200 (Json_application d))
     /\ awd_application d = row)
  /\ (other <> userId ->
      fst (GET_api_applications_id other (Application.id row) w1)
      = Ok (mkResponse 403 (Json_message "Access denied"))).
Proof.
  intros Hr. cbv zeta.
  destruct (POST_api_applications_db userId body w)
    as [[_ Hno] | (data & row' & q' & m' & _ & Hr' & Hdb & Hu & _ & _ & Hfresh & _)].
  { exfalso. now apply (Hno _ Hr). }
  rewrite Hr' in Hr. injection Hr as -> _ _.
  destruct (serve_grows rs (snd (POST_api_applications userId body w)))
    as [_ _ _ _ [new [Ha _]] _].
  set (w1 := serve rs (snd (POST_api_applications userId body w))) in *.
  assert (F : find_by Application.id (Application.id row) (applications (db w1))
              = Some row).
  { rewrite Ha, Hdb. cbn [applications set_applications]. now apply find_by_fresh. }
  unfold GET_api_applications_id, getApplicationById. run_monad. rewrite F.
  cbn [awd_application]. rewrite Hu. split.
  - rewrite String.eqb_refl. cbn. eexists. split; reflexivity.
  - intros Ho. apply not_eq_sym, String.eqb_neq in Ho. rewrite Ho. reflexivity.
Qed.

Lemma X22_submission_round_trip_witness :
  let first := POST_api_applications "omar-sub" (omars_body Js.Null) running_world in
  let w1 := serve [Post_contact omars_message] (snd first) in
  exists row,
    (exists d,
       fst (GET_api_applications_id "omar-sub" (Application.id row) w1)
       = Ok (mkResponse 200 (Json_application d))
       /\ awd_application d = row)
    /\ fst (GET_api_applications_id "jane-sub" (Application.id row) w1)
       = Ok (mkResponse 403 (Json_message "Access denied")).
Proof.
  cbv zeta. eexists.
  pose proof (X22_submission_round_trip "omar-sub" "jane-sub" (omars_body Js.Null)
                [Post_contact omars_message] running_world _ _ _
                ltac:(vm_compute; reflexivity)) as H.
  cbv zeta in H. destruct H as [H1 H2]. split; [exact H1|].
  apply H2. discriminate.
Defined.

(** X20.  The body decides nothing about the owner and the decision.  Two bodies
    that pass validation and agree on [grantId], [fullName], [email],
    [phone], [address], [reasonForApplying], [referralName] and [notes]
    get the same answer and leave the same world, whatever they say about
    [userId], [hasReferral], [autoQualified] and [status]. *)
Theorem X20_session_user_only (userId : string) (body body' : Js.value)
    (data data' : InsertApplication.t) (w : World) :
  insertApplicationSchema_parse body = inr data ->
  insertApplicationSchema_parse body' = inr data' ->
  InsertApplication.grantId data = InsertApplication.grantId data' ->
  InsertApplication.fullName data = InsertApplication.fullName data' ->
  InsertApplication.email data = InsertApplication.email data' ->
  InsertApplication.phone data = InsertApplication.phone data' ->
  InsertApplication.address data = InsertApplication.address data' ->
  InsertApplication.reasonForApplying data = InsertApplication.reasonForApplying data' ->
  InsertApplication.referralName data = InsertApplication.referralName data' ->
  InsertApplication.notes data = InsertApplication.notes data' ->
  POST_api_applications userId body w = POST_api_applications userId body' w.
Proof.
  intros Hp Hp' H1 H2 H3 H4 H5 H6 H7 H8. unfold POST_api_applications.
  rewrite Hp, Hp'. unfold try_catch.
  rewrite (bind_run (parse (inr data)) _ w w data eq_refl),
          (bind_run (parse (inr data')) _ w w data' eq_refl).
  cbv beta. rewrite H1, H2, H3, H4, H5, H6, H7, H8. reflexivity.
Qed.

Lemma X20_session_user_only_witness :
  POST_api_applications "omar-sub" (omars_body Js.Null) running_world
  = POST_api_applications "omar-sub" forged_body running_world.
Proof.
  eapply (X20_session_user_only "omar-sub" (omars_body Js.Null) forged_body);
    [vm_compute; reflexivity | vm_compute; reflexivity | ..]; reflexivity.
Defined.

(** X19.  A submission must carry seven texts.  A body in which [grantId],
    [userId], [fullName], [email], [phone], [address] or
    [reasonForApplying] is missing or is no string is answered 400 with a
    validation error that names the field, and the world is as before: no
    storage call is made, no number is drawn and nothing is stored.  The
    [userId] is required although its value is never used. *)
Theorem X19_submission_requires (userId : string) (fields : list (string * Js.value))
    (k : string) (w : World) :
  In k ["grantId"; "userId"; "fullName"; "email"; "phone"; "address";
        "reasonForApplying"] ->
  Js.is_string (Js.assoc k fields) = false ->
  exists errors,
    POST_api_applications userId (Js.Object fields) w
    = (Ok (mkResponse 400 (Json_validation "Validation error" errors)), w)
    /\ In k errors.
Proof.
  intros Hk Hs. apply z_string_none in Hs.
  unfold POST_api_applications.
  destruct (insertApplicationSchema_parse (Js.Object fields)) as [e|data] eqn:E.
  - cbn in E.
    destruct (issue "grantId" _ ++ _)%list as [|i rest] eqn:F in E; [discriminate E|].
    injection E as <-. run_monad. eexists. split; [reflexivity|].
    rewrite <- F. rewrite !in_app_iff. cbn in Hk.
    destruct Hk as [<-|[<-|[<-|[<-|[<-|[<-|[<-|[]]]]]]]]; auto 12 using in_issue.
  - exfalso. cbn in E.
    destruct (issue "grantId" _ ++ _)%list as [|i rest] eqn:F in E; [|discriminate E].
    repeat (apply app_eq_nil in F;
            let F1 := fresh "F" in destruct F as [F1 F]; apply issue_nil in F1).
    cbn in Hk.
    destruct Hk as [<-|[<-|[<-|[<-|[<-|[<-|[<-|[]]]]]]]];
      match goal with
      | H : exists a, z_string _ = Some a |- _ =>
          destruct H as [? H]; rewrite Hs in H; discriminate H
      end.
Qed.

Lemma X19_submission_requires_witness :
  exists errors,
    POST_api_applications "omar-sub"
      (Js.Object [ ("grantId", Js.Str "id"); ("fullName", Js.Str "Omar Haddad");
                   ("email", Js.Str "omar@example.org"); ("phone", Js.Str "555-0101");
                   ("address", Js.Str "2 Side Street");
                   ("reasonForApplying", Js.Str "Home repairs") ]) running_world
    = (Ok (mkResponse 400 (Json_validation "Validation error" errors)), running_world)
    /\ In "userId" errors.
Proof.
  apply (X19_submission_requires "omar-sub" _ "userId" running_world).
  - cbn. auto.
  - reflexivity.
Defined.

Lemma left_join_nonempty {A B : Type} (on : A -> B -> bool) (l : list A) (r : list B) :
  l <> [] -> left_join on l r <> [].
Proof.
  destruct l as [|a l]; [congruence|]. intros _. unfold left_join. cbn [flat_map].
  destruct (filter (on a) r); discriminate.
Qed.

Lemma filter_all {A : Type} (p : A -> bool) (l : list A) :
  (forall x, p x = true) -> filter p l = l.
Proof.
  intros H. induction l as [|x l IH]; cbn; [reflexivity|]. now rewrite H, IH.
Qed.

Lemma lookup_all (name : string) (d : Db) :
  (forall r, Pg.ILIKE (recipient_name r) ("%" ++ name ++ "%") = true) ->
  grantAwards d <> [] ->
  (0 <? count (recipients_like name d)) = true.
Proof.
  intros Hall Hn. unfold recipients_like.
  rewrite (filter_all _ _ (fun r => Hall (snd r))).
  apply count_pos_iff.
  destruct (awards_join_users d) as [|x l] eqn:E.
  - exfalso. unfold awards_join_users in E.
    exact (left_join_nonempty _ _ _ Hn E).
  - exists x. now left.
Qed.

Lemma parse_referralName (body : Js.value) (data : InsertApplication.t) (name : string) :
  insertApplicationSchema_parse body = inr data ->
  Js.get body "referralName" = Some (Js.Str name) ->
  InsertApplication.referralName data = Some name.
Proof.
  unfold insertApplicationSchema_parse. destruct body; try discriminate.
  unfold Js.get. intros H [= E]. rewrite E in H. cbn [z_string_nullish] in H.
  match type of H with match ?l with _ => _ end = _ => destruct l end;
    [|discriminate].
  injection H as <-. reflexivity.
Qed.

(** What an accepted submission stores when the lookup is consulted or
    not. *)
Lemma accepted_submission (userId : string) (body : Js.value)
    (data : InsertApplication.t) (w : World) (r : Response) :
  insertApplicationSchema_parse body = inr data ->
  fst (POST_api_applications userId body w) = Ok r ->
  res_status r = 201 ->
  let hasReferral := referral_found data w in
  let autoQualified :=
    if hasReferral then true else Qgtb (randoms w (random_pos w)) js_0_3 in
  res_body r = Json_created (submitted_row userId data hasReferral autoQualified w)
                            autoQualified
                            (qualification_message autoQualified hasReferral)
  /\ random_pos (snd (POST_api_applications userId body w))
     = (if hasReferral then random_pos w else S (random_pos w)).
Proof.
  intros Hp Hr H201. cbv zeta.
  pose proof (POST_api_applications_spec userId body w) as S. cbv zeta in S.
  rewrite Hp in S.
  destruct (0 <? count (applications_of userId (InsertApplication.grantId data) (db w))).
  - rewrite S in Hr. injection Hr as <-. discriminate.
  - destruct S as [w' [Hpos S]].
    destruct (insertable userId data w); destruct S as [Hout Hdb];
      rewrite Hout in *; cbn [fst snd] in *; injection Hr as <-; [|discriminate].
    split; [reflexivity | exact Hpos].
Qed.

Lemma space_in_every_name (r : option User.t) : contains_ci (recipient_name r) " ".
Proof.
  unfold contains_ci, contains.
  destruct r as [u|].
  - rewrite recipient_name_spec, !list_ascii_of_string_app.
    unfold Pg.lower. rewrite !map_app. eexists. eexists. reflexivity.
  - exists [], []. reflexivity.
Qed.

(** X23.  A name of one space.  When an award is stored, POST
    /api/check-referral answers every body whose [referralName] is [" "]
    that the referral exists and qualifies, since every name the lookup
    searches has a space in it; an accepted submission with that
    [referralName] is not taken to have a referral: the name is blank
    after trimming, the lookup is not consulted and the decision is drawn
    at random. *)
Theorem X23_blank_referral (userId : string) (body : Js.value) (w : World) :
  grantAwards (db w) <> [] ->
  Js.get body "referralName" = Some (Js.Str " ") ->
  fst (POST_api_check_referral body w) = Ok (mkResponse 200 (Json_referral true true))
  /\ forall r,
       fst (POST_api_applications userId body w) = Ok r ->
       res_status r = 201 ->
       exists row message,
         res_body r = Json_created row (Qgtb (randoms w (random_pos w)) js_0_3) message
         /\ Application.referralName row = Some " "
         /\ Application.hasReferral row = Some false
         /\ random_pos (snd (POST_api_applications userId body w)) = S (random_pos w).
Proof.
  intros Hn Hname. split.
  - unfold POST_api_check_referral, destructure. rewrite Hname.
    unfold try_catch.
    rewrite (bind_run (ret (Js.Str " ")) _ w w (Js.Str " ") eq_refl). cbv beta.
    cbn [Js.truthy Js.is_string negb orb String.eqb Ascii.eqb Bool.eqb z_string parsed_or].
    rewrite (bind_run _ _ _ _ _ (checkReferralExists_run " " w)).
    assert (E : (0 <? count (recipients_like " " (db w))) = true).
    { apply lookup_all; [|exact Hn]. intros s.
      apply ILIKE_of_contains_ci.
      - repeat constructor. discriminate.
      - apply space_in_every_name. }
    rewrite E. reflexivity.
  - intros r Hr H201.
    destruct (POST_api_applications_db userId body w)
      as [[_ Hno] | (data & _ & _ & _ & Hp & _)].
    { exfalso. exact (Hno r Hr H201). }
    destruct (accepted_submission userId body data w r Hp Hr H201) as [Hb Hpos].
    assert (F : referral_found data w = false).
    { unfold referral_found. rewrite (parse_referralName _ _ _ Hp Hname).
      rewrite referral_given_false by reflexivity. reflexivity. }
    rewrite F in Hb, Hpos. eexists. eexists. split; [exact Hb|].
    cbn [submitted_row Application.referralName Application.hasReferral].
    split; [exact (parse_referralName _ _ _ Hp Hname)|]. split; [reflexivity | exact Hpos].
Qed.

Lemma X23_blank_referral_witness :
  fst (POST_api_check_referral (Js.Object [("referralName", Js.Str " ")]) running_world)
  = Ok (mkResponse 200 (Json_referral true true))
  /\ fst (POST_api_check_referral (omars_body (Js.Str " ")) running_world)
     = Ok (mkResponse 200 (Json_referral true true))
  /\ exists row message,
       fst (POST_api_applications "omar-sub" (omars_body (Js.Str " ")) running_world)
       = Ok (mkResponse 201 (Json_created row true message))
       /\ Application.referralName row = Some " "
       /\ Application.hasReferral row = Some false
       /\ random_pos (snd (POST_api_applications "omar-sub" (omars_body (Js.Str " "))
                             running_world)) = 1%nat.
Proof.
  split; [|split].
  - apply (X23_blank_referral "omar-sub" (Js.Object [("referralName", Js.Str " ")])
             running_world); [discriminate | reflexivity].
  - apply (X23_blank_referral "omar-sub" (omars_body (Js.Str " ")) running_world);
      [discriminate | reflexivity].
  - destruct (proj2 (X23_blank_referral "omar-sub" (omars_body (Js.Str " "))
                       running_world ltac:(discriminate) eq_refl)
                (mkResponse 201
                   (Json_created
                      (submitted_row "omar-sub"
                         (InsertApplication.mk "id" "omar-sub" "Omar Haddad"
                            "omar@example.org" "555-0101" "2 Side Street" "Home repairs"
                            (Some " ") Omitted Omitted Omitted None)
                         false true running_world)
                      true (qualification_message true false))))
      as (row & message & Hb & H2 & H3 & H4).
    + vm_compute. reflexivity.
    + reflexivity.
    + cbn [res_body] in Hb. injection Hb as <- _.
      eexists. eexists. split; [vm_compute; reflexivity|].
      split; [reflexivity|]. split; [reflexivity | exact H4].
Defined.

Lemma percent_matches_all (s : string) : Pg.ILIKE s ("%" ++ "%" ++ "%") = true.
Proof.
  unfold Pg.ILIKE. cbn [append list_ascii_of_string Pg.lower map].
  change (Pg.lower_char "%") with "%"%char.
  apply like_any_run. exists [], (map Pg.lower_char (list_ascii_of_string s)).
  split; [reflexivity|].
  apply like_any_run. exists [], (map Pg.lower_char (list_ascii_of_string s)).
  split; [reflexivity|]. apply like_trailing_percent.
Qed.

(** X24.  A name of one percent sign.  When an award is stored, an accepted
    submission whose [referralName] is ["%"] is taken to have a referral
    and is qualified without a draw, whoever the recipients are: the name
    goes into the pattern as a wildcard. *)
Theorem X24_wildcard_referral (userId : string) (body : Js.value) (w : World)
    (r : Response) :
  grantAwards (db w) <> [] ->
  Js.get body "referralName" = Some (Js.Str "%") ->
  fst (POST_api_applications userId body w) = Ok r ->
  res_status r = 201 ->
  exists row message,
    res_body r = Json_created row true message
    /\ Application.hasReferral row = Some true
    /\ Application.autoQualified row = Some true
    /\ Application.status row = Some qualified
    /\ random_pos (snd (POST_api_applications userId body w)) = random_pos w.
Proof.
  intros Hn Hname Hr H201.
  destruct (POST_api_applications_db userId body w)
    as [[_ Hno] | (data & _ & _ & _ & Hp & _)].
  { exfalso. exact (Hno r Hr H201). }
  destruct (accepted_submission userId body data w r Hp Hr H201) as [Hb Hpos].
  assert (F : referral_found data w = true).
  { unfold referral_found. rewrite (parse_referralName _ _ _ Hp Hname).
    rewrite referral_given_true by discriminate. cbn [parsed_or andb].
    apply lookup_all; [|exact Hn]. intros s. apply percent_matches_all. }
  rewrite F in Hb, Hpos. eexists. eexists. split; [exact Hb|].
  cbn. auto.
Qed.

Lemma X24_wildcard_referral_witness :
  let body := omars_body (Js.Str "%") in
  exists row message,
    fst (POST_api_applications "omar-sub" body running_world)
    = Ok (mkResponse 201 (Json_created row true message))
    /\ Application.hasReferral row = Some true
    /\ Application.autoQualified row = Some true
    /\ Application.status row = Some qualified
    /\ random_pos (snd (POST_api_applications "omar-sub" body running_world)) = 0%nat.
Proof.
  cbv zeta.
  destruct (X24_wildcard_referral "omar-sub" (omars_body (Js.Str "%")) running_world
              (mkResponse 201
                 (Json_created
                    (submitted_row "omar-sub"
                       (InsertApplication.mk "id" "omar-sub" "Omar Haddad"
                          "omar@example.org" "555-0101" "2 Side Street" "Home repairs"
                          (Some "%") Omitted Omitted Omitted None)
                       true true running_world)
                    true (qualification_message true true))))
    as (row & message & Hb & H2 & H3 & H4 & H5).
  - discriminate.
  - reflexivity.
  - vm_compute. reflexivity.
  - reflexivity.
  - cbn [res_body] in Hb. injection Hb as <- _.
    eexists. eexists. split; [vm_compute; reflexivity|]. auto.
Defined.

(** ** Awards, messages and what follows from them *)

(** The two ways [createGrantAward] can go. *)
Lemma createGrantAward_run (award : InsertGrantAward.t) (w : World) :
  (exists c, createGrantAward award w = (Throw (DbError c), snd (gen_random_uuid w)))
  \/ createGrantAward award w
     = (Ok (new_grant_award award (uuids w (uuid_pos w)) (clock w)),
        snd (update_db (set_grantAwards
                          (grantAwards (db w)
                             ++ [new_grant_award award (uuids w (uuid_pos w)) (clock w)])%list)
                       (snd (gen_random_uuid w)))).
Proof.
  unfold createGrantAward. run_monad.
  repeat match goal with
         | |- context [if ?c then _ else _] => destruct c; [|left; eexists; reflexivity]
         end.
  right. reflexivity.
Qed.

(** X16.  A new recipient is a referral.  After [createGrantAward] has stored an
    award for a user, [checkReferralExists] finds every name without
    backslash that occurs, case ignored, in that user's first name, a
    space and last name. *)
Theorem X16_award_then_referral (award : InsertGrantAward.t) (w : World)
    (a : GrantAward.t) (u : User.t) (name : string) :
  fst (createGrantAward award w) = Ok a ->
  In u (users (db w)) ->
  User.id u = InsertGrantAward.userId award ->
  unescaped name ->
  contains_ci (recipient_name (Some u)) name ->
  fst (checkReferralExists name (snd (createGrantAward award w))) = Ok true.
Proof.
  intros Hrun Hu Hid Hname Hc.
  destruct (createGrantAward_run award w) as [[c E] | E]; rewrite E in *;
    [discriminate|].
  cbn [fst] in Hrun. injection Hrun as <-.
  apply lookup_finds_contained; [exact Hname|].
  exists (new_grant_award award (uuids w (uuid_pos w)) (clock w)), (Some u).
  split; [|exact Hc].
  apply awards_join_users_recipient. unfold update_db.
  cbn [snd db grantAwards users set_grantAwards]. split; [|split].
  - apply in_app_iff. right. now left.
  - exact Hu.
  - exact Hid.
Qed.

Lemma X16_award_then_referral_witness :
  fst (checkReferralExists "Haddad"
         (snd (createGrantAward omars_award running_world))) = Ok true.
Proof.
  apply (X16_award_then_referral omars_award running_world
           (new_grant_award omars_award (tally 8) 1700000002000) omar "Haddad").
  - vm_compute. reflexivity.
  - right. now left.
  - reflexivity.
  - repeat constructor; discriminate.
  - exists (list_ascii_of_string "omar "), []. reflexivity.
Defined.

Lemma sum_snoc (l : list Z) (x : Z) :
  COALESCE (SUM (l ++ [x])) 0 = COALESCE (SUM l) 0 + x.
Proof.
  assert (F : fold_right Z.add 0 (l ++ [x]) = fold_right Z.add 0 l + x).
  { induction l as [|y l IH]; cbn [app fold_right]; lia. }
  destruct l as [|y l]; [cbn; lia|].
  unfold SUM. cbn [app COALESCE]. cbn [app] in F. exact F.
Qed.

(** X17.  An award in the figures and in the recipient's list.  After
    [createGrantAward] has stored an award, GET /api/stats reports one
    recipient more and the amount more than before, with the number of
    countries and the success rate as they were, and GET /api/awards lists
    the award for its user.  When [createGrantAward] fails, the database
    is as before. *)
Theorem X17_award_counts (award : InsertGrantAward.t) (w : World) :
  let w' := snd (createGrantAward award w) in
  match fst (createGrantAward award w) with
  | Throw _ => db w' = db w
  | Ok a =>
      exists s s' aws,
        fst (GET_api_stats w) = Ok (mkResponse 200 (Json_stats s))
        /\ fst (GET_api_stats w') = Ok (mkResponse 200 (Json_stats s'))
        /\ totalRecipients s' = totalRecipients s + 1
        /\ totalGrantsDistributed s' = totalGrantsDistributed s + GrantAward.amount a
        /\ totalCountries s' = totalCountries s
        /\ successRate s' = successRate s
        /\ fst (GET_api_awards (GrantAward.userId a) w')
           = Ok (mkAnswer 200 (Json_awards aws))
        /\ In a aws
  end.
Proof.
  cbv zeta.
  destruct (createGrantAward_run award w) as [[c E] | E]; rewrite E; cbn [fst snd];
    [reflexivity|].
  unfold GET_api_stats, GET_api_awards, getAwardsByUser, answer, json.
  unfold bind at 1 2, try_catch. rewrite !getGrantStats_run. run_monad.
  eexists. eexists. eexists.
  split; [reflexivity|]. split; [reflexivity|].
  cbn [totalRecipients totalGrantsDistributed totalCountries successRate
       grantAwards countries applications set_grantAwards].
  split; [|split; [|split; [|split; [|split]]]]; try reflexivity.
  - unfold count. rewrite length_app. cbn [List.length]. lia.
  - rewrite map_app. cbn [map]. apply sum_snoc.
  - apply In_order_by, filter_In. split.
    + apply in_app_iff. right. now left.
    + apply String.eqb_refl.
Qed.

(** X12.  A message that was sent is in the inbox.  After POST /api/contact
    answered 201 with an id, [getAllContactMessages] returns the messages
    stored before and the message with that id, each once per stored row,
    the latest first. *)
Theorem X12_sent_message_listed (body : Js.value) (w : World) (text id : string) :
  fst (POST_api_contact body w) = Ok (mkAnswer 201 (Json_sent text id)) ->
  let w' := snd (POST_api_contact body w) in
  exists row inbox,
    fst (getAllContactMessages w') = Ok inbox
    /\ ContactMessage.id row = id
    /\ Permutation inbox (row :: contactMessages (db w))
    /\ newest_first ContactMessage.createdAt inbox.
Proof.
  intros Hr. cbv zeta.
  destruct (insertContactMessageSchema_parse body) as [e|m] eqn:E.
  - destruct (POST_api_contact_invalid _ e w E) as [errors [_ [_ Hrun]]].
    rewrite Hrun in Hr. discriminate.
  - rewrite (POST_api_contact_valid body m w E) in *. cbv zeta in *.
    destruct (storable_message m); cbn [negb] in *; [|discriminate].
    destruct (has_id ContactMessage.id (uuids w (uuid_pos w)) (contactMessages (db w)));
      [discriminate|].
    cbn [fst] in Hr. injection Hr as _ <-.
    unfold getAllContactMessages. run_monad.
    cbn [contactMessages set_contactMessages].
    exists (new_contact_message m (uuids w (uuid_pos w)) (clock w)).
    eexists. split; [reflexivity|]. split; [reflexivity|]. split.
    + rewrite order_by_perm. symmetry. apply Permutation_cons_append.
    + apply order_by_newest_first.
Qed.

Lemma X12_sent_message_listed_witness :
  let w' := snd (POST_api_contact omars_message running_world) in
  exists row inbox,
    fst (getAllContactMessages w') = Ok inbox
    /\ ContactMessage.id row = tally 8
    /\ Permutation inbox (row :: contactMessages (db running_world))
    /\ newest_first ContactMessage.createdAt inbox.
Proof.
  cbv zeta.
  apply (X12_sent_message_listed omars_message running_world "Message sent successfully").
  vm_compute. reflexivity.
Defined.

Lemma applicants_distinct (g : string) (rows : list Application.t) :
  (forall u, (List.length
                (filter (fun a => (Application.userId a =? u)%string
                                  && (Application.grantId a =? g)%string) rows)
              <= 1)%nat) ->
  NoDup (map Application.userId
             (filter (fun a => (Application.grantId a =? g)%string) rows)).
Proof.
  induction rows as [|x rows IH]; intros H; cbn [filter map]; [constructor|].
  assert (Hrest : forall u,
             (List.length
                (filter (fun a => (Application.userId a =? u)%string
                                  && (Application.grantId a =? g)%string) rows)
              <= 1)%nat).
  { intros u. specialize (H u). cbn [filter] in H.
    destruct ((Application.userId x =? u)%string && (Application.grantId x =? g)%string);
      cbn [List.length] in H; lia. }
  destruct (Application.grantId x =? g)%string eqn:Eg; [|now apply IH].
  cbn [map]. constructor; [|now apply IH].
  intros Hin. apply in_map_iff in Hin. destruct Hin as [y [Ey Hy]].
  apply filter_In in Hy. destruct Hy as [Hy Gy].
  specialize (H (Application.userId x)). cbn [filter] in H.
  rewrite String.eqb_refl, Eg in H. cbn [andb List.length] in H.
  apply in_split in Hy. destruct Hy as [l1 [l2 ->]].
  rewrite filter_app in H. cbn [filter] in H. rewrite Ey, String.eqb_refl, Gy in H.
  cbn [andb] in H. rewrite length_app in H. cbn [List.length] in H. lia.
Qed.

(** X18.  The applicants of a grant.  [getApplicationsByGrant] returns exactly
    the stored applications for the grant, each once per stored row, the
    latest first; when no user has two applications for one grant, no user
    occurs twice among them. *)
Theorem X18_applicants_of_grant (grantId : string) (w : World) :
  exists apps,
    getApplicationsByGrant grantId w = (Ok apps, w)
    /\ Permutation apps
         (filter (fun a => (Application.grantId a =? grantId)%string)
                 (applications (db w)))
    /\ newest_first Application.submittedAt apps
    /\ (one_application_each (db w) -> NoDup (map Application.userId apps)).
Proof.
  unfold getApplicationsByGrant. run_monad. eexists. split; [reflexivity|].
  split; [apply order_by_perm|]. split; [apply order_by_newest_first|].
  intros Hone.
  apply (Permutation_NoDup
           (Permutation_map Application.userId (Permutation_sym (order_by_perm _ _)))).
  apply applicants_distinct. intros u. specialize (Hone u grantId).
  unfold applications_of, count in Hone. lia.
Qed.

Lemma X18_applicants_of_grant_witness :
  exists apps,
    getApplicationsByGrant "id" running_world = (Ok apps, running_world)
    /\ NoDup (map Application.userId apps).
Proof.
  destruct (X18_applicants_of_grant "id" running_world) as (apps & H1 & _ & _ & H2).
  exists apps. split; [exact H1|]. apply H2.
  intros u g. unfold applications_of, count. cbn [db running_world applications filter].
  destruct ((Application.userId janes_application =? u)%string
            && (Application.grantId janes_application =? g)%string); cbn; lia.
Defined.

(** X29.  The success rate is a percentage.  With fewer than 2^43 stored
    applications, GET /api/stats reports a success rate from 0 to 100; it
    reports 100 when every stored application is selected and 0 when none
    is. *)
Theorem X29_success_rate_range (w : World) :
  count (applications (db w)) < 2 ^ 43 ->
  exists s,
    fst (GET_api_stats w) = Ok (mkResponse 200 (Json_stats s))
    /\ 0 <= successRate s <= 100
    /\ (filter (fun a => is_selected (Application.status a)) (applications (db w)) = [] ->
        successRate s = 0)
    /\ (applications (db w) <> [] ->
        filter (fun a => is_selected (Application.status a)) (applications (db w))
        = applications (db w) ->
        successRate s = 100).
Proof.
  intros Hb. unfold GET_api_stats, json. unfold bind, try_catch.
  rewrite getGrantStats_run. unfold ret. cbn [fst]. eexists. split; [reflexivity|].
  cbn [successRate].
  pose proof (count_filter_le (fun a => is_selected (Application.status a))
                (applications (db w))) as Hle.
  set (sel := count (filter (fun a => is_selected (Application.status a))
                            (applications (db w)))) in *.
  set (tot := count (applications (db w))) in *.
  destruct (Z.ltb_spec 0 tot) as [Hpos|Hzero].
  - change (F64.Math_round
              (F64.mul (F64.div (F64.of_Z sel) (F64.of_Z tot)) (F64.of_Z 100)))
      with (rate_of sel tot).
    pose proof (rate_of_nearest sel tot Hle (conj Hpos Hb)) as Hn.
    unfold nearest_integer in Hn. split; [|split].
    + split; nia.
    + intros E. subst sel. rewrite E. apply rate_of_none.
    + intros _ E. subst sel. rewrite E in *. fold tot in Hn |- *. nia.
  - split; [cbn; lia|]. split; [reflexivity|].
    intros Hne. exfalso. subst tot. unfold count in Hzero.
    destruct (applications (db w)); [congruence | cbn [List.length] in Hzero; lia].
Qed.

Lemma X29_success_rate_range_witness :
  exists s,
    fst (GET_api_stats running_world) = Ok (mkResponse 200 (Json_stats s))
    /\ 0 <= successRate s <= 100
    /\ successRate s = 100.
Proof.
  destruct (X29_success_rate_range running_world) as (s & H1 & H2 & _ & H3).
  - vm_compute. reflexivity.
  - exists s. split; [exact H1|]. split; [exact H2|].
    apply H3; [discriminate | reflexivity].
Defined.
